(** * Restore-from-backup and clone-from-backup workflows

    A shallow embedding of the two orchestration services of the backups
    addon (the restore service, [Restore], and the clone service, [Clone])
    together with the helper [getFilteredSiteFiles].

    The services are xstate machines whose states invoke asynchronous
    functions.  Those functions talk to collaborators that live outside the
    repository (the hub, restic, MySQL, the host application).  The embedding
    keeps

    - the part of the world the code reads and writes as an explicit state
      [Sys] (the single-flight slot, the disk, the site registry, MySQL),
    - every collaborator call in a chronological [Trace],
    - the outcome of the fallible collaborator calls in an oracle, [Env],
      which may make any such call throw. *)

From Stdlib Require Import String List Bool Ascii Arith Lia RelationClasses.
Import ListNotations.
Open Scope string_scope.

(** ** JavaScript values seen by the caller *)

#[warnings="-register-all"]
Inductive JSVal :=
| JUndefined
| JNull
| JBool (b : bool)
| JString (s : string)
| JObject (props : list (string * JSVal)).

Fixpoint get_prop (props : list (string * JSVal)) (k : string) : JSVal :=
  match props with
  | [] => JUndefined
  | (k', v) :: rest => if k' =? k then v else get_prop rest k
  end.

(** [o.k] and [const { k } = o]: a property the object does not own reads
    as [undefined]. *)
Definition prop (o : JSVal) (k : string) : JSVal :=
  match o with
  | JObject props => get_prop props k
  | _ => JUndefined
  end.

(** The test of [if (v)]. *)
Definition truthy (v : JSVal) : bool :=
  match v with
  | JUndefined | JNull => false
  | JBool b => b
  | JString s => negb (s =? EmptyString)
  | JObject _ => true
  end.

(** A thrown value or a rejection reason; the machines store it in
    [context.error], typed [string]. *)
Definition Err := string.

(** ** Paths and the disk *)

(** A path is its list of segments: [/a/b] is [["a"; "b"]]. *)
Definition Path := list string.

Fixpoint path_eqb (p q : Path) : bool :=
  match p, q with
  | [], [] => true
  | a :: p', b :: q' => (a =? b) && path_eqb p' q'
  | _, _ => false
  end.

(** [is_prefix p q]: [q] is [p] or lies below [p]. *)
Fixpoint is_prefix (p q : Path) : bool :=
  match p, q with
  | [], _ => true
  | a :: p', b :: q' => (a =? b) && is_prefix p' q'
  | _ :: _, [] => false
  end.

Definition is_below (p q : Path) : bool :=
  is_prefix p q && negb (path_eqb p q).

(** [relative p q]: the segments of [q] after the prefix [p]. *)
Fixpoint relative (p q : Path) : option Path :=
  match p, q with
  | [], _ => Some q
  | a :: p', b :: q' => if a =? b then relative p' q' else None
  | _ :: _, [] => None
  end.

(** The name of a direct child of [dir]. *)
Definition child_name (dir p : Path) : option string :=
  match relative dir p with
  | Some [n] => Some n
  | _ => None
  end.

(** [path.dirname] and [path.join]. *)
Definition dirname (p : Path) : Path := removelast p.
Definition join (p : Path) (segs : list string) : Path := (p ++ segs)%list.

Inductive Node :=
| Dir
| File (data : string).

Definition Disk := list (Path * Node).

Definition existsSync (d : Disk) (p : Path) : bool :=
  existsb (fun e => path_eqb (fst e) p) d.

Definition read_file (d : Disk) (p : Path) : option string :=
  match find (fun e => path_eqb (fst e) p) d with
  | Some (_, File data) => Some data
  | _ => None
  end.

Definition write (e : Path * Node) (d : Disk) : Disk :=
  e :: filter (fun e' => negb (path_eqb (fst e') (fst e))) d.

Definition mkdir (p : Path) (d : Disk) : Disk :=
  if existsSync d p then d else (p, Dir) :: d.

(** [fs.remove]: the path and everything below it. *)
Definition remove (p : Path) (d : Disk) : Disk :=
  filter (fun e => negb (is_prefix p (fst e))) d.

(** [fs.emptyDirSync]: deletes the contents; creates the directory when it
    does not exist. *)
Definition emptyDir (p : Path) (d : Disk) : Disk :=
  mkdir p (filter (fun e => negb (is_below p (fst e))) d).

Definition has_children (p : Path) (d : Disk) : bool :=
  existsb (fun e => is_below p (fst e)) d.

(** The entries below [src], moved below [dst]. *)
Definition relocate (src dst : Path) (d : Disk) : Disk :=
  flat_map (fun e =>
    match relative src (fst e) with
    | Some (s :: rest) => [((dst ++ s :: rest)%list, snd e)]
    | _ => []
    end) d.

(** [fs.copySync(src, dst)] on a directory: the contents of [src] are
    written over [dst]; what is in [dst] and not in [src] stays. *)
Definition copy (src dst : Path) (d : Disk) : Disk :=
  fold_right write (mkdir dst d) (relocate src dst d).

(** ** Sites *)

Module Site.
Record t := mk {
    id : string;
    name : string;
    path : Path;
    domain : string;
    mysql_database : string;
    localBackupRepoID : option string
  }.
End Site.

Inductive Providers := Drive | Dropbox.

Module BackupSite.
Record t := mk { id : nat; uuid : string; password : string }.
End BackupSite.

(** [tmp.dirSync()] result: the directory name; its [removeCallback] is
    [removeCallback] below, applied to that name. *)
Record DirResult := { dir_name : Path }.

(** ** MySQL, as far as the queries of [importDatabase] go *)

Inductive Query :=
| SELECT_SQL_MODE                      (* SELECT @@SQL_MODE; *)
| SET_GLOBAL_SQL_MODE (mode : string)  (* SET GLOBAL SQL_MODE='<mode>'; *)
| DROP_CREATE_DATABASE (db : string).
    (* SET names 'utf8'; DROP DATABASE <db>; CREATE DATABASE IF NOT EXISTS <db>; *)

Definition query_text (q : Query) : string :=
  match q with
  | SELECT_SQL_MODE => "SELECT @@SQL_MODE;"
  | SET_GLOBAL_SQL_MODE mode => "SET GLOBAL SQL_MODE='" ++ mode ++ "';"
  | DROP_CREATE_DATABASE db =>
      "SET names 'utf8'; DROP DATABASE " ++ db
        ++ "; CREATE DATABASE IF NOT EXISTS " ++ db ++ ";"
  end.

(** One site's MySQL service: the global SQL mode and the data of each
    database (the empty string for a database that was just created). *)
Record MySQL := {
  sql_mode : string;
  databases : list (string * string)
}.

Definition set_mode (mode : string) (m : MySQL) : MySQL :=
  {| sql_mode := mode; databases := databases m |}.

Definition set_database (db data : string) (m : MySQL) : MySQL :=
  {| sql_mode := sql_mode m;
     databases := (db, data) :: filter (fun e => negb (fst e =? db)) (databases m) |}.

Definition database (m : MySQL) (db : string) : option string :=
  match find (fun e => fst e =? db) (databases m) with
  | Some (_, data) => Some data
  | None => None
  end.

Definition default_mysql : MySQL := {| sql_mode := EmptyString; databases := [] |}.

(** ** Messages to the host application *)

Record Banner := {
  siteID : string;
  banner_id : string;
  variant : string;
  icon : string;
  title : string;
  message : string
}.

Inductive IPCEvent :=
| updateSiteStatus (siteID status : string)
| updateSiteMessage (siteID msg : string)
| showSiteBanner (b : Banner)
| goToRoute (route : string)
| deleteSite (destinationSite : option Site.t) (trashFiles : bool)
| selectSite (siteID : string) (a b : bool)
| BACKUP_STARTED
| BACKUP_COMPLETED.

(** ** Collaborator calls *)

Inductive Call :=
| Logger (level msg : string)
| SendIPCEvent (ev : IPCEvent)
| ShowErrorBox (title content : string)
| GetSiteStatus (site : Site.t)
| GetBackupSite (repoID : option string)
| TmpDirSync
| RestoreResticBackup (site : Site.t) (provider : Providers)
    (encryptionPassword : option string) (snapshotID : string) (restoreDir : Path)
| FsRemove (p : Path)
| FsCopySync (src dst : Path)
| FsEmptyDirSync (p : Path)
| RemoveCallback (p : Path)
| RunSiteSQLCmd (site : Site.t) (q : Query)
| ImportSQLFile (site : Site.t) (file : Path)
| AddSite (id : string) (site : Site.t)
| Provision (site : Site.t)
| WaitForDB (site : Site.t)
| ChangeSiteDomainToHost (site : Site.t)
| RestartSite (site : Site.t)
| Resolve (v : JSVal).

Definition Trace := list Call.

(** ** The state the services share *)

Record Sys := {
  (** [serviceState.inProgressStateMachine]: the interpreter in flight,
      named by its machine id. *)
  inProgressStateMachine : option string;
  disk : Disk;
  (** The site registry behind [siteData] and [getSiteDataFromDisk]. *)
  sites : list Site.t;
  (** MySQL of each site, by site id. *)
  mysql : list (string * MySQL)
}.

Definition set_slot (v : option string) (s : Sys) : Sys :=
  {| inProgressStateMachine := v; disk := disk s; sites := sites s; mysql := mysql s |}.

Definition set_disk (d : Disk) (s : Sys) : Sys :=
  {| inProgressStateMachine := inProgressStateMachine s; disk := d;
     sites := sites s; mysql := mysql s |}.

Definition set_sites (l : list Site.t) (s : Sys) : Sys :=
  {| inProgressStateMachine := inProgressStateMachine s; disk := disk s;
     sites := l; mysql := mysql s |}.

Definition set_mysql (l : list (string * MySQL)) (s : Sys) : Sys :=
  {| inProgressStateMachine := inProgressStateMachine s; disk := disk s;
     sites := sites s; mysql := l |}.

Definition mysql_of (s : Sys) (siteID : string) : MySQL :=
  match find (fun e => fst e =? siteID) (mysql s) with
  | Some (_, m) => m
  | None => default_mysql
  end.

Definition update_mysql (siteID : string) (f : MySQL -> MySQL) (s : Sys) : Sys :=
  set_mysql ((siteID, f (mysql_of s siteID))
               :: filter (fun e => negb (fst e =? siteID)) (mysql s)) s.

(** ** What the code imports from outside the repository sources *)

Record Env := {
  (** [backupSQLDumpFile] of the constants module. *)
  backupSQLDumpFile : string;
  (** [formatHomePath]: expands the home directory in a site path. *)
  formatHomePath : Path -> Path;
  (** [formatSiteNicename] of the host application. *)
  formatSiteNicename : string -> string;
  (** [checkForDuplicateSiteName(siteName, siteDomain)], reading the
      registry. *)
  checkForDuplicateSiteName : list Site.t -> string -> string -> bool;
  (** [shortid.generate()]. *)
  shortid_generate : string;
  (** The name [tmp.dirSync()] picks. *)
  tmp_name : Path;
  (** The record the hub returns for a repository id. *)
  hub_backup_site : option string -> BackupSite.t;
  (** The file tree of a snapshot, relative to the restore directory. *)
  snapshot : string -> Disk;
  (** [siteProcessManager.getSiteStatus]. *)
  site_status : Site.t -> string;
  (** [camelCaseToSentence] of the utils module, used for log lines. *)
  camelCaseToSentence : string -> string;
  (** Which collaborator calls throw, and what. *)
  fault : Call -> option Err
}.

(** ** The monad of the service code

    A computation reads the environment, updates [Sys], appends to the
    trace, and returns or throws.  State and trace survive a throw, as they
    do in JavaScript. *)

Inductive Outcome (A : Type) :=
| Ok (a : A)
| Throw (e : Err).
Arguments Ok {A} a.
Arguments Throw {A} e.

Definition M (A : Type) : Type := Env -> Sys -> Outcome A * Sys * Trace.

Definition ret {A} (a : A) : M A := fun _ s => (Ok a, s, []).

Definition throw {A} (e : Err) : M A := fun _ s => (Throw e, s, []).

Definition bind {A B} (m : M A) (k : A -> M B) : M B :=
  fun env s =>
    match m env s with
    | (Ok a, s1, t1) =>
        match k a env s1 with
        | (r, s2, t2) => (r, s2, (t1 ++ t2)%list)
        end
    | (Throw e, s1, t1) => (Throw e, s1, t1)
    end.

Declare Scope m_scope.
Delimit Scope m_scope with m.
Notation "x <- m ;; k" := (bind m (fun x => k))
  (at level 61, m at next level, right associativity) : m_scope.
Notation "m ;; k" := (bind m (fun _ => k))
  (at level 61, right associativity) : m_scope.
Open Scope m_scope.

Definition ask {A} (f : Env -> A) : M A := fun env s => (Ok (f env), s, []).
Definition gets {A} (f : Sys -> A) : M A := fun _ s => (Ok (f s), s, []).
Definition modify (f : Sys -> Sys) : M unit := fun _ s => (Ok tt, f s, []).

(** A one-way message: logged, never fails. *)
Definition emit (c : Call) : M unit := fun _ s => (Ok tt, s, [c]).

(** A fallible collaborator call: it throws what the oracle says, before
    it has had an effect, or performs its effect. *)
Definition call {A} (c : Call) (effect : Sys -> A * Sys) : M A :=
  fun env s =>
    match fault env c with
    | Some e => (Throw e, s, [c])
    | None => let (a, s') := effect s in (Ok a, s', [c])
    end.

Fixpoint forEach {A} (l : list A) (f : A -> M unit) : M unit :=
  match l with
  | [] => ret tt
  | a :: rest => f a ;; forEach rest f
  end.

(** Runs [m] and hands its outcome to the continuation: the interpreter's
    handling of an invoked promise, which settles one way or the other. *)
Definition attempt {A} (m : M A) : M (Outcome A) :=
  fun env s => match m env s with (r, s', t) => (Ok r, s', t) end.

(** ** Collaborators *)

Definition logger_info (msg : string) : M unit := emit (Logger "info" msg).
Definition logger_warn (msg : string) : M unit := emit (Logger "warn" msg).
Definition logger_error (msg : string) : M unit := emit (Logger "error" msg).

Definition send (ev : IPCEvent) : M unit := emit (SendIPCEvent ev).

Definition find_site (l : list Site.t) (id : string) : option Site.t :=
  find (fun s => Site.id s =? id) l.

(** Modelled from the spec: [getSiteDataFromDisk] of the utils module, which
    is not among the sources; the spec lists it as
    [readSiteFromDisk(id) -> descriptor] of the site registry.  Reading a
    site the registry does not hold throws. *)
Definition getSiteDataFromDisk (id : string) : M Site.t :=
  l <- gets sites ;;
  match find_site l id with
  | Some site => ret site
  | None => throw "Cannot read property of undefined"
  end.

Definition getBackupSite (repoID : option string) : M BackupSite.t :=
  hub <- ask hub_backup_site ;;
  call (GetBackupSite repoID) (fun s => (hub repoID, s)).

Definition dirSync : M DirResult :=
  n <- ask tmp_name ;;
  call TmpDirSync (fun s => ({| dir_name := n |}, set_disk (mkdir n (disk s)) s)).

(** restic writes the snapshot's tree below the restore directory. *)
Definition unpack (dir : Path) (files : Disk) (d : Disk) : Disk :=
  fold_right write d (map (fun e => (join dir (fst e), snd e)) files).

Definition restoreResticBackup (site : Site.t) (provider : Providers)
    (encryptionPassword : option string) (snapshotID : string) (restoreDir : Path)
    : M unit :=
  snap <- ask snapshot ;;
  call (RestoreResticBackup site provider encryptionPassword snapshotID restoreDir)
       (fun s => (tt, set_disk (unpack restoreDir (snap snapshotID) (disk s)) s)).

Definition fs_remove (p : Path) : M unit :=
  call (FsRemove p) (fun s => (tt, set_disk (remove p (disk s)) s)).

Definition fs_copySync (src dst : Path) : M unit :=
  call (FsCopySync src dst) (fun s => (tt, set_disk (copy src dst (disk s)) s)).

Definition fs_emptyDirSync (p : Path) : M unit :=
  emit (FsEmptyDirSync p) ;;
  modify (fun s => set_disk (emptyDir p (disk s)) s).

(** [tmpDirData.removeCallback()]: removes the directory, and throws when it
    is not empty. *)
Definition removeCallback (p : Path) : M unit :=
  emit (RemoveCallback p) ;;
  d <- gets disk ;;
  if has_children p d then throw "ENOTEMPTY: directory not empty"
  else modify (fun s => set_disk (remove p (disk s)) s).

Definition runSiteSQLCmd (site : Site.t) (q : Query) : M string :=
  call (RunSiteSQLCmd site q) (fun s =>
    match q with
    | SELECT_SQL_MODE => (sql_mode (mysql_of s (Site.id site)), s)
    | SET_GLOBAL_SQL_MODE mode => (EmptyString, update_mysql (Site.id site) (set_mode mode) s)
    | DROP_CREATE_DATABASE db =>
        (EmptyString, update_mysql (Site.id site) (set_database db EmptyString) s)
    end).

Definition importSQLFile (site : Site.t) (file : Path) : M unit :=
  call (ImportSQLFile site file) (fun s =>
    let data := match read_file (disk s) file with Some x => x | None => EmptyString end in
    (tt, update_mysql (Site.id site) (set_database (Site.mysql_database site) data) s)).

Definition siteData_addSite (id : string) (site : Site.t) : M unit :=
  emit (AddSite id site) ;;
  modify (fun s => set_sites (sites s ++ [site])%list s).

(** The host's provisioner, database waiter and domain changer are opaque:
    they can throw, and what they do to the host is outside [Sys]. *)
Definition siteProvisioner_provision (site : Site.t) : M unit :=
  call (Provision site) (fun s => (tt, s)).
Definition siteDatabase_waitForDB (site : Site.t) : M unit :=
  call (WaitForDB site) (fun s => (tt, s)).
Definition changeSiteDomain_changeSiteDomainToHost (site : Site.t) : M unit :=
  call (ChangeSiteDomainToHost site) (fun s => (tt, s)).
Definition siteProcessManager_restart (site : Site.t) : M unit :=
  call (RestartSite site) (fun s => (tt, s)).
(** [siteProcessManager.restart(site)] called without [await]: the call is
    made and the promise it returns is dropped. *)
Definition siteProcessManager_restart_detached (site : Site.t) : M unit :=
  emit (RestartSite site).
Definition siteProcessManager_getSiteStatus (site : Site.t) : M string :=
  emit (GetSiteStatus site) ;;
  ask (fun env => site_status env site).

(** Settling the promise an entry point returned.  A promise keeps the
    first value it is resolved with. *)
Definition resolve (v : JSVal) : M unit := emit (Resolve v).

Fixpoint settled (t : Trace) : option JSVal :=
  match t with
  | [] => None
  | Resolve v :: _ => Some v
  | _ :: rest => settled rest
  end.

Definition is_resolve (c : Call) : bool :=
  match c with Resolve _ => true | _ => false end.

(** ** The xstate interpreter, as far as the two machines use it *)

Inductive Status := NotStarted | Running | Stopped.

Section XState.
Variables St Ctx Data : Type.

(** The event a transition is taken on: [done.invoke] carries the value
    the invoked promise resolved with, [error.platform] the rejection. *)
Inductive Event :=
| done_invoke (data : Data)
| error_platform (data : Err).

Inductive Action :=
| assign (f : Ctx -> Event -> Ctx)
| effect (f : Ctx -> Event -> M unit).

(** An action is written in place or named and looked up in the machine
    options. *)
Inductive ActionRef :=
| inline (a : Action)
| named (n : string).

Record Transition := { target : St; actions : list ActionRef }.

Inductive StateNode :=
| invoke (src : Ctx -> M Data) (onDone onError : Transition)
| final (entry : list ActionRef).

Record MachineConfig := {
  machine_id : string;
  initial : St;
  states : St -> StateNode;
  options_actions : list (string * Action);
  state_name : St -> string;
  context_props : Ctx -> list (string * JSVal)
}.

(** The interpreter.  [visited] is a ghost field: the state values the
    service has been in, oldest first, as its transition listener saw
    them. *)
Record Service := {
  value : St;
  context : Ctx;
  status : Status;
  visited : list St
}.

Record Listeners := {
  onTransition : St -> M unit;
  onStop : Service -> M unit
}.

Variable cfg : MachineConfig.
Variable listeners : Listeners.

Definition lookup_action (r : ActionRef) : option Action :=
  match r with
  | inline a => Some a
  | named n =>
      match find (fun e => fst e =? n) (options_actions cfg) with
      | Some (_, a) => Some a
      | None => None
      end
  end.

(** [assign] actions update the context before the other actions run. *)
Definition apply_assigns (l : list ActionRef) (ev : Event) (ctx : Ctx) : Ctx :=
  fold_left (fun c r =>
    match lookup_action r with
    | Some (assign f) => f c ev
    | _ => c
    end) l ctx.

(** The interpreter calls an action and drops what it returns; the
    promise of an [async] action is not awaited, so a failure in it goes
    nowhere. *)
Definition run_effects (l : list ActionRef) (ev : Event) (ctx : Ctx) : M unit :=
  forEach l (fun r =>
    match lookup_action r with
    | Some (effect f) => _ <- attempt (f ctx ev) ;; ret tt
    | _ => ret tt
    end).

Definition is_final (s : St) : bool :=
  match states cfg s with
  | final _ => true
  | invoke _ _ _ => false
  end.

(** The [State] object behind [service._state].  Its own properties are
    [value], [context], [done] and further bookkeeping ([event],
    [history], [actions], ...); the machine's context, and with it
    [error], sits under [context]. *)
Definition _state (svc : Service) : JSVal :=
  JObject [ ("value", JString (state_name cfg (value svc)));
            ("context", JObject (context_props cfg (context svc)));
            ("done", JBool (is_final (value svc))) ].

(** Taking a transition: assigns, transition actions, entry actions of
    the target, then the transition listener; a final target makes the
    done listener stop the service, which runs the stop listener. *)
Definition take (svc : Service) (ev : Event) (tr : Transition) : M Service :=
  let ctx := apply_assigns (actions tr) ev (context svc) in
  run_effects (actions tr) ev ctx ;;
  match states cfg (target tr) with
  | final entry => run_effects entry ev ctx
  | invoke _ _ _ => ret tt
  end ;;
  let svc' := {| value := target tr; context := ctx; status := Running;
                 visited := (visited svc ++ [target tr])%list |} in
  onTransition listeners (target tr) ;;
  if is_final (target tr) then
    onStop listeners svc' ;;
    ret {| value := value svc'; context := context svc'; status := Stopped;
           visited := visited svc' |}
  else ret svc'.

Definition interpret (ctx : Ctx) : Service :=
  {| value := initial cfg; context := ctx; status := NotStarted; visited := [] |}.

Definition start (svc : Service) : M Service :=
  onTransition listeners (value svc) ;;
  ret {| value := value svc; context := context svc; status := Running;
         visited := [value svc] |}.

(** The promise invoked by the current state settles, and the service
    takes [onDone] or [onError]. *)
Definition advance (svc : Service) : M Service :=
  match status svc with
  | Running =>
      match states cfg (value svc) with
      | invoke src onDone onError =>
          r <- attempt (src (context svc)) ;;
          match r with
          | Ok d => take svc (done_invoke d) onDone
          | Throw e => take svc (error_platform e) onError
          end
      | final _ => ret svc
      end
  | _ => ret svc
  end.

Fixpoint advance_n (n : nat) (svc : Service) : M Service :=
  match n with
  | O => ret svc
  | S k => svc' <- advance svc ;; advance_n k svc'
  end.
End XState.

Arguments done_invoke {Data} data.
Arguments error_platform {Data} data.
Arguments assign {Ctx Data} f.
Arguments effect {Ctx Data} f.
Arguments inline {Ctx Data} a.
Arguments named {Ctx Data} n.
Arguments Build_Transition {St Ctx Data}.
Arguments target {St Ctx Data}.
Arguments actions {St Ctx Data}.
Arguments invoke {St Ctx Data}.
Arguments final {St Ctx Data}.
Arguments Build_MachineConfig {St Ctx Data}.
Arguments machine_id {St Ctx Data}.
Arguments initial {St Ctx Data}.
Arguments states {St Ctx Data}.
Arguments options_actions {St Ctx Data}.
Arguments state_name {St Ctx Data}.
Arguments context_props {St Ctx Data}.
Arguments Build_Service {St Ctx}.
Arguments value {St Ctx}.
Arguments context {St Ctx}.
Arguments status {St Ctx}.
Arguments visited {St Ctx}.
Arguments Build_Listeners {St Ctx}.
Arguments onTransition {St Ctx}.
Arguments onStop {St Ctx}.
Arguments _state {St Ctx Data}.
Arguments is_final {St Ctx Data}.
Arguments take {St Ctx Data}.
Arguments interpret {St Ctx Data}.
Arguments start {St Ctx}.
Arguments advance {St Ctx Data}.
Arguments advance_n {St Ctx Data}.
Arguments lookup_action {St Ctx Data}.
Arguments apply_assigns {St Ctx Data}.
Arguments run_effects {St Ctx Data}.

(** ** Helpers: the ignore-files module *)

Definition excludePatterns : list string := ["conf"].

(** The last segment of the patterns handed to [glob.sync]: the negated
    alternative [!(a|b)] and the dot pattern [.*]. *)
Inductive SegmentPattern :=
| ext_not (alts : list string)
| dot_star.

Definition is_dotfile (n : string) : bool :=
  match n with
  | String "."%char _ => true
  | _ => false
  end.

(** glob without the [dot] option: a pattern that does not itself start
    with a dot never matches a name that does. *)
Definition segment_matches (pat : SegmentPattern) (n : string) : bool :=
  match pat with
  | ext_not alts => negb (is_dotfile n) && negb (existsb (String.eqb n) alts)
  | dot_star => is_dotfile n
  end.

(** [glob.sync(`${dir}/<pat>`)]: the direct children of [dir] whose name
    matches. *)
Definition glob_sync (d : Disk) (dir : Path) (pat : SegmentPattern) : list Path :=
  map fst (filter (fun e =>
    match child_name dir (fst e) with
    | Some n => segment_matches pat n
    | None => false
    end) d).

Definition filteredSiteFiles (d : Disk) (sitePath : Path) : list Path :=
  (glob_sync d sitePath (ext_not excludePatterns)
     ++ glob_sync d sitePath dot_star)%list.

Definition getFilteredSiteFiles (site : Site.t) : M (list Path) :=
  fmt <- ask formatHomePath ;;
  let sitePath := fmt (Site.path site) in
  d <- gets disk ;;
  ret (filteredSiteFiles d sitePath).

(** [await Promise.all(l)]: every operation of [l] has been started and
    runs to its end; the await throws the first rejection. *)
Fixpoint Promise_all (l : list (M unit)) : M unit :=
  match l with
  | [] => ret tt
  | m :: rest =>
      r <- attempt m ;;
      r' <- attempt (Promise_all rest) ;;
      match r, r' with
      | Throw e, _ => throw e
      | Ok _, Throw e => throw e
      | Ok _, Ok _ => ret tt
      end
  end.

Definition dquote : string := String (ascii_of_nat 34) EmptyString.

Definition path_text (p : Path) : string := "/" ++ String.concat "/" p.

Definition TypeError : Err := "TypeError: Cannot read property 'name' of undefined".

Definition js_of_site (s : Site.t) : JSVal :=
  JObject [ ("id", JString (Site.id s)); ("name", JString (Site.name s));
            ("path", JString (path_text (Site.path s)));
            ("domain", JString (Site.domain s)) ].

Definition js_of_option_string (o : option string) : JSVal :=
  match o with
  | Some x => JString x
  | None => JUndefined
  end.

Definition js_of_provider (p : Providers) : JSVal :=
  match p with
  | Drive => JString "drive"
  | Dropbox => JString "dropbox"
  end.

(** ** The restore service *)

Module Restore.

Inductive State :=
| gettingBackupCredentials
| creatingTmpDir
| restoringBackup
| movingSiteFromTmpDir
| restoringDatabase
| finished
| failed.

Definition name_of (s : State) : string :=
  match s with
  | gettingBackupCredentials => "gettingBackupCredentials"
  | creatingTmpDir => "creatingTmpDir"
  | restoringBackup => "restoringBackup"
  | movingSiteFromTmpDir => "movingSiteFromTmpDir"
  | restoringDatabase => "restoringDatabase"
  | finished => "finished"
  | failed => "failed"
  end.

Record BackupMachineContext := {
  site : Site.t;
  initialSiteStatus : string;
  provider : Providers;
  snapshotID : string;
  encryptionPassword : option string;
  backupSiteID : option nat;
  localBackupRepoID : option string;
  tmpDirData : option DirResult;
  error : option Err
}.

(** What an invoked function resolves with. *)
Inductive Data :=
| credentials (encryptionPassword localBackupRepoID : string) (backupSiteID : nat)
| tmpDir (tmpDirData : DirResult)
| undefined.

Definition props_of (c : BackupMachineContext) : list (string * JSVal) :=
  [ ("site", js_of_site (site c));
    ("provider", js_of_provider (provider c));
    ("snapshotID", JString (snapshotID c));
    ("initialSiteStatus", JString (initialSiteStatus c));
    ("encryptionPassword", js_of_option_string (encryptionPassword c));
    ("localBackupRepoID", js_of_option_string (localBackupRepoID c));
    ("tmpDirData",
      match tmpDirData c with
      | Some t => JObject [("name", JString (path_text (dir_name t)))]
      | None => JUndefined
      end);
    ("error", js_of_option_string (error c)) ].

Definition getCredentials (context : BackupMachineContext) : M Data :=
  onDisk <- getSiteDataFromDisk (Site.id (site context)) ;;
  b <- getBackupSite (Site.localBackupRepoID onDisk) ;;
  ret (credentials (BackupSite.password b) (BackupSite.uuid b) (BackupSite.id b)).

Definition createTmpDir : M Data :=
  t <- dirSync ;;
  ret (tmpDir t).

Definition importDatabase (context : BackupMachineContext) : M Data :=
  match tmpDirData context with
  | None => throw TypeError
  | Some tmp =>
      let site := site context in
      dump <- ask backupSQLDumpFile ;;
      let sqlFile := join (dir_name tmp) ["app"; "sql"; dump] in
      d <- gets disk ;;
      if negb (existsSync d sqlFile) then
        logger_warn "No SQL file found in this backup: continuing without database restore" ;;
        ret undefined
      else
        existingSqlMode <- runSiteSQLCmd site SELECT_SQL_MODE ;;
        runSiteSQLCmd site (SET_GLOBAL_SQL_MODE "NO_AUTO_VALUE_ON_ZERO") ;;
        runSiteSQLCmd site (DROP_CREATE_DATABASE (Site.mysql_database site)) ;;
        importSQLFile site sqlFile ;;
        runSiteSQLCmd site (SET_GLOBAL_SQL_MODE existingSqlMode) ;;
        ret undefined
  end.

Definition moveSiteFromTmpDir (context : BackupMachineContext) : M Data :=
  fmt <- ask formatHomePath ;;
  let sitePath := fmt (Site.path (site context)) in
  itemsToDelete <- getFilteredSiteFiles (site context) ;;
  logger_info
    ("removing the following directories/files to prepare for the site backup: "
       ++ String.concat ", "
            (map (fun file => dquote ++ path_text file ++ dquote) itemsToDelete)) ;;
  Promise_all (map fs_remove itemsToDelete) ;;
  match tmpDirData context with
  | None => throw TypeError
  | Some tmp =>
      fs_copySync (dir_name tmp) sitePath ;;
      logger_info ("Site contents moved from '" ++ path_text (dir_name tmp)
                     ++ "' to '" ++ path_text sitePath ++ "'") ;;
      ret undefined
  end.

Definition restoreBackup (context : BackupMachineContext) : M Data :=
  match tmpDirData context with
  | None => throw TypeError
  | Some tmp =>
      restoreResticBackup (site context) (provider context)
        (encryptionPassword context) (snapshotID context) (dir_name tmp) ;;
      ret undefined
  end.

Definition removeTmpDir (context : BackupMachineContext) : M unit :=
  match tmpDirData context with
  | None => throw TypeError
  | Some tmp =>
      (* removeCallback will error if the tmp directory is not empty *)
      fs_emptyDirSync (dir_name tmp) ;;
      removeCallback (dir_name tmp)
  end.

Definition Transition := Transition State BackupMachineContext Data.

Definition onErrorFactory (_ : unit) : Transition :=
  {| target := failed;
     actions := [named "setErrorOnContext"; named "logError"; named "setErroredStatus"] |}.

Definition setErroredStatus (context : BackupMachineContext) : M unit :=
  let site := site context in
  send (updateSiteStatus (Site.id site) (initialSiteStatus context)) ;;
  send (showSiteBanner
          {| siteID := Site.id site;
             banner_id := "site-errored-backup";
             variant := "error";
             icon := "warning";
             title := "Backup errored!";
             message := "There was an error while restoring your backup." |}) ;;
  siteProcessManager_restart_detached site.

Definition with_credentials (c : BackupMachineContext)
    (password repo : option string) (bsid : option nat) : BackupMachineContext :=
  {| site := site c; initialSiteStatus := initialSiteStatus c; provider := provider c;
     snapshotID := snapshotID c; encryptionPassword := password; backupSiteID := bsid;
     localBackupRepoID := repo; tmpDirData := tmpDirData c; error := error c |}.

Definition with_tmpDirData (c : BackupMachineContext) (t : option DirResult)
    : BackupMachineContext :=
  {| site := site c; initialSiteStatus := initialSiteStatus c; provider := provider c;
     snapshotID := snapshotID c; encryptionPassword := encryptionPassword c;
     backupSiteID := backupSiteID c; localBackupRepoID := localBackupRepoID c;
     tmpDirData := t; error := error c |}.

Definition with_error (c : BackupMachineContext) (e : option Err) : BackupMachineContext :=
  {| site := site c; initialSiteStatus := initialSiteStatus c; provider := provider c;
     snapshotID := snapshotID c; encryptionPassword := encryptionPassword c;
     backupSiteID := backupSiteID c; localBackupRepoID := localBackupRepoID c;
     tmpDirData := tmpDirData c; error := e |}.

Definition restoreMachine : MachineConfig State BackupMachineContext Data :=
  {| machine_id := "restoreBackup";
     initial := gettingBackupCredentials;
     states := fun s =>
       match s with
       | gettingBackupCredentials =>
           invoke (fun context => getCredentials context)
             {| target := creatingTmpDir;
                actions := [inline (assign (fun context ev =>
                  match ev with
                  | done_invoke (credentials p r i) =>
                      with_credentials context (Some p) (Some r) (Some i)
                  | _ => with_credentials context None None None
                  end))] |}
             (onErrorFactory tt)
       | creatingTmpDir =>
           invoke (fun _ => createTmpDir)
             {| target := restoringBackup;
                actions := [inline (assign (fun context ev =>
                  match ev with
                  | done_invoke (tmpDir t) => with_tmpDirData context (Some t)
                  | _ => with_tmpDirData context None
                  end))] |}
             (onErrorFactory tt)
       | restoringBackup =>
           invoke (fun context => restoreBackup context)
             {| target := movingSiteFromTmpDir; actions := [] |}
             (onErrorFactory tt)
       | movingSiteFromTmpDir =>
           invoke (fun context => moveSiteFromTmpDir context)
             {| target := restoringDatabase; actions := [] |}
             (onErrorFactory tt)
       | restoringDatabase =>
           invoke (fun context => importDatabase context)
             {| target := finished; actions := [] |}
             (onErrorFactory tt)
       | finished => final [named "removeTmpDir"]
       | failed => final []
       end;
     options_actions :=
       [ ("removeTmpDir", effect (fun context _ => removeTmpDir context));
         ("setErrorOnContext", assign (fun context ev =>
            match ev with
            | error_platform data => with_error context (Some data)
            | done_invoke _ => with_error context None
            end));
         ("logError", effect (fun _ ev =>
            match ev with
            | error_platform data => logger_error data
            | done_invoke _ => logger_error EmptyString
            end));
         ("setErroredStatus", effect (fun context _ => setErroredStatus context)) ];
     state_name := name_of;
     context_props := props_of |}.

Definition Service := Service State BackupMachineContext.

Record Opts := { opts_site : Site.t; opts_provider : Providers; opts_snapshotID : string }.

Definition busy_warning : string :=
  "Restore process aborted: only one backup or restore process is allowed at one time and a backup or restore is already in progress.".

(** The listeners [restoreFromBackup] registers on the interpreter. *)
Definition listeners : Listeners State BackupMachineContext :=
  {| onTransition := fun state =>
       send BACKUP_STARTED ;;
       sentence <- ask (fun env => camelCaseToSentence env (name_of state)) ;;
       logger_info sentence;
     onStop := fun restoreService =>
       modify (set_slot None) ;;
       let error := prop (_state restoreMachine restoreService) "error" in
       send BACKUP_COMPLETED ;;
       (if truthy error then resolve (JObject [("error", error)]) else ret tt) ;;
       resolve JNull |}.

(** [restoreFromBackup]: [None] when the function returned at the guard
    (its caller gets [undefined]), otherwise the started interpreter, whose
    promise is settled by a [Resolve] in the trace. *)
Definition restoreFromBackup (opts : Opts) : M (option Service) :=
  slot <- gets inProgressStateMachine ;;
  match slot with
  | Some _ =>
      logger_warn busy_warning ;;
      ret None
  | None =>
      let site := opts_site opts in
      initialSiteStatus <- siteProcessManager_getSiteStatus site ;;
      let restoreService :=
        interpret restoreMachine
          {| site := site; initialSiteStatus := initialSiteStatus;
             provider := opts_provider opts; snapshotID := opts_snapshotID opts;
             encryptionPassword := None; backupSiteID := None;
             localBackupRepoID := None; tmpDirData := None; error := None |} in
      modify (set_slot (Some (machine_id restoreMachine))) ;;
      started <- start listeners restoreService ;;
      ret (Some started)
  end.

(** One settled invocation, and a whole run: five invoking states. *)
Definition step (svc : Service) : M Service := advance restoreMachine listeners svc.

Definition run (svc : Service) : M Service := advance_n restoreMachine listeners 5 svc.

(** The entry point followed to the end of the workflow it starts. *)
Definition restore (opts : Opts) : M (option Service) :=
  r <- restoreFromBackup opts ;;
  match r with
  | Some svc => svc' <- run svc ;; ret (Some svc')
  | None => ret None
  end.

End Restore.

(** ** The clone service *)

Module Clone.

Inductive State :=
| gettingBackupCredentials
| setupDestinationSite_
| creatingTmpDir
| cloningBackup
| movingSiteFromTmpDir
| provisioningSite
| restoringDatabase
| searchReplaceDomain
| finished
| failed.

(** The state [setupDestinationSite] is written [setupDestinationSite_]:
    the function it invokes has the same name. *)
Definition name_of (s : State) : string :=
  match s with
  | gettingBackupCredentials => "gettingBackupCredentials"
  | setupDestinationSite_ => "setupDestinationSite"
  | creatingTmpDir => "creatingTmpDir"
  | cloningBackup => "cloningBackup"
  | movingSiteFromTmpDir => "movingSiteFromTmpDir"
  | provisioningSite => "provisioningSite"
  | restoringDatabase => "restoringDatabase"
  | searchReplaceDomain => "searchReplaceDomain"
  | finished => "finished"
  | failed => "failed"
  end.

Record BackupMachineContext := {
  baseSite : Site.t;
  destinationSite : option Site.t;
  provider : Providers;
  snapshotHash : string;
  encryptionPassword : option string;
  backupSiteID : option nat;
  localBackupRepoID : option string;
  tmpDirData : option DirResult;
  error : option Err;
  newSiteName : string
}.

Inductive Data :=
| credentials (encryptionPassword localBackupRepoID : string) (backupSiteID : nat)
| destination (destinationSite : Site.t)
| tmpDir (tmpDirData : DirResult)
| undefined.

Definition props_of (c : BackupMachineContext) : list (string * JSVal) :=
  [ ("baseSite", js_of_site (baseSite c));
    ("provider", js_of_provider (provider c));
    ("snapshotHash", JString (snapshotHash c));
    ("newSiteName", JString (newSiteName c));
    ("encryptionPassword", js_of_option_string (encryptionPassword c));
    ("localBackupRepoID", js_of_option_string (localBackupRepoID c));
    ("destinationSite",
      match destinationSite c with
      | Some s => js_of_site s
      | None => JUndefined
      end);
    ("tmpDirData",
      match tmpDirData c with
      | Some t => JObject [("name", JString (path_text (dir_name t)))]
      | None => JUndefined
      end);
    ("error", js_of_option_string (error c)) ].

Definition siteDomainTakenError : Err := "Site name is already taken by another site!".

Definition getCredentials (context : BackupMachineContext) : M Data :=
  onDisk <- getSiteDataFromDisk (Site.id (baseSite context)) ;;
  b <- getBackupSite (Site.localBackupRepoID onDisk) ;;
  ret (credentials (BackupSite.password b) (BackupSite.uuid b) (BackupSite.id b)).

Definition setupDestinationSite (context : BackupMachineContext) : M Data :=
  let baseSite := baseSite context in
  let newSiteName := newSiteName context in
  (* make sure we can safely use the name in site path and domain *)
  nicename <- ask formatSiteNicename ;;
  let formattedSiteName := nicename newSiteName in
  check <- ask checkForDuplicateSiteName ;;
  registered <- gets sites ;;
  let duplicateSiteName := check registered newSiteName formattedSiteName in
  if duplicateSiteName then
    emit (ShowErrorBox "Invalid Site Name"
            (newSiteName ++ " is already taken by another site. Please choose a different name.")) ;;
    throw siteDomainTakenError
  else
    dupID <- ask shortid_generate ;;
    let localSitesDir := dirname (Site.path baseSite) in
    let dupSite :=
      {| Site.id := dupID;
         Site.name := newSiteName;
         Site.path := join localSitesDir [formattedSiteName];
         Site.domain := formattedSiteName ++ ".local";
         Site.mysql_database := Site.mysql_database baseSite;
         Site.localBackupRepoID := Site.localBackupRepoID baseSite |} in
    siteData_addSite (Site.id dupSite) dupSite ;;
    destinationSite <- getSiteDataFromDisk (Site.id dupSite) ;;
    send (selectSite (Site.id dupSite) true true) ;;
    send (updateSiteStatus (Site.id destinationSite) "provisioning") ;;
    send (updateSiteMessage (Site.id destinationSite) "Restoring your site backup") ;;
    ret (destination destinationSite).

Definition createTmpDir : M Data :=
  t <- dirSync ;;
  ret (tmpDir t).

Definition provisionSite (context : BackupMachineContext) : M Data :=
  match destinationSite context with
  | None => throw TypeError
  | Some siteToProvision =>
      siteProvisioner_provision siteToProvision ;;
      ret undefined
  end.

Definition importDatabase (context : BackupMachineContext) : M Data :=
  match tmpDirData context, destinationSite context with
  | Some tmp, Some site =>
      dump <- ask backupSQLDumpFile ;;
      let sqlFile := join (dir_name tmp) ["app"; "sql"; dump] in
      d <- gets disk ;;
      if negb (existsSync d sqlFile) then
        logger_warn "No SQL file found in this backup: continuing without database restore" ;;
        ret undefined
      else
        existingSqlMode <- runSiteSQLCmd site SELECT_SQL_MODE ;;
        runSiteSQLCmd site (SET_GLOBAL_SQL_MODE "NO_AUTO_VALUE_ON_ZERO") ;;
        runSiteSQLCmd site (DROP_CREATE_DATABASE (Site.mysql_database site)) ;;
        importSQLFile site sqlFile ;;
        runSiteSQLCmd site (SET_GLOBAL_SQL_MODE existingSqlMode) ;;
        ret undefined
  | _, _ => throw TypeError
  end.

Definition searchReplace (context : BackupMachineContext) : M Data :=
  match destinationSite context with
  | None => throw TypeError
  | Some destinationSite =>
      let siteToSearchReplace := destinationSite in
      send (updateSiteStatus (Site.id destinationSite) "provisioning") ;;
      send (updateSiteMessage (Site.id destinationSite) "Changing site domain") ;;
      siteDatabase_waitForDB siteToSearchReplace ;;
      changeSiteDomain_changeSiteDomainToHost siteToSearchReplace ;;
      siteProcessManager_restart siteToSearchReplace ;;
      ret undefined
  end.

Definition moveSiteFromTmpDir (context : BackupMachineContext) : M Data :=
  match destinationSite context, tmpDirData context with
  | Some destinationSite, Some tmp =>
      fmt <- ask formatHomePath ;;
      let sitePath := fmt (Site.path destinationSite) in
      fs_copySync (dir_name tmp) sitePath ;;
      logger_info ("Site contents moved from '" ++ path_text (dir_name tmp)
                     ++ "' to '" ++ path_text sitePath ++ "'") ;;
      ret undefined
  | _, _ => throw TypeError
  end.

Definition cloneBackup (context : BackupMachineContext) : M Data :=
  match tmpDirData context with
  | None => throw TypeError
  | Some tmp =>
      restoreResticBackup (baseSite context) (provider context)
        (encryptionPassword context) (snapshotHash context) (dir_name tmp) ;;
      ret undefined
  end.

Definition removeTmpDir (context : BackupMachineContext) : M unit :=
  match tmpDirData context with
  | None => throw TypeError
  | Some tmp =>
      (* removeCallback will error if the tmp directory is not empty *)
      fs_emptyDirSync (dir_name tmp) ;;
      removeCallback (dir_name tmp)
  end.

Definition Transition := Transition State BackupMachineContext Data.

Definition onBaseSiteErrorFactory (_ : unit) : Transition :=
  {| target := failed;
     actions := [named "setErrorOnContext"; named "logError"; named "setErroredBaseSite"] |}.

Definition onErrorFactory (_ : unit) : Transition :=
  {| target := failed;
     actions := [named "setErrorOnContext"; named "logError"; named "setErroredStatus"] |}.

Definition setErroredBaseSite (context : BackupMachineContext) : M unit :=
  let baseSite := baseSite context in
  send (goToRoute ("/main/site-info/" ++ Site.id baseSite)) ;;
  send (showSiteBanner
          {| siteID := Site.id baseSite;
             banner_id := "site-errored-backup-cloning";
             variant := "error";
             icon := "warning";
             title := "Cloning errored!";
             message := "There was an error while cloning your backup!" |}).

Definition setErroredStatus (context : BackupMachineContext) : M unit :=
  let baseSite := baseSite context in
  send (deleteSite (destinationSite context) true) ;;
  send (goToRoute ("/main/site-info/" ++ Site.id baseSite)) ;;
  send (showSiteBanner
          {| siteID := Site.id baseSite;
             banner_id := "site-errored-backup-cloning";
             variant := "error";
             icon := "warning";
             title := "Cloning from backup errored!";
             message := "There was an error while restoring your backup. Check your Local log for more details." |}).

Definition with_credentials (c : BackupMachineContext)
    (password repo : option string) (bsid : option nat) : BackupMachineContext :=
  {| baseSite := baseSite c; destinationSite := destinationSite c; provider := provider c;
     snapshotHash := snapshotHash c; encryptionPassword := password; backupSiteID := bsid;
     localBackupRepoID := repo; tmpDirData := tmpDirData c; error := error c;
     newSiteName := newSiteName c |}.

Definition with_destinationSite (c : BackupMachineContext) (d : option Site.t)
    : BackupMachineContext :=
  {| baseSite := baseSite c; destinationSite := d; provider := provider c;
     snapshotHash := snapshotHash c; encryptionPassword := encryptionPassword c;
     backupSiteID := backupSiteID c; localBackupRepoID := localBackupRepoID c;
     tmpDirData := tmpDirData c; error := error c; newSiteName := newSiteName c |}.

Definition with_tmpDirData (c : BackupMachineContext) (t : option DirResult)
    : BackupMachineContext :=
  {| baseSite := baseSite c; destinationSite := destinationSite c; provider := provider c;
     snapshotHash := snapshotHash c; encryptionPassword := encryptionPassword c;
     backupSiteID := backupSiteID c; localBackupRepoID := localBackupRepoID c;
     tmpDirData := t; error := error c; newSiteName := newSiteName c |}.

Definition with_error (c : BackupMachineContext) (e : option Err) : BackupMachineContext :=
  {| baseSite := baseSite c; destinationSite := destinationSite c; provider := provider c;
     snapshotHash := snapshotHash c; encryptionPassword := encryptionPassword c;
     backupSiteID := backupSiteID c; localBackupRepoID := localBackupRepoID c;
     tmpDirData := tmpDirData c; error := e; newSiteName := newSiteName c |}.

Definition cloneMachine : MachineConfig State BackupMachineContext Data :=
  {| machine_id := "cloneFromBackup";
     initial := gettingBackupCredentials;
     states := fun s =>
       match s with
       | gettingBackupCredentials =>
           invoke (fun context => getCredentials context)
             {| target := setupDestinationSite_;
                actions := [inline (assign (fun context ev =>
                  match ev with
                  | done_invoke (credentials p r i) =>
                      with_credentials context (Some p) (Some r) (Some i)
                  | _ => with_credentials context None None None
                  end))] |}
             (onBaseSiteErrorFactory tt)
       | setupDestinationSite_ =>
           invoke (fun context => setupDestinationSite context)
             {| target := creatingTmpDir;
                actions := [inline (assign (fun context ev =>
                  match ev with
                  | done_invoke (destination d) => with_destinationSite context (Some d)
                  | _ => with_destinationSite context None
                  end))] |}
             (onBaseSiteErrorFactory tt)
       | creatingTmpDir =>
           invoke (fun _ => createTmpDir)
             {| target := cloningBackup;
                actions := [inline (assign (fun context ev =>
                  match ev with
                  | done_invoke (tmpDir t) => with_tmpDirData context (Some t)
                  | _ => with_tmpDirData context None
                  end))] |}
             (onErrorFactory tt)
       | cloningBackup =>
           invoke (fun context => cloneBackup context)
             {| target := movingSiteFromTmpDir; actions := [] |}
             (onErrorFactory tt)
       | movingSiteFromTmpDir =>
           invoke (fun context => moveSiteFromTmpDir context)
             {| target := provisioningSite; actions := [] |}
             (onErrorFactory tt)
       | provisioningSite =>
           invoke (fun context => provisionSite context)
             {| target := restoringDatabase; actions := [] |}
             (onErrorFactory tt)
       | restoringDatabase =>
           invoke (fun context => importDatabase context)
             {| target := searchReplaceDomain; actions := [] |}
             (onErrorFactory tt)
       | searchReplaceDomain =>
           invoke (fun context => searchReplace context)
             {| target := finished; actions := [] |}
             (onErrorFactory tt)
       | finished => final [named "removeTmpDir"]
       | failed => final []
       end;
     options_actions :=
       [ ("removeTmpDir", effect (fun context _ => removeTmpDir context));
         ("setErrorOnContext", assign (fun context ev =>
            match ev with
            | error_platform data => with_error context (Some data)
            | done_invoke _ => with_error context None
            end));
         ("logError", effect (fun _ ev =>
            match ev with
            | error_platform data => logger_error data
            | done_invoke _ => logger_error EmptyString
            end));
         ("setErroredStatus", effect (fun context _ => setErroredStatus context));
         ("setErroredBaseSite", effect (fun context _ => setErroredBaseSite context)) ];
     state_name := name_of;
     context_props := props_of |}.

Definition Service := Service State BackupMachineContext.

Record Opts := {
  opts_baseSite : Site.t;
  opts_provider : Providers;
  opts_snapshotHash : string;
  opts_newSiteName : string
}.

Definition busy_warning : string :=
  "Restore process aborted: only one backup or restore process is allowed at one time and a backup or restore is already in progress.".

(** The listeners [cloneFromBackup] registers on the interpreter. *)
Definition listeners : Listeners State BackupMachineContext :=
  {| onTransition := fun state =>
       send BACKUP_STARTED ;;
       sentence <- ask (fun env => camelCaseToSentence env (name_of state)) ;;
       logger_info sentence;
     onStop := fun cloneFromBackupService =>
       modify (set_slot None) ;;
       let error := prop (_state cloneMachine cloneFromBackupService) "error" in
       send BACKUP_COMPLETED ;;
       (if truthy error then resolve (JObject [("error", error)]) else ret tt) ;;
       resolve JNull |}.

(** [cloneFromBackup]: [None] when the function returned at the guard,
    otherwise the started interpreter. *)
Definition cloneFromBackup (opts : Opts) : M (option Service) :=
  slot <- gets inProgressStateMachine ;;
  match slot with
  | Some _ =>
      logger_warn busy_warning ;;
      ret None
  | None =>
      let cloneFromBackupService :=
        interpret cloneMachine
          {| baseSite := opts_baseSite opts; destinationSite := None;
             provider := opts_provider opts; snapshotHash := opts_snapshotHash opts;
             encryptionPassword := None; backupSiteID := None;
             localBackupRepoID := None; tmpDirData := None; error := None;
             newSiteName := opts_newSiteName opts |} in
      modify (set_slot (Some (machine_id cloneMachine))) ;;
      started <- start listeners cloneFromBackupService ;;
      ret (Some started)
  end.

(** One settled invocation, and a whole run: eight invoking states. *)
Definition step (svc : Service) : M Service := advance cloneMachine listeners svc.

Definition run (svc : Service) : M Service := advance_n cloneMachine listeners 8 svc.

Definition clone (opts : Opts) : M (option Service) :=
  r <- cloneFromBackup opts ;;
  match r with
  | Some svc => svc' <- run svc ;; ret (Some svc')
  | None => ret None
  end.

End Clone.

(** * Notions used in the statements *)

Local Open Scope list_scope.

Definition sys_of {A} (x : Outcome A * Sys * Trace) : Sys := snd (fst x).
Definition trace_of {A} (x : Outcome A * Sys * Trace) : Trace := snd x.

(** [sat env P Q m]: in the environment [env], [m] takes a state to one
    related by [P] and makes only calls that satisfy [Q]. *)
Definition sat {A} (env : Env) (P : Sys -> Sys -> Prop) (Q : Call -> Prop) (m : M A)
    : Prop :=
  forall s, P s (sys_of (m env s)) /\ Forall Q (trace_of (m env s)).

Definition same_slot (s s' : Sys) : Prop :=
  inProgressStateMachine s' = inProgressStateMachine s.

Definition same_sites (s s' : Sys) : Prop := sites s' = sites s.

(** Nothing a destination is made of appears: no site record, no file. *)
Definition no_footprint (s s' : Sys) : Prop :=
  sites s' = sites s /\ disk s' = disk s.

(** A path that exists keeps existing. *)
Definition keeps (p : Path) (s s' : Sys) : Prop :=
  existsSync (disk s) p = true -> existsSync (disk s') p = true.

Definition any_call (c : Call) : Prop := True.

Definition not_resolve (c : Call) : Prop := is_resolve c = false.

(** Calls that make or unmake something of a destination: registering a
    site, creating or filling the staging directory, copying onto the site
    path, asking the host to delete a site. *)
Definition touches_destination (c : Call) : bool :=
  match c with
  | AddSite _ _ | TmpDirSync | RestoreResticBackup _ _ _ _ _ | FsCopySync _ _ => true
  | SendIPCEvent (deleteSite _ _) => true
  | _ => false
  end.

Definition no_destination_call (c : Call) : Prop := touches_destination c = false.

(** What the transition listener and the stop listener of both services
    send. *)
Definition transition_trace (env : Env) (name : string) : Trace :=
  [SendIPCEvent BACKUP_STARTED; Logger "info" (camelCaseToSentence env name)].

Definition stop_trace : Trace := [SendIPCEvent BACKUP_COMPLETED; Resolve JNull].

(** ** The restore machine, state by state *)

Definition restore_src (X : Restore.State) (ctx : Restore.BackupMachineContext)
    : M Restore.Data :=
  match states Restore.restoreMachine X with
  | invoke src _ _ => src ctx
  | final _ => ret Restore.undefined
  end.

Definition restore_next (X : Restore.State) : Restore.State :=
  match states Restore.restoreMachine X with
  | invoke _ onDone _ => target onDone
  | final _ => X
  end.

Definition restore_on_error (X : Restore.State) : Restore.State :=
  match states Restore.restoreMachine X with
  | invoke _ _ onError => target onError
  | final _ => X
  end.

Definition restore_assign (X : Restore.State) (d : Restore.Data)
    (ctx : Restore.BackupMachineContext) : Restore.BackupMachineContext :=
  match states Restore.restoreMachine X with
  | invoke _ onDone _ =>
      apply_assigns Restore.restoreMachine (actions onDone) (done_invoke d) ctx
  | final _ => ctx
  end.

(** The documented order of the restore workflow, in the names of the
    code: gettingCredentials, creatingStagingDir, transferringSnapshot,
    applyingFilesystem, applyingDatabase, finished. *)
Definition restore_order : list Restore.State :=
  [ Restore.gettingBackupCredentials; Restore.creatingTmpDir; Restore.restoringBackup;
    Restore.movingSiteFromTmpDir; Restore.restoringDatabase; Restore.finished ].

(** The position of a state in [restore_order]. *)
Definition restore_index (X : Restore.State) : nat :=
  match X with
  | Restore.gettingBackupCredentials => 0
  | Restore.creatingTmpDir => 1
  | Restore.restoringBackup => 2
  | Restore.movingSiteFromTmpDir => 3
  | Restore.restoringDatabase => 4
  | Restore.finished => 5
  | Restore.failed => 5
  end.

Definition restore_recovery (ctx : Restore.BackupMachineContext) : Trace :=
  [ SendIPCEvent (updateSiteStatus (Site.id (Restore.site ctx))
                    (Restore.initialSiteStatus ctx));
    SendIPCEvent (showSiteBanner
      {| siteID := Site.id (Restore.site ctx);
         banner_id := "site-errored-backup";
         variant := "error";
         icon := "warning";
         title := "Backup errored!";
         message := "There was an error while restoring your backup." |});
    RestartSite (Restore.site ctx) ].

Definition restore_failure_trace (env : Env) (ctx : Restore.BackupMachineContext)
    (e : Err) : Trace :=
  Logger "error" e :: restore_recovery ctx
    ++ transition_trace env "failed" ++ stop_trace.

Definition restore_moved (svc : Restore.Service) (d : Restore.Data) (st : Status)
    : Restore.Service :=
  {| value := restore_next (value svc);
     context := restore_assign (value svc) d (context svc);
     status := st;
     visited := visited svc ++ [restore_next (value svc)] |}.

Definition restore_failed (svc : Restore.Service) (e : Err) : Restore.Service :=
  {| value := Restore.failed;
     context := Restore.with_error (context svc) (Some e);
     status := Stopped;
     visited := visited svc ++ [Restore.failed] |}.

(** One settled invocation of the restore service, as a relation. *)
Inductive restore_step (env : Env) (svc : Restore.Service) (s : Sys)
    : Restore.Service -> Sys -> Trace -> Prop :=
| restore_idle :
    status svc <> Running \/ is_final Restore.restoreMachine (value svc) = true ->
    restore_step env svc s svc s []
| restore_throws e s1 t1 :
    status svc = Running ->
    is_final Restore.restoreMachine (value svc) = false ->
    restore_src (value svc) (context svc) env s = (Throw e, s1, t1) ->
    restore_step env svc s (restore_failed svc e) (set_slot None s1)
      (t1 ++ restore_failure_trace env (context svc) e)
| restore_moves d s1 t1 :
    status svc = Running ->
    is_final Restore.restoreMachine (value svc) = false ->
    is_final Restore.restoreMachine (restore_next (value svc)) = false ->
    restore_src (value svc) (context svc) env s = (Ok d, s1, t1) ->
    restore_step env svc s (restore_moved svc d Running) s1
      (t1 ++ transition_trace env (Restore.name_of (restore_next (value svc))))
| restore_finishes d s1 t1 r s2 t2 :
    status svc = Running ->
    is_final Restore.restoreMachine (value svc) = false ->
    restore_next (value svc) = Restore.finished ->
    restore_src (value svc) (context svc) env s = (Ok d, s1, t1) ->
    Restore.removeTmpDir (restore_assign (value svc) d (context svc)) env s1
      = (r, s2, t2) ->
    restore_step env svc s (restore_moved svc d Stopped) (set_slot None s2)
      (t1 ++ t2 ++ transition_trace env "finished" ++ stop_trace).

(** Where a restore run stands with [n] invocations still allowed: a
    running service is in the state its position dictates, holds the slot
    and has not settled its promise; a stopped one has released the slot and
    resolved the promise, once, with [null]. *)
Definition restore_wf (n : nat) (svc : Restore.Service) (s : Sys) (t : Trace) : Prop :=
  match status svc with
  | Running =>
      is_final Restore.restoreMachine (value svc) = false /\
      restore_index (value svc) + n = 5 /\
      inProgressStateMachine s = Some "restoreBackup" /\
      settled t = None /\
      visited svc = firstn (S (restore_index (value svc))) restore_order /\
      Restore.error (context svc) = None
  | Stopped =>
      inProgressStateMachine s = None /\
      settled t = Some JNull /\
      List.length (filter is_resolve t) = 1 /\
      ((value svc = Restore.finished /\ visited svc = restore_order /\
        Restore.error (context svc) = None) \/
       (value svc = Restore.failed /\
        (exists k, k < 5 /\ visited svc = firstn (S k) restore_order ++ [Restore.failed]) /\
        Restore.error (context svc) <> None))
  | NotStarted => False
  end.

(** ** The clone machine, state by state *)

Definition clone_src (X : Clone.State) (ctx : Clone.BackupMachineContext)
    : M Clone.Data :=
  match states Clone.cloneMachine X with
  | invoke src _ _ => src ctx
  | final _ => ret Clone.undefined
  end.

Definition clone_next (X : Clone.State) : Clone.State :=
  match states Clone.cloneMachine X with
  | invoke _ onDone _ => target onDone
  | final _ => X
  end.

Definition clone_on_error (X : Clone.State) : Clone.State :=
  match states Clone.cloneMachine X with
  | invoke _ _ onError => target onError
  | final _ => X
  end.

Definition clone_assign (X : Clone.State) (d : Clone.Data)
    (ctx : Clone.BackupMachineContext) : Clone.BackupMachineContext :=
  match states Clone.cloneMachine X with
  | invoke _ onDone _ =>
      apply_assigns Clone.cloneMachine (actions onDone) (done_invoke d) ctx
  | final _ => ctx
  end.

(** The documented order of the clone workflow, in the names of the code:
    gettingCredentials, settingUpDestination, creatingStagingDir,
    transferringSnapshot, applyingFilesystem, provisioning,
    applyingDatabase, rewritingDomain, finished. *)
Definition clone_order : list Clone.State :=
  [ Clone.gettingBackupCredentials; Clone.setupDestinationSite_; Clone.creatingTmpDir;
    Clone.cloningBackup; Clone.movingSiteFromTmpDir; Clone.provisioningSite;
    Clone.restoringDatabase; Clone.searchReplaceDomain; Clone.finished ].

Definition clone_index (X : Clone.State) : nat :=
  match X with
  | Clone.gettingBackupCredentials => 0
  | Clone.setupDestinationSite_ => 1
  | Clone.creatingTmpDir => 2
  | Clone.cloningBackup => 3
  | Clone.movingSiteFromTmpDir => 4
  | Clone.provisioningSite => 5
  | Clone.restoringDatabase => 6
  | Clone.searchReplaceDomain => 7
  | Clone.finished => 8
  | Clone.failed => 8
  end.

Definition clone_base_banner (ctx : Clone.BackupMachineContext) : Trace :=
  [ SendIPCEvent (goToRoute ("/main/site-info/" ++ Site.id (Clone.baseSite ctx))%string);
    SendIPCEvent (showSiteBanner
      {| siteID := Site.id (Clone.baseSite ctx);
         banner_id := "site-errored-backup-cloning";
         variant := "error";
         icon := "warning";
         title := "Cloning errored!";
         message := "There was an error while cloning your backup!" |}) ].

Definition clone_rollback (ctx : Clone.BackupMachineContext) : Trace :=
  [ SendIPCEvent (deleteSite (Clone.destinationSite ctx) true);
    SendIPCEvent (goToRoute ("/main/site-info/" ++ Site.id (Clone.baseSite ctx))%string);
    SendIPCEvent (showSiteBanner
      {| siteID := Site.id (Clone.baseSite ctx);
         banner_id := "site-errored-backup-cloning";
         variant := "error";
         icon := "warning";
         title := "Cloning from backup errored!";
         message := "There was an error while restoring your backup. Check your Local log for more details." |}) ].

(** What the error transition of state [X] sends. *)
Definition clone_recovery (X : Clone.State) (ctx : Clone.BackupMachineContext) : Trace :=
  match X with
  | Clone.gettingBackupCredentials | Clone.setupDestinationSite_ => clone_base_banner ctx
  | _ => clone_rollback ctx
  end.

Definition clone_failure_trace (env : Env) (X : Clone.State)
    (ctx : Clone.BackupMachineContext) (e : Err) : Trace :=
  Logger "error" e :: clone_recovery X ctx
    ++ transition_trace env "failed" ++ stop_trace.

Definition clone_moved (svc : Clone.Service) (d : Clone.Data) (st : Status)
    : Clone.Service :=
  {| value := clone_next (value svc);
     context := clone_assign (value svc) d (context svc);
     status := st;
     visited := visited svc ++ [clone_next (value svc)] |}.

Definition clone_failed (svc : Clone.Service) (e : Err) : Clone.Service :=
  {| value := Clone.failed;
     context := Clone.with_error (context svc) (Some e);
     status := Stopped;
     visited := visited svc ++ [Clone.failed] |}.

(** One settled invocation of the clone service, as a relation. *)
Inductive clone_step (env : Env) (svc : Clone.Service) (s : Sys)
    : Clone.Service -> Sys -> Trace -> Prop :=
| clone_idle :
    status svc <> Running \/ is_final Clone.cloneMachine (value svc) = true ->
    clone_step env svc s svc s []
| clone_throws e s1 t1 :
    status svc = Running ->
    is_final Clone.cloneMachine (value svc) = false ->
    clone_src (value svc) (context svc) env s = (Throw e, s1, t1) ->
    clone_step env svc s (clone_failed svc e) (set_slot None s1)
      (t1 ++ clone_failure_trace env (value svc) (context svc) e)
| clone_moves d s1 t1 :
    status svc = Running ->
    is_final Clone.cloneMachine (value svc) = false ->
    is_final Clone.cloneMachine (clone_next (value svc)) = false ->
    clone_src (value svc) (context svc) env s = (Ok d, s1, t1) ->
    clone_step env svc s (clone_moved svc d Running) s1
      (t1 ++ transition_trace env (Clone.name_of (clone_next (value svc))))
| clone_finishes d s1 t1 r s2 t2 :
    status svc = Running ->
    is_final Clone.cloneMachine (value svc) = false ->
    clone_next (value svc) = Clone.finished ->
    clone_src (value svc) (context svc) env s = (Ok d, s1, t1) ->
    Clone.removeTmpDir (clone_assign (value svc) d (context svc)) env s1
      = (r, s2, t2) ->
    clone_step env svc s (clone_moved svc d Stopped) (set_slot None s2)
      (t1 ++ t2 ++ transition_trace env "finished" ++ stop_trace).

Definition clone_wf (n : nat) (svc : Clone.Service) (s : Sys) (t : Trace) : Prop :=
  match status svc with
  | Running =>
      is_final Clone.cloneMachine (value svc) = false /\
      clone_index (value svc) + n = 8 /\
      inProgressStateMachine s = Some "cloneFromBackup" /\
      settled t = None /\
      visited svc = firstn (S (clone_index (value svc))) clone_order /\
      Clone.error (context svc) = None
  | Stopped =>
      inProgressStateMachine s = None /\
      settled t = Some JNull /\
      List.length (filter is_resolve t) = 1 /\
      ((value svc = Clone.finished /\ visited svc = clone_order /\
        Clone.error (context svc) = None) \/
       (value svc = Clone.failed /\
        (exists k, k < 8 /\ visited svc = firstn (S k) clone_order ++ [Clone.failed]) /\
        Clone.error (context svc) <> None))
  | NotStarted => False
  end.

(** ** A small installation, for the examples *)

Definition lower_ascii (c : ascii) : ascii :=
  let n := nat_of_ascii c in
  if ((65 <=? n) && (n <=? 90))%nat then ascii_of_nat (n + 32) else c.

Fixpoint toLowerCase (s : string) : string :=
  match s with
  | EmptyString => EmptyString
  | String c rest => String (lower_ascii c) (toLowerCase rest)
  end.

(** A stand-in for the host's [formatSiteNicename]: lower case, dashes for
    spaces. *)
Fixpoint ex_nicename (s : string) : string :=
  match s with
  | EmptyString => EmptyString
  | String c rest =>
      String (if Ascii.eqb c " "%char then "-"%char else lower_ascii c) (ex_nicename rest)
  end.

(** Modelled from the spec: [checkForDuplicateSiteName] of the helpers,
    which is not among the sources.  The spec: the requested name collides,
    case-insensitively or in its normalized form, with the name of an
    existing site. *)
Definition checkForDuplicateSiteName_model (nicename : string -> string)
    (registered : list Site.t) (siteName siteDomain : string) : bool :=
  existsb (fun site =>
    (toLowerCase (Site.name site) =? toLowerCase siteName)%string
    || (nicename (Site.name site) =? siteDomain)%string) registered.

Definition ex_site : Site.t :=
  {| Site.id := "s1"; Site.name := "My Site"; Site.path := ["sites"; "my-site"];
     Site.domain := "my-site.local"; Site.mysql_database := "local";
     Site.localBackupRepoID := Some "repo1" |}.

Definition ex_snapshot : Disk :=
  [ (["app"], Dir); (["app"; "public"], Dir);
    (["app"; "public"; "index.php"], File "<?php new");
    (["app"; "sql"], Dir); (["app"; "sql"; "dump.sql"], File "INSERT new") ].

(** The same snapshot taken without a database. *)
Definition ex_snapshot_files_only : Disk :=
  [ (["app"], Dir); (["app"; "public"], Dir);
    (["app"; "public"; "index.php"], File "<?php new") ].

Definition ex_env (snap : Disk) (fault : Call -> option Err) : Env :=
  {| backupSQLDumpFile := "dump.sql";
     formatHomePath := fun p => p;
     formatSiteNicename := ex_nicename;
     checkForDuplicateSiteName := checkForDuplicateSiteName_model ex_nicename;
     shortid_generate := "s2";
     tmp_name := ["tmp"; "tmp-1"];
     hub_backup_site := fun _ =>
       {| BackupSite.id := 7; BackupSite.uuid := "uuid-1"; BackupSite.password := "secret" |};
     snapshot := fun _ => snap;
     site_status := fun _ => "running";
     camelCaseToSentence := fun s => s;
     fault := fault |}.

Definition ex_disk : Disk :=
  [ (["sites"], Dir); (["sites"; "my-site"], Dir);
    (["sites"; "my-site"; "app"], Dir);
    (["sites"; "my-site"; "app"; "public"], Dir);
    (["sites"; "my-site"; "app"; "public"; "index.php"], File "<?php old");
    (["sites"; "my-site"; "conf"], Dir);
    (["sites"; "my-site"; "conf"; "nginx.conf"], File "server {}");
    (["sites"; "my-site"; ".gitignore"], File "node_modules") ].

Definition ex_sys : Sys :=
  {| inProgressStateMachine := None;
     disk := ex_disk;
     sites := [ex_site];
     mysql := [("s1", {| sql_mode := "STRICT_TRANS_TABLES";
                         databases := [("local", "INSERT old")] |})] |}.

(** A backup is in flight. *)
Definition ex_busy : Sys := set_slot (Some "backup") ex_sys.

Definition no_fault : Call -> option Err := fun _ => None.

Definition hub_down : Call -> option Err :=
  fun c => match c with GetBackupSite _ => Some "hub unreachable" | _ => None end.

Definition restic_fails : Call -> option Err :=
  fun c => match c with
           | RestoreResticBackup _ _ _ _ _ => Some "restic: wrong password"
           | _ => None
           end.

Definition import_fails : Call -> option Err :=
  fun c => match c with ImportSQLFile _ _ => Some "mysql: syntax error" | _ => None end.

Definition ex_restore_opts : Restore.Opts :=
  {| Restore.opts_site := ex_site; Restore.opts_provider := Drive;
     Restore.opts_snapshotID := "abc123" |}.

Definition ex_clone_opts (newName : string) : Clone.Opts :=
  {| Clone.opts_baseSite := ex_site; Clone.opts_provider := Drive;
     Clone.opts_snapshotHash := "abc123"; Clone.opts_newSiteName := newName |}.

(** The staging directory, and the disk once restic has filled it. *)
Definition ex_tmp : DirResult := {| dir_name := ["tmp"; "tmp-1"] |}.

Definition ex_staged : Sys :=
  set_disk (unpack (dir_name ex_tmp) ex_snapshot (mkdir (dir_name ex_tmp) ex_disk)) ex_sys.

Definition ex_staged_files_only : Sys :=
  set_disk (unpack (dir_name ex_tmp) ex_snapshot_files_only
              (mkdir (dir_name ex_tmp) ex_disk)) ex_sys.

(** The contexts of the two machines when they reach [restoringDatabase]. *)
Definition ex_restore_ctx : Restore.BackupMachineContext :=
  {| Restore.site := ex_site; Restore.initialSiteStatus := "running";
     Restore.provider := Drive; Restore.snapshotID := "abc123";
     Restore.encryptionPassword := Some "secret"; Restore.backupSiteID := Some 7;
     Restore.localBackupRepoID := Some "uuid-1"; Restore.tmpDirData := Some ex_tmp;
     Restore.error := None |}.

Definition ex_clone_ctx : Clone.BackupMachineContext :=
  {| Clone.baseSite := ex_site; Clone.destinationSite := Some ex_site;
     Clone.provider := Drive; Clone.snapshotHash := "abc123";
     Clone.encryptionPassword := Some "secret"; Clone.backupSiteID := Some 7;
     Clone.localBackupRepoID := Some "uuid-1"; Clone.tmpDirData := Some ex_tmp;
     Clone.error := None; Clone.newSiteName := "Copy" |}.

(** ** Database apply *)

Definition permissive_mode : string := "NO_AUTO_VALUE_ON_ZERO".

Definition no_sql_file_warning : string :=
  "No SQL file found in this backup: continuing without database restore".

(** Where [importDatabase] looks for the dump. *)
Definition sqlFile_in (env : Env) (tmp : DirResult) : Path :=
  join (dir_name tmp) ["app"; "sql"; backupSQLDumpFile env].

Definition file_data (d : Disk) (p : Path) : string :=
  match read_file d p with
  | Some x => x
  | None => EmptyString
  end.

Definition sql_until_import (site : Site.t) (sqlFile : Path) : Trace :=
  [ RunSiteSQLCmd site SELECT_SQL_MODE;
    RunSiteSQLCmd site (SET_GLOBAL_SQL_MODE permissive_mode);
    RunSiteSQLCmd site (DROP_CREATE_DATABASE (Site.mysql_database site));
    ImportSQLFile site sqlFile ].

(** The value of a path on the disk, if it is there. *)
Definition on_disk (d : Disk) (p : Path) : Prop := In p (map fst d).

(** ** Invariants of the restore run *)

(** The recovery of a failed restore: on the way to [failed] the three
    calls of [setErroredStatus] were made, with the site and the status the
    entry point captured, and before the promise was resolved. *)
Definition restore_recovered (site0 : Site.t) (status0 : string)
    (n : nat) (svc : Restore.Service) (s : Sys) (t : Trace) : Prop :=
  restore_wf n svc s t /\
  Restore.site (context svc) = site0 /\
  Restore.initialSiteStatus (context svc) = status0 /\
  hd_error t = Some (GetSiteStatus site0) /\
  (value svc = Restore.failed ->
   exists t1 t2, t = t1 ++ restore_recovery (context svc) ++ t2 /\ settled t1 = None).

(** The staging directory of a restore run: there from the moment the
    service has left [creatingTmpDir], gone in [finished], still there in
    [failed]. *)
Definition restore_staged (env : Env) (site0 : Site.t)
    (n : nat) (svc : Restore.Service) (s : Sys) (t : Trace) : Prop :=
  restore_wf n svc s t /\
  Restore.site (context svc) = site0 /\
  (status svc = Running -> 2 <= restore_index (value svc) ->
   Restore.tmpDirData (context svc) = Some {| dir_name := tmp_name env |} /\
   existsSync (disk s) (tmp_name env) = true) /\
  (status svc = Stopped -> value svc = Restore.finished ->
   existsSync (disk s) (tmp_name env) = false /\
   has_children (tmp_name env) (disk s) = false) /\
  (status svc = Stopped -> value svc = Restore.failed ->
   In Restore.restoringBackup (visited svc) ->
   existsSync (disk s) (tmp_name env) = true).

(** The same for a clone run, whose staging directory is created in the
    third state. *)
Definition clone_staged (env : Env)
    (n : nat) (svc : Clone.Service) (s : Sys) (t : Trace) : Prop :=
  clone_wf n svc s t /\
  (status svc = Running -> 3 <= clone_index (value svc) ->
   Clone.tmpDirData (context svc) = Some {| dir_name := tmp_name env |} /\
   existsSync (disk s) (tmp_name env) = true) /\
  (status svc = Stopped -> value svc = Clone.finished ->
   existsSync (disk s) (tmp_name env) = false /\
   has_children (tmp_name env) (disk s) = false) /\
  (status svc = Stopped -> value svc = Clone.failed ->
   In Clone.cloningBackup (visited svc) ->
   existsSync (disk s) (tmp_name env) = true).

(** ** The invariant of the clone run

    [sites0] and [disk0] are the registry and the disk the run started
    from, [name0] the requested name and [dup0] what the duplicate check
    says of it in that registry.  Up to and including [setupDestinationSite] nothing has
    been registered or written.  From [creatingTmpDir] on the context holds
    the destination, every record the registry gained carries its id, and
    the name was not a duplicate.  A failure before [creatingTmpDir] leaves
    no footprint; a failure from there on has sent [deleteSite] for the
    destination, with [trashFiles], before the promise was resolved. *)
Definition clone_rolled (env : Env) (sites0 : list Site.t) (disk0 : Disk)
    (name0 : string)
    (n : nat) (svc : Clone.Service) (s : Sys) (t : Trace) : Prop :=
  let dup0 :=
    checkForDuplicateSiteName env sites0 name0 (formatSiteNicename env name0) in
  clone_wf n svc s t /\
  Clone.newSiteName (context svc) = name0 /\
  (In Clone.creatingTmpDir (visited svc) -> dup0 = false) /\
  (status svc = Running -> clone_index (value svc) <= 1 ->
   sites s = sites0 /\ disk s = disk0 /\ Forall no_destination_call t /\
   Clone.destinationSite (context svc) = None) /\
  (status svc = Running -> 2 <= clone_index (value svc) ->
   exists d, Clone.destinationSite (context svc) = Some d /\
     forall x, In x (sites s) -> In x sites0 \/ Site.id x = Site.id d) /\
  (status svc = Stopped -> value svc = Clone.failed ->
   (~ In Clone.creatingTmpDir (visited svc) ->
    sites s = sites0 /\ disk s = disk0 /\ Forall no_destination_call t /\
    Clone.destinationSite (context svc) = None /\
    (In Clone.setupDestinationSite_ (visited svc) ->
     dup0 = true /\ Clone.error (context svc) = Some Clone.siteDomainTakenError)) /\
   (In Clone.creatingTmpDir (visited svc) ->
    exists d t1 t2,
      Clone.destinationSite (context svc) = Some d /\
      (forall x, In x (sites s) -> In x sites0 \/ Site.id x = Site.id d) /\
      t = t1 ++ SendIPCEvent (deleteSite (Some d) true) :: t2 /\
      settled t1 = None)).

Definition duplicate_name_box (newSiteName : string) : Call :=
  ShowErrorBox "Invalid Site Name"
    (newSiteName ++ " is already taken by another site. Please choose a different name.")%string.

(** Rollback completeness of the clone as the spec words it: a clone run
    that failed at or after [setupDestinationSite] has sent [deleteSite],
    with [trashFiles], for a destination site. *)
Definition rollback_from_setup_claim : Prop :=
  forall env s opts svc s' t,
    inProgressStateMachine s = None ->
    Clone.clone opts env s = (Ok (Some svc), s', t) ->
    value svc = Clone.failed ->
    In Clone.setupDestinationSite_ (visited svc) ->
    exists d, In (SendIPCEvent (deleteSite (Some d) true)) t.

(** * Further notions: the disk, MySQL and the events of a run *)

(** What the disk holds at a path. *)
Definition node_at (d : Disk) (p : Path) : option Node :=
  match find (fun e => path_eqb (fst e) p) d with
  | Some (_, n) => Some n
  | None => None
  end.

(** The disk after the removals of [moveSiteFromTmpDir], in the order of
    the list. *)
Definition removals (items : list Path) (d : Disk) : Disk :=
  fold_left (fun d' p => remove p d') items d.

Definition is_started (c : Call) : bool :=
  match c with SendIPCEvent BACKUP_STARTED => true | _ => false end.

Definition is_completed (c : Call) : bool :=
  match c with SendIPCEvent BACKUP_COMPLETED => true | _ => false end.

Definition is_error_log (c : Call) : bool :=
  match c with Logger level _ => level =? "error" | _ => false end.

Definition is_banner (c : Call) : bool :=
  match c with SendIPCEvent (showSiteBanner _) => true | _ => false end.

Definition is_deleteSite (c : Call) : bool :=
  match c with SendIPCEvent (deleteSite _ _) => true | _ => false end.

(** The two log lines of the restore's [moveSiteFromTmpDir]. *)
Definition move_log (items : list Path) : string :=
  "removing the following directories/files to prepare for the site backup: "
    ++ String.concat ", " (map (fun file => dquote ++ path_text file ++ dquote)%string items).

Definition moved_log (src dst : Path) : string :=
  "Site contents moved from '" ++ path_text src ++ "' to '" ++ path_text dst ++ "'".

(** The calls of an [importDatabase] that goes through: the sequence up to
    the import, then the query that puts the SQL mode back. *)
Definition sql_after_import (site : Site.t) (sqlFile : Path) (mode : string) : Trace :=
  sql_until_import site sqlFile ++ [RunSiteSQLCmd site (SET_GLOBAL_SQL_MODE mode)].

(** ** What a run reports *)

(** Calls that are none of the messages the interpreter's listeners and
    error actions send. *)
Definition quiet (c : Call) : Prop :=
  is_started c = false /\ is_completed c = false /\ is_error_log c = false /\
  is_banner c = false /\ is_deleteSite c = false /\ is_resolve c = false.

Definition any_state (s s' : Sys) : Prop := True.

(** The reports of a restore run: one [BACKUP_STARTED] for each state
    entered; while the service runs no [BACKUP_COMPLETED], no error line and
    no banner; once it has stopped the trace ends with [BACKUP_COMPLETED]
    and the resolution, and the error of the context, the error line and the
    banner go together. *)
Definition restore_reported (n : nat) (svc : Restore.Service) (s : Sys) (t : Trace)
    : Prop :=
  restore_wf n svc s t /\
  List.length (filter is_started t) = List.length (visited svc) /\
  match status svc with
  | Running =>
      filter is_completed t = [] /\ filter is_error_log t = [] /\ filter is_banner t = []
  | Stopped =>
      (exists t0, t = t0 ++ stop_trace /\ filter is_completed t0 = [] /\ settled t0 = None) /\
      match Restore.error (context svc) with
      | None =>
          value svc = Restore.finished /\
          filter is_error_log t = [] /\ filter is_banner t = []
      | Some e =>
          value svc = Restore.failed /\
          filter is_error_log t = [Logger "error" e] /\
          exists b, filter is_banner t = [SendIPCEvent (showSiteBanner b)]
      end
  | NotStarted => False
  end.

Definition clone_reported (n : nat) (svc : Clone.Service) (s : Sys) (t : Trace)
    : Prop :=
  clone_wf n svc s t /\
  List.length (filter is_started t) = List.length (visited svc) /\
  match status svc with
  | Running =>
      filter is_completed t = [] /\ filter is_error_log t = [] /\
      filter is_banner t = [] /\ filter is_deleteSite t = []
  | Stopped =>
      (exists t0, t = t0 ++ stop_trace /\ filter is_completed t0 = [] /\ settled t0 = None) /\
      match Clone.error (context svc) with
      | None =>
          value svc = Clone.finished /\
          filter is_error_log t = [] /\ filter is_banner t = [] /\
          filter is_deleteSite t = []
      | Some e =>
          value svc = Clone.failed /\
          filter is_error_log t = [Logger "error" e] /\
          exists b, filter is_banner t = [SendIPCEvent (showSiteBanner b)]
      end
  | NotStarted => False
  end.

(** ** What a run leaves alone *)

(** [within sitePath tmp id FS DB s s']: from [s] to [s'] the registry is
    the same; the disk is the same off the staging directory [tmp] and,
    once the filesystem step has been invoked ([FS]), off the site
    directory; the MySQL of every site but [id] is the same, and that of
    [id] too until the database step has been invoked ([DB]). *)
Definition within (sitePath tmp : Path) (id : string) (FS DB : Prop) (s s' : Sys)
    : Prop :=
  sites s' = sites s /\
  (forall p, is_prefix tmp p = false -> (is_prefix sitePath p = false \/ ~ FS) ->
     node_at (disk s') p = node_at (disk s) p) /\
  (forall id', id' <> id -> mysql_of s' id' = mysql_of s id') /\
  (~ DB -> mysql s' = mysql s).

(** The function a state invokes has been called: the service has moved
    past the state, or stopped having entered it. *)
Definition restore_invoked (svc : Restore.Service) (X : Restore.State) : Prop :=
  match status svc with
  | Running => restore_index X < restore_index (value svc)
  | _ => In X (visited svc)
  end.

Definition restore_framed (env : Env) (site0 : Site.t) (s0 : Sys)
    (n : nat) (svc : Restore.Service) (s : Sys) (t : Trace) : Prop :=
  restore_wf n svc s t /\
  Restore.site (context svc) = site0 /\
  (forall tmp, Restore.tmpDirData (context svc) = Some tmp -> dir_name tmp = tmp_name env) /\
  within (formatHomePath env (Site.path site0)) (tmp_name env) (Site.id site0)
    (restore_invoked svc Restore.movingSiteFromTmpDir)
    (restore_invoked svc Restore.restoringDatabase) s0 s.

(** The site record [setupDestinationSite] registers for a clone of [base]
    under the name [name]. *)
Definition clone_destination (env : Env) (base : Site.t) (name : string) : Site.t :=
  {| Site.id := shortid_generate env;
     Site.name := name;
     Site.path := join (dirname (Site.path base)) [formatSiteNicename env name];
     Site.domain := formatSiteNicename env name ++ ".local";
     Site.mysql_database := Site.mysql_database base;
     Site.localBackupRepoID := Site.localBackupRepoID base |}.

(** What [setupDestinationSite] sends once the record is registered. *)
Definition setup_trace (dup : Site.t) : Trace :=
  [ AddSite (Site.id dup) dup;
    SendIPCEvent (selectSite (Site.id dup) true true);
    SendIPCEvent (updateSiteStatus (Site.id dup) "provisioning");
    SendIPCEvent (updateSiteMessage (Site.id dup) "Restoring your site backup") ].

(** [within] without the registry, which a clone extends. *)
Definition apart (sitePath tmp : Path) (id : string) (FS DB : Prop) (s s' : Sys)
    : Prop :=
  (forall p, is_prefix tmp p = false -> (is_prefix sitePath p = false \/ ~ FS) ->
     node_at (disk s') p = node_at (disk s) p) /\
  (forall id', id' <> id -> mysql_of s' id' = mysql_of s id') /\
  (~ DB -> mysql s' = mysql s).

Definition clone_invoked (svc : Clone.Service) (X : Clone.State) : Prop :=
  match status svc with
  | Running => clone_index X < clone_index (value svc)
  | _ => In X (visited svc)
  end.

Definition clone_framed (env : Env) (base : Site.t) (name : string) (s0 : Sys)
    (n : nat) (svc : Clone.Service) (s : Sys) (t : Trace) : Prop :=
  let dup := clone_destination env base name in
  clone_wf n svc s t /\
  Clone.baseSite (context svc) = base /\
  Clone.newSiteName (context svc) = name /\
  (forall tmp, Clone.tmpDirData (context svc) = Some tmp -> dir_name tmp = tmp_name env) /\
  (forall d, Clone.destinationSite (context svc) = Some d -> d = dup) /\
  (In Clone.creatingTmpDir (visited svc) ->
   sites s = sites s0 ++ [dup] /\ Clone.destinationSite (context svc) = Some dup) /\
  (~ In Clone.creatingTmpDir (visited svc) -> sites s = sites s0) /\
  apart (formatHomePath env (Site.path dup)) (tmp_name env) (Site.id dup)
    (clone_invoked svc Clone.movingSiteFromTmpDir)
    (clone_invoked svc Clone.restoringDatabase) s0 s.

(** ** A restore in which nothing fails *)

(** The disk once restic has unpacked the snapshot into the new staging
    directory, once the site has been emptied and the staging directory
    copied over it, and once the staging directory has been released. *)
Definition staged_disk (env : Env) (snapshotID : string) (d : Disk) : Disk :=
  unpack (tmp_name env) (snapshot env snapshotID) (mkdir (tmp_name env) d).

Definition applied_disk (env : Env) (sitePath : Path) (snapshotID : string) (d : Disk)
    : Disk :=
  copy (tmp_name env) sitePath
    (removals (filteredSiteFiles (staged_disk env snapshotID d) sitePath)
       (staged_disk env snapshotID d)).

Definition released_disk (tmp : Path) (d : Disk) : Disk := remove tmp (emptyDir tmp d).

(** The state after the five calls of an [importDatabase] that goes
    through. *)
Definition imported (site : Site.t) (sqlFile : Path) (s : Sys) : Sys :=
  update_mysql (Site.id site) (set_mode (sql_mode (mysql_of s (Site.id site))))
    (update_mysql (Site.id site)
       (set_database (Site.mysql_database site) (file_data (disk s) sqlFile))
       (update_mysql (Site.id site)
          (set_database (Site.mysql_database site) EmptyString)
          (update_mysql (Site.id site) (set_mode permissive_mode) s))).

Definition restore_context (env : Env) (opts : Restore.Opts) (onDisk : Site.t) (k : nat)
    : Restore.BackupMachineContext :=
  let b := hub_backup_site env (Site.localBackupRepoID onDisk) in
  {| Restore.site := Restore.opts_site opts;
     Restore.initialSiteStatus := site_status env (Restore.opts_site opts);
     Restore.provider := Restore.opts_provider opts;
     Restore.snapshotID := Restore.opts_snapshotID opts;
     Restore.encryptionPassword := if (1 <=? k)%nat then Some (BackupSite.password b) else None;
     Restore.backupSiteID := if (1 <=? k)%nat then Some (BackupSite.id b) else None;
     Restore.localBackupRepoID := if (1 <=? k)%nat then Some (BackupSite.uuid b) else None;
     Restore.tmpDirData := if (2 <=? k)%nat then Some {| dir_name := tmp_name env |} else None;
     Restore.error := None |}.

(** The service after [k] of the five invocations. *)
Definition restore_service (env : Env) (opts : Restore.Opts) (onDisk : Site.t) (k : nat)
    : Restore.Service :=
  {| value := nth k restore_order Restore.finished;
     context := restore_context env opts onDisk k;
     status := if (5 <=? k)%nat then Stopped else Running;
     visited := firstn (S k) restore_order |}.

Definition restore_sys (env : Env) (opts : Restore.Opts) (s0 : Sys) (k : nat) : Sys :=
  let site := Restore.opts_site opts in
  let sitePath := formatHomePath env (Site.path site) in
  let tmp := tmp_name env in
  let running := set_slot (Some "restoreBackup") s0 in
  let applied :=
    set_disk (applied_disk env sitePath (Restore.opts_snapshotID opts) (disk s0)) running in
  match k with
  | 0 | 1 => running
  | 2 => set_disk (mkdir tmp (disk s0)) running
  | 3 => set_disk (staged_disk env (Restore.opts_snapshotID opts) (disk s0)) running
  | 4 => applied
  | _ =>
      let after_db :=
        if existsSync (disk applied) (sqlFile_in env {| dir_name := tmp |})
        then imported site (sqlFile_in env {| dir_name := tmp |}) applied
        else applied in
      set_slot None (set_disk (released_disk tmp (disk after_db)) after_db)
  end.

(** What the [k]-th invocation and the transition after it add to the
    trace. *)
Definition restore_chunk (env : Env) (opts : Restore.Opts) (onDisk : Site.t) (s0 : Sys)
    (k : nat) : Trace :=
  let site := Restore.opts_site opts in
  let sitePath := formatHomePath env (Site.path site) in
  let tmp := tmp_name env in
  let staged := staged_disk env (Restore.opts_snapshotID opts) (disk s0) in
  let items := filteredSiteFiles staged sitePath in
  let sqlFile := sqlFile_in env {| dir_name := tmp |} in
  match k with
  | 0 => GetSiteStatus site :: transition_trace env "gettingBackupCredentials"
  | 1 => GetBackupSite (Site.localBackupRepoID onDisk)
           :: transition_trace env "creatingTmpDir"
  | 2 => TmpDirSync :: transition_trace env "restoringBackup"
  | 3 => RestoreResticBackup site (Restore.opts_provider opts)
           (Some (BackupSite.password (hub_backup_site env (Site.localBackupRepoID onDisk))))
           (Restore.opts_snapshotID opts) tmp
           :: transition_trace env "movingSiteFromTmpDir"
  | 4 => (Logger "info" (move_log items) :: map FsRemove items
            ++ [FsCopySync tmp sitePath; Logger "info" (moved_log tmp sitePath)])
           ++ transition_trace env "restoringDatabase"
  | _ => (if existsSync (disk (restore_sys env opts s0 4)) sqlFile
          then sql_after_import site sqlFile (sql_mode (mysql_of s0 (Site.id site)))
          else [Logger "warn" no_sql_file_warning])
           ++ [FsEmptyDirSync tmp; RemoveCallback tmp]
           ++ transition_trace env "finished" ++ stop_trace
  end.

Fixpoint restore_trace (env : Env) (opts : Restore.Opts) (onDisk : Site.t) (s0 : Sys)
    (k : nat) : Trace :=
  match k with
  | O => restore_chunk env opts onDisk s0 0
  | S j => restore_trace env opts onDisk s0 j ++ restore_chunk env opts onDisk s0 (S j)
  end.

(** With [n] invocations to go the run is at point [5 - n]. *)
Definition restore_on_course (env : Env) (opts : Restore.Opts) (onDisk : Site.t)
    (s0 : Sys) (n : nat) (svc : Restore.Service) (s : Sys) (t : Trace) : Prop :=
  n <= 5 /\
  svc = restore_service env opts onDisk (5 - n) /\
  s = restore_sys env opts s0 (5 - n) /\
  t = restore_trace env opts onDisk s0 (5 - n).

(** ** A clone in which nothing fails *)

Definition clone_context (env : Env) (opts : Clone.Opts) (onDisk : Site.t) (k : nat)
    : Clone.BackupMachineContext :=
  let b := hub_backup_site env (Site.localBackupRepoID onDisk) in
  {| Clone.baseSite := Clone.opts_baseSite opts;
     Clone.destinationSite :=
       if (2 <=? k)%nat
       then Some (clone_destination env (Clone.opts_baseSite opts)
                    (Clone.opts_newSiteName opts))
       else None;
     Clone.provider := Clone.opts_provider opts;
     Clone.snapshotHash := Clone.opts_snapshotHash opts;
     Clone.encryptionPassword := if (1 <=? k)%nat then Some (BackupSite.password b) else None;
     Clone.backupSiteID := if (1 <=? k)%nat then Some (BackupSite.id b) else None;
     Clone.localBackupRepoID := if (1 <=? k)%nat then Some (BackupSite.uuid b) else None;
     Clone.tmpDirData := if (3 <=? k)%nat then Some {| dir_name := tmp_name env |} else None;
     Clone.error := None;
     Clone.newSiteName := Clone.opts_newSiteName opts |}.

(** The service after [k] of the eight invocations. *)
Definition clone_service (env : Env) (opts : Clone.Opts) (onDisk : Site.t) (k : nat)
    : Clone.Service :=
  {| value := nth k clone_order Clone.finished;
     context := clone_context env opts onDisk k;
     status := if (8 <=? k)%nat then Stopped else Running;
     visited := firstn (S k) clone_order |}.

(** The disk once the staging directory has been copied onto the new
    site's directory. *)
Definition cloned_disk (env : Env) (destPath : Path) (snapshotHash : string) (d : Disk)
    : Disk :=
  copy (tmp_name env) destPath (staged_disk env snapshotHash d).

Definition clone_sys (env : Env) (opts : Clone.Opts) (s0 : Sys) (k : nat) : Sys :=
  let dup := clone_destination env (Clone.opts_baseSite opts) (Clone.opts_newSiteName opts) in
  let destPath := formatHomePath env (Site.path dup) in
  let tmp := tmp_name env in
  let running := set_slot (Some "cloneFromBackup") s0 in
  let registered := set_sites (sites s0 ++ [dup]) running in
  let copied :=
    set_disk (cloned_disk env destPath (Clone.opts_snapshotHash opts) (disk s0)) registered in
  let after_db :=
    if existsSync (disk copied) (sqlFile_in env {| dir_name := tmp |})
    then imported dup (sqlFile_in env {| dir_name := tmp |}) copied
    else copied in
  match k with
  | 0 | 1 => running
  | 2 => registered
  | 3 => set_disk (mkdir tmp (disk s0)) registered
  | 4 => set_disk (staged_disk env (Clone.opts_snapshotHash opts) (disk s0)) registered
  | 5 | 6 => copied
  | 7 => after_db
  | _ => set_slot None (set_disk (released_disk tmp (disk after_db)) after_db)
  end.

Definition clone_chunk (env : Env) (opts : Clone.Opts) (onDisk : Site.t) (s0 : Sys)
    (k : nat) : Trace :=
  let base := Clone.opts_baseSite opts in
  let dup := clone_destination env base (Clone.opts_newSiteName opts) in
  let destPath := formatHomePath env (Site.path dup) in
  let tmp := tmp_name env in
  let sqlFile := sqlFile_in env {| dir_name := tmp |} in
  match k with
  | 0 => transition_trace env "gettingBackupCredentials"
  | 1 => GetBackupSite (Site.localBackupRepoID onDisk)
           :: transition_trace env "setupDestinationSite"
  | 2 => setup_trace dup ++ transition_trace env "creatingTmpDir"
  | 3 => TmpDirSync :: transition_trace env "cloningBackup"
  | 4 => RestoreResticBackup base (Clone.opts_provider opts)
           (Some (BackupSite.password (hub_backup_site env (Site.localBackupRepoID onDisk))))
           (Clone.opts_snapshotHash opts) tmp
           :: transition_trace env "movingSiteFromTmpDir"
  | 5 => [FsCopySync tmp destPath; Logger "info" (moved_log tmp destPath)]
           ++ transition_trace env "provisioningSite"
  | 6 => Provision dup :: transition_trace env "restoringDatabase"
  | 7 => (if existsSync (disk (clone_sys env opts s0 6)) sqlFile
          then sql_after_import dup sqlFile (sql_mode (mysql_of s0 (Site.id dup)))
          else [Logger "warn" no_sql_file_warning])
           ++ transition_trace env "searchReplaceDomain"
  | _ => [ SendIPCEvent (updateSiteStatus (Site.id dup) "provisioning");
           SendIPCEvent (updateSiteMessage (Site.id dup) "Changing site domain");
           WaitForDB dup; ChangeSiteDomainToHost dup; RestartSite dup;
           FsEmptyDirSync tmp; RemoveCallback tmp ]
           ++ transition_trace env "finished" ++ stop_trace
  end.

Fixpoint clone_trace (env : Env) (opts : Clone.Opts) (onDisk : Site.t) (s0 : Sys)
    (k : nat) : Trace :=
  match k with
  | O => clone_chunk env opts onDisk s0 0
  | S j => clone_trace env opts onDisk s0 j ++ clone_chunk env opts onDisk s0 (S j)
  end.

Definition clone_on_course (env : Env) (opts : Clone.Opts) (onDisk : Site.t)
    (s0 : Sys) (n : nat) (svc : Clone.Service) (s : Sys) (t : Trace) : Prop :=
  n <= 8 /\
  svc = clone_service env opts onDisk (8 - n) /\
  s = clone_sys env opts s0 (8 - n) /\
  t = clone_trace env opts onDisk s0 (8 - n).

(** * The rest of the ignore-files module *)

Definition localBackupsIgnoreFileName : string := ".localbackupaddonignore".

(** A path and the directories above it, outermost first. *)
Fixpoint with_ancestors (p : Path) : list Path :=
  match p with
  | [] => []
  | a :: rest => [a] :: map (cons a) (with_ancestors rest)
  end.

(** [mkdirsSync]: the directory and those above it that are missing. *)
Definition mkdirs (p : Path) (d : Disk) : Disk :=
  fold_left (fun d' q => mkdir q d') (with_ancestors p) d.

(** [fs.copySync(src, dest)] whatever [src] is: it throws when [src] does
    not exist; a file is written at [dest], over what is there, after the
    directory of [dest] has been made if it was missing; a directory is
    copied as [fs_copySync] does. *)
Definition fs_copySync_path (src dst : Path) : M unit :=
  d <- gets disk ;;
  match node_at d src with
  | None =>
      emit (FsCopySync src dst) ;;
      throw "ENOENT: no such file or directory"
  | Some (File data) =>
      call (FsCopySync src dst)
        (fun s => (tt, set_disk (write (dst, File data) (mkdirs (dirname dst) (disk s))) s))
  | Some Dir => fs_copySync src dst
  end.

(** Where [getIgnoreFilePath] looks for the default ignore file: next to
    the directory of the module, then one level further up. *)
Definition defaultIgnoreFilePath (__dirname : Path) (d : Disk) : Path :=
  let defaultIgnoreFilePath :=
    join (dirname __dirname) ["resources"; "default-ignore-file"] in
  if negb (existsSync d defaultIgnoreFilePath)
  then join (dirname (dirname __dirname)) ["resources"; "default-ignore-file"]
  else defaultIgnoreFilePath.

Definition ignoreFilePath_of (env : Env) (site : Site.t) : Path :=
  join (formatHomePath env (Site.path site)) [localBackupsIgnoreFileName].

Definition getIgnoreFilePath (__dirname : Path) (site : Site.t) : M Path :=
  d <- gets disk ;;
  let defaultIgnoreFilePath := defaultIgnoreFilePath __dirname d in
  fmt <- ask formatHomePath ;;
  let expandedSitePath := fmt (Site.path site) in
  let ignoreFilePath := join expandedSitePath [localBackupsIgnoreFileName] in
  d' <- gets disk ;;
  (if negb (existsSync d' ignoreFilePath)
   then fs_copySync_path defaultIgnoreFilePath ignoreFilePath
   else ret tt) ;;
  ret ignoreFilePath.

(** * The renderer *)

(** ** The providers slice of the store *)

Module ProvidersSlice.

Record HubProviderRecord := { id : string; name : string }.

Definition ActiveProvidersLookup := list (string * string).

Record State := {
  (** Lookup table of active provider ids for each given site *)
  activeProviders : option ActiveProvidersLookup;
  (** List of providers from Hub that can be used for all sites *)
  enabledProviders : list HubProviderRecord;
  (** Whether loading the providers resulted in an error *)
  hasErrorLoadingEnabledProviders : bool;
  (** Whether list of enabled providers from Hub is loading *)
  isLoadingEnabledProviders : bool
}.

Definition initialState : State :=
  {| activeProviders := None;
     enabledProviders := [];
     hasErrorLoadingEnabledProviders := false;
     isLoadingEnabledProviders := false |}.

(** The actions the slice has a case for, and any other action of the
    store. *)
Inductive Action :=
| initActiveProvidersFromLocalStorage_fulfilled (payload : option ActiveProvidersLookup)
| getEnabledProvidersHub_fulfilled (payload : list HubProviderRecord)
| getEnabledProvidersHub_pending
| getEnabledProvidersHub_rejected
| setActiveProviderAndPersist_fulfilled (payload : option ActiveProvidersLookup)
| other (type : string).

Definition reducer (state : State) (action : Action) : State :=
  match action with
  | initActiveProvidersFromLocalStorage_fulfilled payload =>
      {| activeProviders := payload;
         enabledProviders := enabledProviders state;
         hasErrorLoadingEnabledProviders := hasErrorLoadingEnabledProviders state;
         isLoadingEnabledProviders := isLoadingEnabledProviders state |}
  | getEnabledProvidersHub_fulfilled payload =>
      {| activeProviders := activeProviders state;
         enabledProviders := payload;
         hasErrorLoadingEnabledProviders := hasErrorLoadingEnabledProviders state;
         isLoadingEnabledProviders := false |}
  | getEnabledProvidersHub_pending =>
      {| activeProviders := activeProviders state;
         enabledProviders := enabledProviders state;
         hasErrorLoadingEnabledProviders := false;
         isLoadingEnabledProviders := true |}
  | getEnabledProvidersHub_rejected =>
      {| activeProviders := activeProviders state;
         enabledProviders := enabledProviders state;
         hasErrorLoadingEnabledProviders := true;
         isLoadingEnabledProviders := false |}
  | setActiveProviderAndPersist_fulfilled payload =>
      {| activeProviders := payload;
         enabledProviders := enabledProviders state;
         hasErrorLoadingEnabledProviders := hasErrorLoadingEnabledProviders state;
         isLoadingEnabledProviders := isLoadingEnabledProviders state |}
  | other _ => state
  end.

(** The store after a history of actions, oldest first. *)
Definition after (history : list Action) : State := fold_left reducer history initialState.

End ProvidersSlice.

(** The last action of a history that satisfies [f]. *)
Definition last_such {A} (f : A -> bool) (history : list A) : option A :=
  find f (rev history).

Definition is_load (a : ProvidersSlice.Action) : bool :=
  match a with
  | ProvidersSlice.getEnabledProvidersHub_fulfilled _
  | ProvidersSlice.getEnabledProvidersHub_pending
  | ProvidersSlice.getEnabledProvidersHub_rejected => true
  | _ => false
  end.

Definition is_load_start_or_failure (a : ProvidersSlice.Action) : bool :=
  match a with
  | ProvidersSlice.getEnabledProvidersHub_pending
  | ProvidersSlice.getEnabledProvidersHub_rejected => true
  | _ => false
  end.

Definition is_load_result (a : ProvidersSlice.Action) : bool :=
  match a with
  | ProvidersSlice.getEnabledProvidersHub_fulfilled _ => true
  | _ => false
  end.

Definition is_active_result (a : ProvidersSlice.Action) : bool :=
  match a with
  | ProvidersSlice.initActiveProvidersFromLocalStorage_fulfilled _
  | ProvidersSlice.setActiveProviderAndPersist_fulfilled _ => true
  | _ => false
  end.

(** ** The tools section of the site info *)

(** [addDivider]: the reduce over the items with their index; [divider]
    is the [<Divider/>] element. *)
Definition addDivider {A} (divider : A) (items : list A) : list A :=
  fst (fold_left
         (fun (st : list A * nat) item =>
            let (acc, i) := st in
            let acc := acc ++ [item] in
            ((if negb (i =? List.length items - 1)%nat then acc ++ [divider] else acc), S i))
         items ([], 0)).

Fixpoint intersperse {A} (sep : A) (l : list A) : list A :=
  match l with
  | [] => []
  | [a] => [a]
  | a :: rest => a :: sep :: intersperse sep rest
  end.

(** A JavaScript object as the list of its own properties, in the order
    they were first set. *)
Fixpoint obj_set {V} (k : string) (v : V) (o : list (string * V)) : list (string * V) :=
  match o with
  | [] => [(k, v)]
  | (k', v') :: rest => if k' =? k then (k, v) :: rest else (k', v') :: obj_set k v rest
  end.

Fixpoint obj_get {V} (o : list (string * V)) (k : string) : option V :=
  match o with
  | [] => None
  | (k', v) :: rest => if k' =? k then Some v else obj_get rest k
  end.

(** The snapshot state of [SiteInfoToolsSection]: the lists that came back,
    in the order of the providers, keyed by provider id.  [snapshot_step] is
    the function handed to [reduce]; a name the list of names does not hold
    reads as [undefined]. *)
Definition snapshot_step {V} (hubProviderNames : list string)
    (st : list (string * V) * nat) (snapshotList : V) : list (string * V) * nat :=
  let (nextSnapshotState, i) := st in
  let provider :=
    match nth_error hubProviderNames i with
    | Some p => p
    | None => "undefined"
    end in
  (obj_set provider snapshotList nextSnapshotState, S i).

Definition snapshotState {V} (providers : list ProvidersSlice.HubProviderRecord)
    (resolvedSnapshots : list V) : list (string * V) :=
  let hubProviderNames := map ProvidersSlice.id providers in
  fst (fold_left (snapshot_step hubProviderNames) resolvedSnapshots ([], 0)).

(** ** The filters of the add-site flow *)

(** [LOCAL_ROUTES] of the constants module, as far as the filters use
    it. *)
Record LocalRoutes := {
  ADD_SITE_START : string;
  ADD_SITE_BACKUP_SITE : string;
  ADD_SITE_BACKUP_SNAPSHOT : string;
  ADD_SITE_ENVIRONMENT : string;
  ADD_SITE_CREATE_NEW : string
}.

Record Step := {
  step_key : string;
  number : nat;
  done : bool;
  active : bool;
  label : string
}.

Definition cloudBackupStepper (LOCAL_ROUTES : LocalRoutes) (pathname : string) : list Step :=
  [ {| step_key := "choose-site"; number := 1;
       done := negb (pathname =? ADD_SITE_BACKUP_SITE LOCAL_ROUTES);
       active := pathname =? ADD_SITE_BACKUP_SITE LOCAL_ROUTES;
       label := "Select Site and Name" |};
    {| step_key := "choose-snapshot"; number := 2;
       done := pathname =? ADD_SITE_ENVIRONMENT LOCAL_ROUTES;
       active := pathname =? ADD_SITE_BACKUP_SNAPSHOT LOCAL_ROUTES;
       label := "Select Backup" |};
    {| step_key := "choose-environment"; number := 3;
       done := false;
       active := pathname =? ADD_SITE_ENVIRONMENT LOCAL_ROUTES;
       label := "Set Up Environment" |} ].

(** What the breadcrumbs filter does to [defaultStepper]: leaves the host's,
    renders nothing, or renders the three steps. *)
Inductive Stepper :=
| hostStepper
| noStepper
| cloudStepper (steps : list Step).

Definition renderBreadcrumbs (LOCAL_ROUTES : LocalRoutes) (pathname : string)
    (createdFromCloudBackup : bool) : Stepper :=
  if pathname =? ADD_SITE_START LOCAL_ROUTES then noStepper
  else if (pathname =? ADD_SITE_BACKUP_SITE LOCAL_ROUTES)
          || (pathname =? ADD_SITE_BACKUP_SNAPSHOT LOCAL_ROUTES)
  then cloudStepper (cloudBackupStepper LOCAL_ROUTES pathname)
  else if createdFromCloudBackup && (pathname =? ADD_SITE_ENVIRONMENT LOCAL_ROUTES)
  then cloudStepper (cloudBackupStepper LOCAL_ROUTES pathname)
  else hostStepper.

(** A route of the add-site flow; [C] is the type of components. *)
Record Route (C : Type) := {
  route_key : string;
  route_path : string;
  component : C
}.
Arguments Build_Route {C}.
Arguments route_key {C}.
Arguments route_path {C}.
Arguments component {C}.

(** The filter on [AddSiteIndexJS:RoutesArray]; [routes_step] is the body
    of its [forEach]. *)
Definition routes_step {C} (LOCAL_ROUTES : LocalRoutes) (path : string)
    (cloudBackupRoutes : list (Route C)) (route : Route C) : list (Route C) :=
  let cloudBackupRoutes :=
    if route_path route =? path ++ "/"
    then cloudBackupRoutes
           ++ [ {| route_key := "add-site-add";
                   route_path := ADD_SITE_CREATE_NEW LOCAL_ROUTES;
                   component := component route |} ]
    else cloudBackupRoutes in
  cloudBackupRoutes ++ [route].

Definition routesArray {C} (LOCAL_ROUTES : LocalRoutes)
    (ChooseCreateSiteHOC SelectSiteBackupHOC SelectSnapshotHOC : C)
    (routes : list (Route C)) (path : string) : list (Route C) :=
  let cloudBackupRoutes :=
    [ {| route_key := "add-site-choose"; route_path := path ++ "/";
         component := ChooseCreateSiteHOC |};
      {| route_key := "add-site-select-site-backup";
         route_path := ADD_SITE_BACKUP_SITE LOCAL_ROUTES;
         component := SelectSiteBackupHOC |};
      {| route_key := "add-site-select-snapshot";
         route_path := ADD_SITE_BACKUP_SNAPSHOT LOCAL_ROUTES;
         component := SelectSnapshotHOC |} ] in
  fold_left (routes_step LOCAL_ROUTES path) routes cloudBackupRoutes.

(** The route the filter adds for a host route at the index path. *)
Definition add_site_add {C} (LOCAL_ROUTES : LocalRoutes) (route : Route C) : Route C :=
  {| route_key := "add-site-add";
     route_path := ADD_SITE_CREATE_NEW LOCAL_ROUTES;
     component := component route |}.

(** ** Further examples *)

Definition copy_fails : Call -> option Err :=
  fun c => match c with FsCopySync _ _ => Some "ENOSPC: no space left on device" | _ => None end.

(** The directory of the add-on's module, and a disk that holds the
    default ignore file next to it. *)
Definition ex_dirname : Path := ["addon"; "lib"; "main"].

Definition ex_disk_with_default : Disk :=
  (["addon"; "lib"; "resources"; "default-ignore-file"], File "node_modules") :: ex_disk.

Definition ex_sys_with_default : Sys := set_disk ex_disk_with_default ex_sys.

Definition ex_routes : LocalRoutes :=
  {| ADD_SITE_START := "/main/add-site";
     ADD_SITE_BACKUP_SITE := "/main/add-site/select-site-backup";
     ADD_SITE_BACKUP_SNAPSHOT := "/main/add-site/select-snapshot";
     ADD_SITE_ENVIRONMENT := "/main/add-site/environment";
     ADD_SITE_CREATE_NEW := "/main/add-site/add" |}.

Definition ex_providers : list ProvidersSlice.HubProviderRecord :=
  [ {| ProvidersSlice.id := "google"; ProvidersSlice.name := "Google Drive" |};
    {| ProvidersSlice.id := "dropbox"; ProvidersSlice.name := "Dropbox" |} ].

Definition removal_fails : Call -> option Err :=
  fun c => match c with FsRemove _ => Some "EBUSY: resource busy or locked" | _ => None end.
(** * Verification *)

(** ** The monad *)

Lemma bind_unfold {A B} (m : M A) (k : A -> M B) env s :
  bind m k env s =
  match m env s with
  | (Ok a, s1, t1) =>
      match k a env s1 with
      | (r, s2, t2) => (r, s2, t1 ++ t2)
      end
  | (Throw e, s1, t1) => (Throw e, s1, t1)
  end.
Proof. reflexivity. Qed.

Lemma bind_ask {A B} (f : Env -> A) (k : A -> M B) env s :
  bind (ask f) k env s = k (f env) env s.
Proof.
  unfold bind, ask. destruct (k (f env) env s) as [[r s2] t2]. reflexivity.
Qed.

Lemma bind_gets {A B} (f : Sys -> A) (k : A -> M B) env s :
  bind (gets f) k env s = k (f s) env s.
Proof.
  unfold bind, gets. destruct (k (f s) env s) as [[r s2] t2]. reflexivity.
Qed.

Lemma settled_app_none t1 t2 : settled t1 = None -> settled (t1 ++ t2) = settled t2.
Proof.
  induction t1 as [|c t1 IH]; cbn; [reflexivity|].
  destruct c; auto; discriminate.
Qed.

Lemma settled_none_iff t : settled t = None <-> Forall not_resolve t.
Proof.
  induction t as [|c t IH]; cbn.
  - split; [constructor | reflexivity].
  - split.
    + intros Hs. constructor.
      * destruct c; try reflexivity; discriminate.
      * apply IH. destruct c; try exact Hs; discriminate.
    + intros Hf. inversion Hf as [|c' t' Hc Ht]; subst.
      destruct c; try (apply IH; exact Ht). discriminate Hc.
Qed.

(** ** Frame conditions *)

#[local] Instance same_slot_preorder : PreOrder same_slot.
Proof.
  split; [intros s; reflexivity|].
  intros a b c Hab Hbc; unfold same_slot in *; congruence.
Qed.

#[local] Instance same_sites_preorder : PreOrder same_sites.
Proof.
  split; [intros s; reflexivity|].
  intros a b c Hab Hbc; unfold same_sites in *; congruence.
Qed.

#[local] Instance no_footprint_preorder : PreOrder no_footprint.
Proof.
  split; [intros s; split; reflexivity|].
  intros a b c [H1 H2] [H3 H4]; split; congruence.
Qed.

#[local] Instance keeps_preorder p : PreOrder (keeps p).
Proof.
  split; [intros s H; exact H|].
  intros a b c Hab Hbc H; auto.
Qed.

Section Sat.
Variable env : Env.
Variable P : Sys -> Sys -> Prop.
Variable Q : Call -> Prop.
Context `{PreOrder Sys P}.

Lemma sat_ret {A} (a : A) : sat env P Q (ret a).
Proof. intros s; split; [reflexivity | constructor]. Qed.

Lemma sat_throw {A} (e : Err) : sat env P Q (@throw A e).
Proof. intros s; split; [reflexivity | constructor]. Qed.

Lemma sat_ask {A} (f : Env -> A) : sat env P Q (ask f).
Proof. intros s; split; [reflexivity | constructor]. Qed.

Lemma sat_gets {A} (f : Sys -> A) : sat env P Q (gets f).
Proof. intros s; split; [reflexivity | constructor]. Qed.

Lemma sat_emit (c : Call) : Q c -> sat env P Q (emit c).
Proof. intros Hc s; split; [reflexivity | repeat constructor; exact Hc]. Qed.

Lemma sat_modify (f : Sys -> Sys) : (forall s, P s (f s)) -> sat env P Q (modify f).
Proof. intros Hf s; split; [apply Hf | constructor]. Qed.

Lemma sat_call {A} (c : Call) (eff : Sys -> A * Sys) :
  Q c -> (forall s, P s (snd (eff s))) -> sat env P Q (call c eff).
Proof.
  intros Hc Heff s. unfold call, sys_of, trace_of.
  destruct (fault env c).
  - split; [reflexivity | repeat constructor; exact Hc].
  - specialize (Heff s). destruct (eff s) as [a s']. cbn in *.
    split; [exact Heff | repeat constructor; exact Hc].
Qed.

Lemma sat_bind {A B} (m : M A) (k : A -> M B) :
  sat env P Q m -> (forall a, sat env P Q (k a)) -> sat env P Q (bind m k).
Proof.
  intros Hm Hk s. rewrite bind_unfold.
  specialize (Hm s). unfold sys_of, trace_of in *.
  destruct (m env s) as [[[a|e] s1] t1]; cbn in *; [|exact Hm].
  specialize (Hk a s1). unfold sys_of, trace_of in Hk.
  destruct (k a env s1) as [[r s2] t2]; cbn in *.
  destruct Hm as [Hp1 Hq1], Hk as [Hp2 Hq2]. split.
  - etransitivity; eassumption.
  - apply Forall_app; split; assumption.
Qed.

Lemma sat_attempt {A} (m : M A) : sat env P Q m -> sat env P Q (attempt m).
Proof.
  intros Hm s. specialize (Hm s). unfold attempt, sys_of, trace_of in *.
  destruct (m env s) as [[r s1] t1]. exact Hm.
Qed.

Lemma sat_forEach {A} (l : list A) (f : A -> M unit) :
  (forall a, sat env P Q (f a)) -> sat env P Q (forEach l f).
Proof.
  intros Hf. induction l as [|a l IH]; cbn [forEach].
  - apply sat_ret.
  - apply sat_bind; [apply Hf | intros _; exact IH].
Qed.

Lemma sat_Promise_all (l : list (M unit)) :
  Forall (sat env P Q) l -> sat env P Q (Promise_all l).
Proof.
  induction 1 as [|m l Hm Hl IH]; cbn [Promise_all].
  - apply sat_ret.
  - apply sat_bind; [apply sat_attempt; exact Hm|]. intros r.
    apply sat_bind; [apply sat_attempt; exact IH|]. intros r'.
    destruct r, r'; first [apply sat_ret | apply sat_throw].
Qed.

End Sat.

(** What [sat] says about one run. *)
Lemma sat_run {A} env P Q (m : M A) s r s' t :
  sat env P Q m -> m env s = (r, s', t) -> P s s' /\ Forall Q t.
Proof.
  intros Hm E. specialize (Hm s). rewrite E in Hm. exact Hm.
Qed.

(** Breaks a [sat] goal down along the structure of the code; what is left
    are the conditions on the calls and on the updates of the state. *)
Ltac sat_go :=
  repeat match goal with
  | |- sat _ _ _ (ret _) => apply sat_ret; typeclasses eauto
  | |- sat _ _ _ (throw _) => apply sat_throw; typeclasses eauto
  | |- sat _ _ _ (ask _) => apply sat_ask; typeclasses eauto
  | |- sat _ _ _ (gets _) => apply sat_gets; typeclasses eauto
  | |- sat _ _ _ (attempt _) => apply sat_attempt
  | |- sat _ _ _ (bind _ _) => apply sat_bind; [typeclasses eauto | | intro]
  | |- sat _ _ _ (forEach _ _) => apply sat_forEach; [typeclasses eauto | intro]
  | |- sat _ _ _ (emit _) => apply sat_emit; [typeclasses eauto | ]
  | |- sat _ _ _ (modify _) => apply sat_modify; intro
  | |- sat _ _ _ (call _ _) => apply sat_call; [typeclasses eauto | | intro]
  | |- sat _ _ _ (if ?b then _ else _) => destruct b
  | |- sat _ _ _ (match ?x with _ => _ end) => destruct x
  end.

Ltac unfold_collaborators :=
  unfold getSiteDataFromDisk, getBackupSite, dirSync, restoreResticBackup,
    fs_remove, fs_copySync, fs_emptyDirSync, removeCallback, runSiteSQLCmd,
    importSQLFile, siteData_addSite, siteProvisioner_provision,
    siteDatabase_waitForDB, changeSiteDomain_changeSiteDomainToHost,
    siteProcessManager_restart, siteProcessManager_restart_detached,
    siteProcessManager_getSiteStatus, getFilteredSiteFiles,
    logger_info, logger_warn, logger_error, send, resolve.

(** ** Paths and the disk *)

Lemma path_eqb_eq p q : path_eqb p q = true <-> p = q.
Proof.
  revert q. induction p as [|a p IH]; destruct q as [|b q]; cbn;
    try (split; [discriminate | congruence]); [tauto|].
  rewrite andb_true_iff, String.eqb_eq, IH. split.
  - intros [-> ->]; reflexivity.
  - intros E; injection E as -> ->; auto.
Qed.

Lemma path_eqb_refl p : path_eqb p p = true.
Proof. apply path_eqb_eq; reflexivity. Qed.

Lemma path_eqb_sym p q : path_eqb p q = path_eqb q p.
Proof.
  destruct (path_eqb p q) eqn:E.
  - apply path_eqb_eq in E; subst. symmetry; apply path_eqb_refl.
  - destruct (path_eqb q p) eqn:E'; [|reflexivity].
    apply path_eqb_eq in E'; subst. rewrite path_eqb_refl in E. discriminate.
Qed.

Lemma is_prefix_spec p q : is_prefix p q = true <-> exists r, q = p ++ r.
Proof.
  revert q. induction p as [|a p IH]; intros q; cbn.
  - split; [exists q; reflexivity | reflexivity].
  - destruct q as [|b q].
    + split; [discriminate | intros [r Hr]; discriminate].
    + rewrite andb_true_iff, String.eqb_eq, IH. split.
      * intros [-> [r ->]]. exists r; reflexivity.
      * intros [r Hr]. injection Hr as -> ->. split; [reflexivity | exists r; reflexivity].
Qed.

Lemma is_prefix_refl p : is_prefix p p = true.
Proof. apply is_prefix_spec. exists []. symmetry; apply app_nil_r. Qed.

Lemma is_prefix_shorter p r q : is_prefix (p ++ r) q = true -> is_prefix p q = true.
Proof.
  intros H. apply is_prefix_spec in H. destruct H as [r' ->].
  apply is_prefix_spec. exists (r ++ r'). symmetry; apply app_assoc.
Qed.

Lemma relative_spec p q r : relative p q = Some r <-> q = p ++ r.
Proof.
  revert q. induction p as [|a p IH]; intros q; cbn.
  - split; [intros E; injection E as ->; reflexivity | intros ->; reflexivity].
  - destruct q as [|b q]; [split; discriminate|].
    destruct (String.eqb_spec a b) as [->|Hne].
    + rewrite IH. split; [intros ->; reflexivity | intros E; injection E as ->; reflexivity].
    + split; [discriminate | intros E; injection E as -> _; congruence].
Qed.

Lemma child_name_spec dir p n : child_name dir p = Some n <-> p = dir ++ [n].
Proof.
  unfold child_name. destruct (relative dir p) as [r|] eqn:E.
  - apply relative_spec in E. subst p. destruct r as [|a [|b r]].
    + split; [discriminate|]. intros H. apply app_inv_head in H. discriminate.
    + split; [intros H; injection H as ->; reflexivity|].
      intros H. apply app_inv_head in H. injection H as ->. reflexivity.
    + split; [discriminate|]. intros H. apply app_inv_head in H. discriminate.
  - split; [discriminate|]. intros ->.
    assert (H : relative dir (dir ++ [n]) = Some [n]) by (apply relative_spec; reflexivity).
    congruence.
Qed.

Lemma existsSync_on_disk d p : existsSync d p = true <-> on_disk d p.
Proof.
  unfold existsSync, on_disk. rewrite existsb_exists, in_map_iff. split.
  - intros [e [Hin He]]. apply path_eqb_eq in He. exists e; auto.
  - intros [e [He Hin]]. exists e. split; [exact Hin|]. apply path_eqb_eq; exact He.
Qed.

Lemma existsSync_filter (g : Path -> bool) d p :
  existsSync (filter (fun e => g (fst e)) d) p = existsSync d p && g p.
Proof.
  unfold existsSync. induction d as [|e d IH]; cbn; [reflexivity|].
  destruct (g (fst e)) eqn:Hg; cbn; rewrite IH.
  - destruct (path_eqb (fst e) p) eqn:Hp; cbn; [|reflexivity].
    apply path_eqb_eq in Hp. rewrite <- Hp, Hg. reflexivity.
  - destruct (path_eqb (fst e) p) eqn:Hp; cbn; [|reflexivity].
    apply path_eqb_eq in Hp. rewrite <- Hp, Hg.
    rewrite andb_false_r. reflexivity.
Qed.

Lemma existsSync_remove q d p :
  existsSync (remove q d) p = existsSync d p && negb (is_prefix q p).
Proof. unfold remove. apply (existsSync_filter (fun x => negb (is_prefix q x))). Qed.

Lemma existsSync_write e d p :
  existsSync (write e d) p = path_eqb (fst e) p || existsSync d p.
Proof.
  unfold write.
  change (existsSync (e :: ?l) p) with (path_eqb (fst e) p || existsSync l p).
  rewrite (existsSync_filter (fun x => negb (path_eqb x (fst e)))).
  destruct (path_eqb (fst e) p) eqn:E; cbn; [reflexivity|].
  rewrite path_eqb_sym, E. cbn. apply andb_true_r.
Qed.

Lemma existsSync_mkdir q d p :
  existsSync (mkdir q d) p = path_eqb q p || existsSync d p.
Proof.
  unfold mkdir. destruct (existsSync d q) eqn:E; [|reflexivity].
  destruct (path_eqb q p) eqn:Hp; cbn; [|reflexivity].
  apply path_eqb_eq in Hp. subst. exact E.
Qed.

Lemma existsSync_fold_write l d p :
  existsSync d p = true -> existsSync (fold_right write d l) p = true.
Proof.
  intros H. induction l as [|e l IH]; cbn [fold_right]; [exact H|].
  rewrite existsSync_write, IH. apply orb_true_r.
Qed.

Lemma existsSync_copy src dst d p :
  existsSync d p = true -> existsSync (copy src dst d) p = true.
Proof.
  intros H. unfold copy. apply existsSync_fold_write.
  rewrite existsSync_mkdir, H. apply orb_true_r.
Qed.

Lemma existsSync_unpack dir files d p :
  existsSync d p = true -> existsSync (unpack dir files d) p = true.
Proof. intros H. unfold unpack. apply existsSync_fold_write. exact H. Qed.

Lemma existsb_filter_negb {A} (g : A -> bool) l :
  existsb g (filter (fun x => negb (g x)) l) = false.
Proof.
  induction l as [|a l IH]; cbn; [reflexivity|].
  destruct (g a) eqn:E; cbn; [exact IH|]. rewrite E, IH. reflexivity.
Qed.

Lemma is_below_irrefl p : is_below p p = false.
Proof. unfold is_below. rewrite path_eqb_refl, andb_false_r. reflexivity. Qed.

Lemma has_children_emptyDir p d : has_children p (emptyDir p d) = false.
Proof.
  unfold has_children, emptyDir, mkdir.
  pose proof (existsb_filter_negb (fun e : Path * Node => is_below p (fst e)) d) as H.
  destruct (existsSync _ p); cbn; [exact H|].
  rewrite is_below_irrefl, H. reflexivity.
Qed.

Lemma existsSync_remove_self p d : existsSync (remove p d) p = false.
Proof. rewrite existsSync_remove, is_prefix_refl. apply andb_false_r. Qed.

(** ** The ignore-files helper *)

Lemma is_dotfile_conf n : is_dotfile n = true -> n <> "conf"%string.
Proof. intros H ->. discriminate H. Qed.

Lemma glob_sync_spec d dir pat p :
  In p (glob_sync d dir pat) <->
  on_disk d p /\ exists n, p = dir ++ [n] /\ segment_matches pat n = true.
Proof.
  unfold glob_sync, on_disk. rewrite !in_map_iff. split.
  - intros [e [<- He]]. apply filter_In in He. destruct He as [Hin Hm].
    split; [exists e; auto|].
    destruct (child_name dir (fst e)) as [n|] eqn:Hc; [|discriminate].
    exists n. split; [apply child_name_spec; exact Hc | exact Hm].
  - intros [[e [<- Hin]] [n [Hp Hm]]]. exists e. split; [reflexivity|].
    apply filter_In. split; [exact Hin|].
    apply child_name_spec in Hp. rewrite Hp. exact Hm.
Qed.

(** What [getFilteredSiteFiles] lists: every direct child of the site path
    except [conf], dotfiles included. *)
Lemma filteredSiteFiles_spec d sitePath p :
  In p (filteredSiteFiles d sitePath) <->
  on_disk d p /\ exists n, p = sitePath ++ [n] /\ n <> "conf"%string.
Proof.
  unfold filteredSiteFiles. rewrite in_app_iff, !glob_sync_spec. split.
  - intros [[Hd [n [Hp Hm]]] | [Hd [n [Hp Hm]]]]; (split; [exact Hd|]); exists n;
      (split; [exact Hp|]); cbn in Hm.
    + apply andb_true_iff in Hm. destruct Hm as [_ Hm].
      rewrite orb_false_r in Hm. apply negb_true_iff in Hm.
      apply String.eqb_neq. exact Hm.
    + apply is_dotfile_conf. exact Hm.
  - intros [Hd [n [Hp Hn]]].
    destruct (is_dotfile n) eqn:Hdot.
    + right. split; [exact Hd|]. exists n. auto.
    + left. split; [exact Hd|]. exists n. split; [exact Hp|]. cbn.
      rewrite Hdot. cbn. rewrite orb_false_r. apply negb_true_iff.
      apply String.eqb_neq. exact Hn.
Qed.

Lemma filteredSiteFiles_child d sitePath p q :
  In p (filteredSiteFiles d sitePath) -> is_prefix p q = true ->
  is_prefix sitePath q = true.
Proof.
  intros Hin Hpre. apply filteredSiteFiles_spec in Hin.
  destruct Hin as [_ [n [-> _]]]. eapply is_prefix_shorter; exact Hpre.
Qed.

(** ** The interpreter *)

Lemma advance_n_invariant {St Ctx Data : Type}
    (cfg : MachineConfig St Ctx Data) (L : Listeners St Ctx) (env : Env)
    (Inv : nat -> Service St Ctx -> Sys -> Trace -> Prop) :
  (forall n svc s t, Inv (S n) svc s t ->
     exists svc' s' t', advance cfg L svc env s = (Ok svc', s', t')
                        /\ Inv n svc' s' (t ++ t')) ->
  forall n svc s t, Inv n svc s t ->
    exists svc' s' t', advance_n cfg L n svc env s = (Ok svc', s', t')
                       /\ Inv 0 svc' s' (t ++ t').
Proof.
  intros Hstep. induction n as [|n IH]; intros svc s t HI.
  - exists svc, s, []. split; [reflexivity|]. rewrite app_nil_r. exact HI.
  - destruct (Hstep n svc s t HI) as (svc1 & s1 & t1 & E1 & HI1).
    destruct (IH svc1 s1 (t ++ t1) HI1) as (svc2 & s2 & t2 & E2 & HI2).
    exists svc2, s2, (t1 ++ t2). split.
    + cbn [advance_n]. rewrite bind_unfold, E1, E2. reflexivity.
    + rewrite app_assoc. exact HI2.
Qed.

(** ** The restore service *)

Lemma restore_src_slot env X ctx :
  sat env same_slot not_resolve (restore_src X ctx).
Proof.
  destruct X; unfold restore_src; cbn [states Restore.restoreMachine];
    unfold Restore.getCredentials, Restore.createTmpDir, Restore.restoreBackup,
      Restore.moveSiteFromTmpDir, Restore.importDatabase;
    unfold_collaborators; sat_go;
    try reflexivity; try (destruct q; reflexivity).
  apply sat_Promise_all; [typeclasses eauto|]. apply Forall_forall. intros m Hm.
  apply in_map_iff in Hm. destruct Hm as [p [<- _]].
  unfold fs_remove; sat_go; reflexivity.
Qed.

Lemma restore_removeTmpDir_slot env ctx :
  sat env same_slot not_resolve (Restore.removeTmpDir ctx).
Proof.
  unfold Restore.removeTmpDir; unfold_collaborators; sat_go; reflexivity.
Qed.

(** [Restore.step] is the relation [restore_step], and never throws. *)
Lemma restore_step_spec env svc s :
  exists svc' s' t',
    Restore.step svc env s = (Ok svc', s', t') /\ restore_step env svc s svc' s' t'.
Proof.
  destruct svc as [X ctx st vis].
  destruct st;
    try (exists (Build_Service X ctx NotStarted vis), s, []; split;
           [reflexivity | constructor; left; discriminate]);
    try (exists (Build_Service X ctx Stopped vis), s, []; split;
           [reflexivity | constructor; left; discriminate]).
  destruct (is_final Restore.restoreMachine X) eqn:HX.
  { exists (Build_Service X ctx Running vis), s, []. split.
    - destruct X; try discriminate HX; reflexivity.
    - constructor; right; exact HX. }
  destruct (restore_src X ctx env s) as [[[d|e] s1] t1] eqn:Hsrc.
  - destruct (is_final Restore.restoreMachine (restore_next X)) eqn:HN.
    + destruct (Restore.removeTmpDir (restore_assign X d ctx) env s1)
        as [[r s2] t2] eqn:Hrm.
      assert (HF : restore_next X = Restore.finished)
        by (destruct X; try discriminate HX; try discriminate HN; reflexivity).
      eexists _, _, _. split.
      2:{ eapply restore_finishes with (d := d); cbn [status value context]; eauto. }
      unfold Restore.step, advance, restore_src in *.
      destruct X; try discriminate HX; try discriminate HN;
        cbn [states Restore.restoreMachine status value context] in *.
      rewrite bind_unfold; unfold attempt at 1; rewrite Hsrc.
      unfold restore_assign in Hrm; cbn in Hrm.
      unfold take.
      cbn [actions target run_effects forEach apply_assigns fold_left states
           Restore.restoreMachine lookup_action context value].
      rewrite !bind_unfold. cbn [ret].
      cbn [find options_actions Restore.restoreMachine fst snd String.eqb Ascii.eqb Bool.eqb].
      rewrite !bind_unfold. unfold attempt at 1. rewrite Hrm.
      cbn. rewrite ?app_nil_r. reflexivity.
    + eexists _, _, _. split.
      2:{ eapply restore_moves with (d := d); cbn [status value context]; eauto. }
      unfold Restore.step, advance, restore_src in *.
      destruct X; try discriminate HX; try discriminate HN;
        cbn [states Restore.restoreMachine status value context] in *;
        rewrite bind_unfold; unfold attempt at 1; rewrite Hsrc; reflexivity.
  - eexists _, _, _. split.
    2:{ eapply restore_throws with (e := e); cbn [status value context]; eauto. }
    unfold Restore.step, advance, restore_src in *.
    destruct X; try discriminate HX;
      cbn [states Restore.restoreMachine status value context] in *;
      rewrite bind_unfold; unfold attempt at 1; rewrite Hsrc; reflexivity.
Qed.

Lemma filter_resolve_none t : Forall not_resolve t -> filter is_resolve t = [].
Proof.
  induction 1 as [|c t Hc Ht IH]; cbn; [reflexivity|].
  unfold not_resolve in Hc. rewrite Hc. exact IH.
Qed.

Lemma restore_next_index X :
  is_final Restore.restoreMachine X = false ->
  (is_final Restore.restoreMachine (restore_next X) = false \/
   restore_next X = Restore.finished) ->
  restore_index (restore_next X) = S (restore_index X).
Proof.
  destruct X; intros H1 [H2|H2]; try discriminate; reflexivity.
Qed.

Lemma restore_assign_error X d ctx :
  Restore.error (restore_assign X d ctx) = Restore.error ctx.
Proof. destruct X, d; reflexivity. Qed.

Lemma restore_assign_site X d ctx :
  Restore.site (restore_assign X d ctx) = Restore.site ctx /\
  Restore.initialSiteStatus (restore_assign X d ctx) = Restore.initialSiteStatus ctx.
Proof. destruct X, d; split; reflexivity. Qed.

Lemma restore_wf_step env n svc s t svc' s' t' :
  restore_step env svc s svc' s' t' ->
  restore_wf (S n) svc s t ->
  restore_wf n svc' s' (t ++ t').
Proof.
  intros Hstep Hwf.
  unfold restore_wf in Hwf.
  inversion Hstep as [Hidle | e s1 t1 Hst HX Hsrc | d s1 t1 Hst HX HN Hsrc
                      | d s1 t1 r s2 t2 Hst HX HN Hsrc Hrm]; subst; clear Hstep.
  - rewrite app_nil_r. unfold restore_wf.
    destruct (status svc') eqn:Hst; [exact Hwf | | exact Hwf].
    destruct Hwf as (HX & _). destruct Hidle as [Hc|Hc]; congruence.
  - rewrite Hst in Hwf. destruct Hwf as (_ & Hidx & Hslot & Hset & Hvis & Herr).
    destruct (sat_run _ _ _ _ _ _ _ _ (restore_src_slot env _ _) Hsrc) as [Hs1 Hq1].
    unfold restore_wf; cbn [status restore_failed value context visited].
    repeat split.
    + rewrite settled_app_none by exact Hset.
      rewrite settled_app_none by (apply settled_none_iff; exact Hq1).
      reflexivity.
    + rewrite !filter_app.
      rewrite (filter_resolve_none t) by (apply settled_none_iff; exact Hset).
      rewrite (filter_resolve_none t1) by exact Hq1. reflexivity.
    + right. repeat split.
      * exists (restore_index (value svc)). split; [lia|]. rewrite Hvis. reflexivity.
      * discriminate.
  - rewrite Hst in Hwf. destruct Hwf as (_ & Hidx & Hslot & Hset & Hvis & Herr).
    destruct (sat_run _ _ _ _ _ _ _ _ (restore_src_slot env _ _) Hsrc) as [Hs1 Hq1].
    unfold restore_wf; cbn [status restore_moved value context visited].
    rewrite (restore_next_index _ HX (or_introl HN)).
    repeat split.
    + exact HN.
    + lia.
    + rewrite Hs1. exact Hslot.
    + rewrite settled_app_none by exact Hset.
      rewrite settled_app_none by (apply settled_none_iff; exact Hq1).
      reflexivity.
    + rewrite Hvis. destruct (value svc); try discriminate HX; try discriminate HN;
        reflexivity.
    + rewrite restore_assign_error. exact Herr.
  - rewrite Hst in Hwf. destruct Hwf as (_ & Hidx & Hslot & Hset & Hvis & Herr).
    destruct (sat_run _ _ _ _ _ _ _ _ (restore_src_slot env _ _) Hsrc) as [Hs1 Hq1].
    destruct (sat_run _ _ _ _ _ _ _ _ (restore_removeTmpDir_slot env _) Hrm)
      as [Hs2 Hq2].
    unfold restore_wf; cbn [status restore_moved value context visited].
    repeat split.
    + rewrite settled_app_none by exact Hset.
      rewrite settled_app_none by (apply settled_none_iff; exact Hq1).
      rewrite settled_app_none by (apply settled_none_iff; exact Hq2).
      reflexivity.
    + rewrite !filter_app.
      rewrite (filter_resolve_none t) by (apply settled_none_iff; exact Hset).
      rewrite (filter_resolve_none t1) by exact Hq1.
      rewrite (filter_resolve_none t2) by exact Hq2. reflexivity.
    + left. repeat split.
      * exact HN.
      * rewrite Hvis, HN.
        destruct (value svc); try discriminate HX; try discriminate HN; reflexivity.
      * rewrite restore_assign_error. exact Herr.
Qed.

(** A run let past the guard: the call starts the service, five
    settled invocations later it has stopped. *)
Lemma restore_accepted env s opts :
  inProgressStateMachine s = None ->
  exists svc t,
    Restore.restoreFromBackup opts env s
      = (Ok (Some svc), set_slot (Some "restoreBackup") s, t) /\
    restore_wf 5 svc (set_slot (Some "restoreBackup") s) t /\
    Restore.site (context svc) = Restore.opts_site opts /\
    Restore.initialSiteStatus (context svc) = site_status env (Restore.opts_site opts) /\
    Restore.tmpDirData (context svc) = None /\
    value svc = Restore.gettingBackupCredentials /\
    t = GetSiteStatus (Restore.opts_site opts)
          :: transition_trace env "gettingBackupCredentials".
Proof.
  intros Hslot. unfold Restore.restoreFromBackup.
  rewrite bind_unfold. unfold gets at 1. rewrite Hslot.
  eexists _, _. split; [reflexivity|].
  cbn. repeat split; reflexivity.
Qed.

(** A property that every settled invocation maintains holds at the end of
    the run. *)
Lemma restore_run_invariant env (Inv : nat -> Restore.Service -> Sys -> Trace -> Prop) :
  (forall n svc s t svc' s' t',
     restore_step env svc s svc' s' t' -> Inv (S n) svc s t -> Inv n svc' s' (t ++ t')) ->
  forall svc s t, Inv 5 svc s t ->
    exists svc' s' t',
      Restore.run svc env s = (Ok svc', s', t') /\ Inv 0 svc' s' (t ++ t').
Proof.
  intros Hpres svc s t HI. unfold Restore.run.
  apply (advance_n_invariant Restore.restoreMachine Restore.listeners env Inv); [|exact HI].
  intros n svc0 s0 t0 H0.
  destruct (restore_step_spec env svc0 s0) as (svc1 & s1 & t1 & E & Hstep).
  exists svc1, s1, t1. split; [exact E|]. eapply Hpres; eassumption.
Qed.

(** The same from the entry point: what holds of the service the call
    starts, and is maintained, holds when the workflow has ended. *)
Lemma restore_invariant env s opts (Inv : nat -> Restore.Service -> Sys -> Trace -> Prop) :
  inProgressStateMachine s = None ->
  (forall n svc s t svc' s' t',
     restore_step env svc s svc' s' t' -> Inv (S n) svc s t -> Inv n svc' s' (t ++ t')) ->
  (forall svc t,
     Restore.restoreFromBackup opts env s = (Ok (Some svc), set_slot (Some "restoreBackup") s, t) ->
     Inv 5 svc (set_slot (Some "restoreBackup") s) t) ->
  exists svc s' t,
    Restore.restore opts env s = (Ok (Some svc), s', t) /\ Inv 0 svc s' t.
Proof.
  intros Hslot Hpres Hinit.
  destruct (restore_accepted env s opts Hslot) as (svc0 & t0 & E0 & _).
  destruct (restore_run_invariant env Inv Hpres svc0 _ t0 (Hinit svc0 t0 E0))
    as (svc1 & s1 & t1 & E1 & HI).
  exists svc1, s1, (t0 ++ t1). split; [|exact HI].
  unfold Restore.restore. rewrite bind_unfold, E0, bind_unfold, E1. cbn.
  rewrite app_nil_r. reflexivity.
Qed.

Lemma restore_wf_0 svc s t :
  restore_wf 0 svc s t -> status svc = Stopped.
Proof.
  unfold restore_wf. destruct (status svc); [tauto | | reflexivity].
  intros (HX & Hidx & _). exfalso.
  destruct (value svc); cbn in Hidx; try lia; discriminate HX.
Qed.

(** ** The clone service *)

Ltac unfold_clone :=
  unfold Clone.getCredentials, Clone.setupDestinationSite, Clone.createTmpDir,
    Clone.cloneBackup, Clone.moveSiteFromTmpDir, Clone.provisionSite,
    Clone.importDatabase, Clone.searchReplace, Clone.removeTmpDir.

Lemma clone_src_slot env X ctx :
  sat env same_slot not_resolve (clone_src X ctx).
Proof.
  destruct X; unfold clone_src; cbn [states Clone.cloneMachine];
    unfold_clone; unfold_collaborators; sat_go;
    try reflexivity; try (destruct q; reflexivity).
Qed.

Lemma clone_removeTmpDir_slot env ctx :
  sat env same_slot not_resolve (Clone.removeTmpDir ctx).
Proof.
  unfold Clone.removeTmpDir; unfold_collaborators; sat_go; reflexivity.
Qed.

(** [Clone.step] is the relation [clone_step], and never throws. *)
Lemma clone_step_spec env svc s :
  exists svc' s' t',
    Clone.step svc env s = (Ok svc', s', t') /\ clone_step env svc s svc' s' t'.
Proof.
  destruct svc as [X ctx st vis].
  destruct st;
    try (exists (Build_Service X ctx NotStarted vis), s, []; split;
           [reflexivity | constructor; left; discriminate]);
    try (exists (Build_Service X ctx Stopped vis), s, []; split;
           [reflexivity | constructor; left; discriminate]).
  destruct (is_final Clone.cloneMachine X) eqn:HX.
  { exists (Build_Service X ctx Running vis), s, []. split.
    - destruct X; try discriminate HX; reflexivity.
    - constructor; right; exact HX. }
  destruct (clone_src X ctx env s) as [[[d|e] s1] t1] eqn:Hsrc.
  - destruct (is_final Clone.cloneMachine (clone_next X)) eqn:HN.
    + destruct (Clone.removeTmpDir (clone_assign X d ctx) env s1)
        as [[r s2] t2] eqn:Hrm.
      assert (HF : clone_next X = Clone.finished)
        by (destruct X; try discriminate HX; try discriminate HN; reflexivity).
      eexists _, _, _. split.
      2:{ eapply clone_finishes with (d := d); cbn [status value context]; eauto. }
      unfold Clone.step, advance, clone_src in *.
      destruct X; try discriminate HX; try discriminate HN;
        cbn [states Clone.cloneMachine status value context] in *.
      rewrite bind_unfold; unfold attempt at 1; rewrite Hsrc.
      unfold clone_assign in Hrm; cbn in Hrm.
      unfold take.
      cbn [actions target run_effects forEach apply_assigns fold_left states
           Clone.cloneMachine lookup_action context value].
      rewrite !bind_unfold. cbn [ret].
      cbn [find options_actions Clone.cloneMachine fst snd String.eqb Ascii.eqb Bool.eqb].
      rewrite !bind_unfold. unfold attempt at 1. rewrite Hrm.
      cbn. rewrite ?app_nil_r. reflexivity.
    + eexists _, _, _. split.
      2:{ eapply clone_moves with (d := d); cbn [status value context]; eauto. }
      unfold Clone.step, advance, clone_src in *.
      destruct X; try discriminate HX; try discriminate HN;
        cbn [states Clone.cloneMachine status value context] in *;
        rewrite bind_unfold; unfold attempt at 1; rewrite Hsrc; reflexivity.
  - eexists _, _, _. split.
    2:{ eapply clone_throws with (e := e); cbn [status value context]; eauto. }
    unfold Clone.step, advance, clone_src in *.
    destruct X; try discriminate HX;
      cbn [states Clone.cloneMachine status value context] in *;
      rewrite bind_unfold; unfold attempt at 1; rewrite Hsrc; reflexivity.
Qed.

Lemma clone_next_index X :
  is_final Clone.cloneMachine X = false ->
  (is_final Clone.cloneMachine (clone_next X) = false \/
   clone_next X = Clone.finished) ->
  clone_index (clone_next X) = S (clone_index X).
Proof.
  destruct X; intros H1 [H2|H2]; try discriminate; reflexivity.
Qed.

Lemma clone_assign_error X d ctx :
  Clone.error (clone_assign X d ctx) = Clone.error ctx.
Proof. destruct X, d; reflexivity. Qed.

Lemma clone_wf_step env n svc s t svc' s' t' :
  clone_step env svc s svc' s' t' ->
  clone_wf (S n) svc s t ->
  clone_wf n svc' s' (t ++ t').
Proof.
  intros Hstep Hwf.
  unfold clone_wf in Hwf.
  inversion Hstep as [Hidle | e s1 t1 Hst HX Hsrc | d s1 t1 Hst HX HN Hsrc
                      | d s1 t1 r s2 t2 Hst HX HN Hsrc Hrm]; subst; clear Hstep.
  - rewrite app_nil_r. unfold clone_wf.
    destruct (status svc') eqn:Hst; [exact Hwf | | exact Hwf].
    destruct Hwf as (HX & _). destruct Hidle as [Hc|Hc]; congruence.
  - rewrite Hst in Hwf. destruct Hwf as (_ & Hidx & Hslot & Hset & Hvis & Herr).
    destruct (sat_run _ _ _ _ _ _ _ _ (clone_src_slot env _ _) Hsrc) as [Hs1 Hq1].
    unfold clone_wf; cbn [status clone_failed value context visited].
    repeat split.
    + rewrite settled_app_none by exact Hset.
      rewrite settled_app_none by (apply settled_none_iff; exact Hq1).
      destruct (value svc); reflexivity.
    + rewrite !filter_app.
      rewrite (filter_resolve_none t) by (apply settled_none_iff; exact Hset).
      rewrite (filter_resolve_none t1) by exact Hq1.
      destruct (value svc); reflexivity.
    + right. repeat split.
      * exists (clone_index (value svc)). split; [lia|]. rewrite Hvis. reflexivity.
      * discriminate.
  - rewrite Hst in Hwf. destruct Hwf as (_ & Hidx & Hslot & Hset & Hvis & Herr).
    destruct (sat_run _ _ _ _ _ _ _ _ (clone_src_slot env _ _) Hsrc) as [Hs1 Hq1].
    unfold clone_wf; cbn [status clone_moved value context visited].
    rewrite (clone_next_index _ HX (or_introl HN)).
    repeat split.
    + exact HN.
    + lia.
    + rewrite Hs1. exact Hslot.
    + rewrite settled_app_none by exact Hset.
      rewrite settled_app_none by (apply settled_none_iff; exact Hq1).
      reflexivity.
    + rewrite Hvis. destruct (value svc); try discriminate HX; try discriminate HN;
        reflexivity.
    + rewrite clone_assign_error. exact Herr.
  - rewrite Hst in Hwf. destruct Hwf as (_ & Hidx & Hslot & Hset & Hvis & Herr).
    destruct (sat_run _ _ _ _ _ _ _ _ (clone_src_slot env _ _) Hsrc) as [Hs1 Hq1].
    destruct (sat_run _ _ _ _ _ _ _ _ (clone_removeTmpDir_slot env _) Hrm)
      as [Hs2 Hq2].
    unfold clone_wf; cbn [status clone_moved value context visited].
    repeat split.
    + rewrite settled_app_none by exact Hset.
      rewrite settled_app_none by (apply settled_none_iff; exact Hq1).
      rewrite settled_app_none by (apply settled_none_iff; exact Hq2).
      reflexivity.
    + rewrite !filter_app.
      rewrite (filter_resolve_none t) by (apply settled_none_iff; exact Hset).
      rewrite (filter_resolve_none t1) by exact Hq1.
      rewrite (filter_resolve_none t2) by exact Hq2. reflexivity.
    + left. repeat split.
      * exact HN.
      * rewrite Hvis, HN.
        destruct (value svc); try discriminate HX; try discriminate HN; reflexivity.
      * rewrite clone_assign_error. exact Herr.
Qed.

Lemma clone_accepted env s opts :
  inProgressStateMachine s = None ->
  exists svc t,
    Clone.cloneFromBackup opts env s
      = (Ok (Some svc), set_slot (Some "cloneFromBackup") s, t) /\
    clone_wf 8 svc (set_slot (Some "cloneFromBackup") s) t /\
    Forall no_destination_call t /\
    Clone.baseSite (context svc) = Clone.opts_baseSite opts /\
    Clone.newSiteName (context svc) = Clone.opts_newSiteName opts /\
    Clone.destinationSite (context svc) = None /\
    Clone.tmpDirData (context svc) = None /\
    value svc = Clone.gettingBackupCredentials.
Proof.
  intros Hslot. unfold Clone.cloneFromBackup.
  rewrite bind_unfold. unfold gets at 1. rewrite Hslot.
  eexists _, _. split; [reflexivity|].
  cbn. repeat split; try reflexivity. repeat constructor.
Qed.

(** A property that every settled invocation maintains holds at the end of
    the run. *)
Lemma clone_run_invariant env (Inv : nat -> Clone.Service -> Sys -> Trace -> Prop) :
  (forall n svc s t svc' s' t',
     clone_step env svc s svc' s' t' -> Inv (S n) svc s t -> Inv n svc' s' (t ++ t')) ->
  forall svc s t, Inv 8 svc s t ->
    exists svc' s' t',
      Clone.run svc env s = (Ok svc', s', t') /\ Inv 0 svc' s' (t ++ t').
Proof.
  intros Hpres svc s t HI. unfold Clone.run.
  apply (advance_n_invariant Clone.cloneMachine Clone.listeners env Inv); [|exact HI].
  intros n svc0 s0 t0 H0.
  destruct (clone_step_spec env svc0 s0) as (svc1 & s1 & t1 & E & Hstep).
  exists svc1, s1, t1. split; [exact E|]. eapply Hpres; eassumption.
Qed.

(** The same from the entry point: what holds of the service the call
    starts, and is maintained, holds when the workflow has ended. *)
Lemma clone_invariant env s opts (Inv : nat -> Clone.Service -> Sys -> Trace -> Prop) :
  inProgressStateMachine s = None ->
  (forall n svc s t svc' s' t',
     clone_step env svc s svc' s' t' -> Inv (S n) svc s t -> Inv n svc' s' (t ++ t')) ->
  (forall svc t,
     Clone.cloneFromBackup opts env s = (Ok (Some svc), set_slot (Some "cloneFromBackup") s, t) ->
     Inv 8 svc (set_slot (Some "cloneFromBackup") s) t) ->
  exists svc s' t,
    Clone.clone opts env s = (Ok (Some svc), s', t) /\ Inv 0 svc s' t.
Proof.
  intros Hslot Hpres Hinit.
  destruct (clone_accepted env s opts Hslot) as (svc0 & t0 & E0 & _).
  destruct (clone_run_invariant env Inv Hpres svc0 _ t0 (Hinit svc0 t0 E0))
    as (svc1 & s1 & t1 & E1 & HI).
  exists svc1, s1, (t0 ++ t1). split; [|exact HI].
  unfold Clone.clone. rewrite bind_unfold, E0, bind_unfold, E1. cbn.
  rewrite app_nil_r. reflexivity.
Qed.

Lemma clone_wf_0 svc s t :
  clone_wf 0 svc s t -> status svc = Stopped.
Proof.
  unfold clone_wf. destruct (status svc); [tauto | | reflexivity].
  intros (HX & Hidx & _). exfalso.
  destruct (value svc); cbn in Hidx; try lia; discriminate HX.
Qed.

(** * The claims *)

Lemma restore_rejected env s m opts :
  inProgressStateMachine s = Some m ->
  Restore.restoreFromBackup opts env s = (Ok None, s, [Logger "warn" Restore.busy_warning]).
Proof.
  intros Hslot. unfold Restore.restoreFromBackup.
  rewrite bind_unfold. unfold gets at 1. rewrite Hslot. reflexivity.
Qed.

Lemma clone_rejected env s m opts :
  inProgressStateMachine s = Some m ->
  Clone.cloneFromBackup opts env s = (Ok None, s, [Logger "warn" Clone.busy_warning]).
Proof.
  intros Hslot. unfold Clone.cloneFromBackup.
  rewrite bind_unfold. unfold gets at 1. rewrite Hslot. reflexivity.
Qed.

(** The slot across one settled invocation: untouched while the service
    runs on, empty once it has stopped. *)
Lemma restore_step_slot env svc s svc' s' t :
  restore_step env svc s svc' s' t ->
  status svc = Running -> is_final Restore.restoreMachine (value svc) = false ->
  inProgressStateMachine s' =
    (if is_final Restore.restoreMachine (value svc') then None
     else inProgressStateMachine s) /\
  (status svc' = Stopped <-> is_final Restore.restoreMachine (value svc') = true).
Proof.
  intros Hstep Hrun Hnf.
  inversion Hstep as [Hidle | e s1 t1 Hst HX Hsrc | d s1 t1 Hst HX HN Hsrc
                      | d s1 t1 r s2 t2 Hst HX HN Hsrc Hrm]; subst; clear Hstep.
  - destruct Hidle; congruence.
  - cbn. split; [reflexivity | tauto].
  - cbn [restore_moved value status]. rewrite HN.
    destruct (sat_run _ _ _ _ _ _ _ _ (restore_src_slot env _ _) Hsrc) as [Hs1 _].
    split; [exact Hs1 | split; discriminate].
  - cbn [restore_moved value status]. rewrite HN. cbn. split; [reflexivity | tauto].
Qed.

Lemma clone_step_slot env svc s svc' s' t :
  clone_step env svc s svc' s' t ->
  status svc = Running -> is_final Clone.cloneMachine (value svc) = false ->
  inProgressStateMachine s' =
    (if is_final Clone.cloneMachine (value svc') then None
     else inProgressStateMachine s) /\
  (status svc' = Stopped <-> is_final Clone.cloneMachine (value svc') = true).
Proof.
  intros Hstep Hrun Hnf.
  inversion Hstep as [Hidle | e s1 t1 Hst HX Hsrc | d s1 t1 Hst HX HN Hsrc
                      | d s1 t1 r s2 t2 Hst HX HN Hsrc Hrm]; subst; clear Hstep.
  - destruct Hidle; congruence.
  - cbn. split; [reflexivity | tauto].
  - cbn [clone_moved value status]. rewrite HN.
    destruct (sat_run _ _ _ _ _ _ _ _ (clone_src_slot env _ _) Hsrc) as [Hs1 _].
    split; [exact Hs1 | split; discriminate].
  - cbn [clone_moved value status]. rewrite HN. cbn. split; [reflexivity | tauto].
Qed.

(** C1. Single-flight guard.  While the slot is occupied, whoever holds it,
    [restoreFromBackup] and [cloneFromBackup] return [undefined] having
    only logged a warning: no context, no interpreter, and [Sys] (slot,
    disk, registry, MySQL) is the one they found, so whatever the workflow
    in flight goes on to do, it does the same.  When the slot is free the
    call fills it with its own interpreter; one settled invocation leaves
    the slot alone as long as the service runs on and empties it when the
    service stops, which is when it reaches [finished] or [failed]; at the
    end of the run the slot is empty. *)
Theorem single_flight_guard env s m ropts copts :
  inProgressStateMachine s = Some m ->
  Restore.restoreFromBackup ropts env s
    = (Ok None, s, [Logger "warn" Restore.busy_warning]) /\
  Clone.cloneFromBackup copts env s
    = (Ok None, s, [Logger "warn" Clone.busy_warning]) /\
  (forall (inflight : Restore.Service),
     Restore.run inflight env (sys_of (Restore.restoreFromBackup ropts env s))
       = Restore.run inflight env s /\
     Restore.run inflight env (sys_of (Clone.cloneFromBackup copts env s))
       = Restore.run inflight env s) /\
  (forall (inflight : Clone.Service),
     Clone.run inflight env (sys_of (Restore.restoreFromBackup ropts env s))
       = Clone.run inflight env s /\
     Clone.run inflight env (sys_of (Clone.cloneFromBackup copts env s))
       = Clone.run inflight env s) /\
  (forall s0, inProgressStateMachine s0 = None ->
     (exists svc s1 t,
        Restore.restoreFromBackup ropts env s0 = (Ok (Some svc), s1, t) /\
        status svc = Running /\
        inProgressStateMachine s1 = Some (machine_id Restore.restoreMachine)) /\
     (exists svc s1 t,
        Clone.cloneFromBackup copts env s0 = (Ok (Some svc), s1, t) /\
        status svc = Running /\
        inProgressStateMachine s1 = Some (machine_id Clone.cloneMachine)) /\
     (exists svc s1 t,
        Restore.restore ropts env s0 = (Ok (Some svc), s1, t) /\
        status svc = Stopped /\ inProgressStateMachine s1 = None) /\
     (exists svc s1 t,
        Clone.clone copts env s0 = (Ok (Some svc), s1, t) /\
        status svc = Stopped /\ inProgressStateMachine s1 = None)) /\
  (forall (svc : Restore.Service) s0,
     status svc = Running -> is_final Restore.restoreMachine (value svc) = false ->
     exists svc' s1 t,
       Restore.step svc env s0 = (Ok svc', s1, t) /\
       inProgressStateMachine s1 =
         (if is_final Restore.restoreMachine (value svc') then None
          else inProgressStateMachine s0) /\
       (status svc' = Stopped <-> is_final Restore.restoreMachine (value svc') = true)) /\
  (forall (svc : Clone.Service) s0,
     status svc = Running -> is_final Clone.cloneMachine (value svc) = false ->
     exists svc' s1 t,
       Clone.step svc env s0 = (Ok svc', s1, t) /\
       inProgressStateMachine s1 =
         (if is_final Clone.cloneMachine (value svc') then None
          else inProgressStateMachine s0) /\
       (status svc' = Stopped <-> is_final Clone.cloneMachine (value svc') = true)).
Proof.
  intros Hslot.
  pose proof (restore_rejected env s m ropts Hslot) as Hr.
  pose proof (clone_rejected env s m copts Hslot) as Hc.
  split; [exact Hr|]. split; [exact Hc|].
  split; [intros inflight; rewrite Hr, Hc; split; reflexivity|].
  split; [intros inflight; rewrite Hr, Hc; split; reflexivity|].
  split; [|split].
  - intros s0 H0. repeat split.
    + destruct (restore_accepted env s0 ropts H0) as (svc & t & E & Hwf & _ & _ & _ & Hv & _).
      eexists svc, _, t. split; [exact E|]. split; [|reflexivity].
      unfold restore_wf in Hwf. destruct (status svc); try reflexivity; try tauto.
      destruct Hwf as (Hs & _). cbn in Hs. discriminate Hs.
    + destruct (clone_accepted env s0 copts H0)
        as (svc & t & E & Hwf & _ & _ & _ & _ & _ & Hv).
      eexists svc, _, t. split; [exact E|]. split; [|reflexivity].
      unfold clone_wf in Hwf. destruct (status svc); try reflexivity; try tauto.
      destruct Hwf as (Hs & _). cbn in Hs. discriminate Hs.
    + destruct (restore_invariant env s0 ropts restore_wf H0) as (svc & s1 & t & E & Hwf).
      * intros; eapply restore_wf_step; eassumption.
      * intros svc t E.
        destruct (restore_accepted env s0 ropts H0) as (svc' & t' & E' & Hwf & _).
        rewrite E in E'. injection E' as <- <-. exact Hwf.
      * exists svc, s1, t. split; [exact E|].
        pose proof (restore_wf_0 _ _ _ Hwf) as Hst. split; [exact Hst|].
        unfold restore_wf in Hwf. rewrite Hst in Hwf. tauto.
    + destruct (clone_invariant env s0 copts clone_wf H0) as (svc & s1 & t & E & Hwf).
      * intros; eapply clone_wf_step; eassumption.
      * intros svc t E.
        destruct (clone_accepted env s0 copts H0) as (svc' & t' & E' & Hwf & _).
        rewrite E in E'. injection E' as <- <-. exact Hwf.
      * exists svc, s1, t. split; [exact E|].
        pose proof (clone_wf_0 _ _ _ Hwf) as Hst. split; [exact Hst|].
        unfold clone_wf in Hwf. rewrite Hst in Hwf. tauto.
  - intros svc s0 Hrun Hnf.
    destruct (restore_step_spec env svc s0) as (svc' & s1 & t & E & Hstep).
    exists svc', s1, t. split; [exact E|].
    eapply restore_step_slot; eassumption.
  - intros svc s0 Hrun Hnf.
    destruct (clone_step_spec env svc s0) as (svc' & s1 & t & E & Hstep).
    exists svc', s1, t. split; [exact E|].
    eapply clone_step_slot; eassumption.
Qed.

(** What is right in the result contract: an accepted run ends, its
    promise is resolved exactly once and nothing is thrown past the entry
    point.  The value, though, is [null] whether the machine finished or
    failed. *)
Lemma accepted_run_resolves_null env s ropts copts :
  inProgressStateMachine s = None ->
  (exists svc s' t,
     Restore.restore ropts env s = (Ok (Some svc), s', t) /\
     status svc = Stopped /\
     settled t = Some JNull /\ List.length (filter is_resolve t) = 1 /\
     (value svc = Restore.failed \/ value svc = Restore.finished) /\
     (value svc = Restore.failed <-> Restore.error (context svc) <> None)) /\
  (exists svc s' t,
     Clone.clone copts env s = (Ok (Some svc), s', t) /\
     status svc = Stopped /\
     settled t = Some JNull /\ List.length (filter is_resolve t) = 1 /\
     (value svc = Clone.failed \/ value svc = Clone.finished) /\
     (value svc = Clone.failed <-> Clone.error (context svc) <> None)).
Proof.
  intros H0. split.
  - destruct (restore_invariant env s ropts restore_wf H0) as (svc & s1 & t & E & Hwf).
    + intros; eapply restore_wf_step; eassumption.
    + intros svc t E.
      destruct (restore_accepted env s ropts H0) as (svc' & t' & E' & Hwf & _).
      rewrite E in E'. injection E' as <- <-. exact Hwf.
    + exists svc, s1, t. split; [exact E|].
      pose proof (restore_wf_0 _ _ _ Hwf) as Hst. split; [exact Hst|].
      unfold restore_wf in Hwf. rewrite Hst in Hwf.
      destruct Hwf as (_ & Hset & Hcount & Hcase). repeat split; try assumption.
      * destruct Hcase as [(Hv & _)|(Hv & _)]; [right | left]; exact Hv.
      * intros Hv. destruct Hcase as [(Hv' & _)|(_ & _ & He)]; [congruence | exact He].
      * intros He. destruct Hcase as [(_ & _ & He')|(Hv & _)]; [congruence | exact Hv].
  - destruct (clone_invariant env s copts clone_wf H0) as (svc & s1 & t & E & Hwf).
    + intros; eapply clone_wf_step; eassumption.
    + intros svc t E.
      destruct (clone_accepted env s copts H0) as (svc' & t' & E' & Hwf & _).
      rewrite E in E'. injection E' as <- <-. exact Hwf.
    + exists svc, s1, t. split; [exact E|].
      pose proof (clone_wf_0 _ _ _ Hwf) as Hst. split; [exact Hst|].
      unfold clone_wf in Hwf. rewrite Hst in Hwf.
      destruct Hwf as (_ & Hset & Hcount & Hcase). repeat split; try assumption.
      * destruct Hcase as [(Hv & _)|(Hv & _)]; [right | left]; exact Hv.
      * intros Hv. destruct Hcase as [(Hv' & _)|(_ & _ & He)]; [congruence | exact He].
      * intros He. destruct Hcase as [(_ & _ & He')|(Hv & _)]; [congruence | exact Hv].
Qed.

(** C2. Result totality, at a run that fails.  The hub is unreachable, so
    the restore machine and the clone machine fail in their first state and
    record the error in their context.  The stop listener reads [error] off
    the interpreter's [State] object, which has no such property (the error
    is at [context.error]); the test [if (error)] is false and the promise
    resolves with [null], not with an object carrying the error. *)
Theorem failed_run_resolves_null :
  (exists svc s' t,
     Restore.restore ex_restore_opts (ex_env ex_snapshot hub_down) ex_sys
       = (Ok (Some svc), s', t) /\
     value svc = Restore.failed /\
     Restore.error (context svc) = Some "hub unreachable" /\
     prop (_state Restore.restoreMachine svc) "error" = JUndefined /\
     prop (prop (_state Restore.restoreMachine svc) "context") "error"
       = JString "hub unreachable" /\
     settled t = Some JNull /\
     settled t <> Some (JObject [("error", JString "hub unreachable")])) /\
  (exists svc s' t,
     Clone.clone (ex_clone_opts "Copy") (ex_env ex_snapshot hub_down) ex_sys
       = (Ok (Some svc), s', t) /\
     value svc = Clone.failed /\
     Clone.error (context svc) = Some "hub unreachable" /\
     prop (_state Clone.cloneMachine svc) "error" = JUndefined /\
     prop (prop (_state Clone.cloneMachine svc) "context") "error"
       = JString "hub unreachable" /\
     settled t = Some JNull /\
     settled t <> Some (JObject [("error", JString "hub unreachable")])).
Proof.
  split.
  - eexists _, _, _. split; [vm_compute; reflexivity|].
    repeat split; try reflexivity. discriminate.
  - eexists _, _, _. split; [vm_compute; reflexivity|].
    repeat split; try reflexivity. discriminate.
Qed.


Lemma mysql_of_update id f s : mysql_of (update_mysql id f s) id = f (mysql_of s id).
Proof.
  unfold update_mysql, mysql_of at 1. cbn. rewrite String.eqb_refl. reflexivity.
Qed.

Lemma database_set db data m : database (set_database db data m) db = Some data.
Proof. unfold database, set_database. cbn. rewrite String.eqb_refl. reflexivity. Qed.

(** C7. Missing-dump tolerance.  When nothing exists at
    [<staging>/app/sql/<dump file>], [importDatabase] of either service
    logs its warning and returns: no call to the SQL runner or the importer
    is made and the state, MySQL included, is the one it started from. *)
Theorem missing_dump_tolerance env s tmp :
  existsSync (disk s) (sqlFile_in env tmp) = false ->
  (forall ctx, Restore.tmpDirData ctx = Some tmp ->
     Restore.importDatabase ctx env s
       = (Ok Restore.undefined, s, [Logger "warn" no_sql_file_warning])) /\
  (forall ctx dest, Clone.tmpDirData ctx = Some tmp ->
     Clone.destinationSite ctx = Some dest ->
     Clone.importDatabase ctx env s
       = (Ok Clone.undefined, s, [Logger "warn" no_sql_file_warning])).
Proof.
  intros Hmissing. unfold sqlFile_in in Hmissing. split.
  - intros ctx Htmp. unfold Restore.importDatabase. rewrite Htmp.
    cbv [bind ask gets]. rewrite Hmissing. reflexivity.
  - intros ctx dest Htmp Hdest. unfold Clone.importDatabase. rewrite Htmp, Hdest.
    cbv [bind ask gets]. rewrite Hmissing. reflexivity.
Qed.

(** The SQL sequence of [importDatabase] up to the import, and past it. *)
Lemma import_fails_after_drop env s site sqlFile e :
  fault env (RunSiteSQLCmd site SELECT_SQL_MODE) = None ->
  fault env (RunSiteSQLCmd site (SET_GLOBAL_SQL_MODE permissive_mode)) = None ->
  fault env (RunSiteSQLCmd site (DROP_CREATE_DATABASE (Site.mysql_database site))) = None ->
  fault env (ImportSQLFile site sqlFile) = Some e ->
  forall {A} (k : M A),
  exists s',
    (existingSqlMode <- runSiteSQLCmd site SELECT_SQL_MODE ;;
     runSiteSQLCmd site (SET_GLOBAL_SQL_MODE "NO_AUTO_VALUE_ON_ZERO") ;;
     runSiteSQLCmd site (DROP_CREATE_DATABASE (Site.mysql_database site)) ;;
     importSQLFile site sqlFile ;;
     runSiteSQLCmd site (SET_GLOBAL_SQL_MODE existingSqlMode) ;;
     k) env s
    = (Throw e, s', sql_until_import site sqlFile) /\
    sql_mode (mysql_of s' (Site.id site)) = permissive_mode /\
    database (mysql_of s' (Site.id site)) (Site.mysql_database site) = Some EmptyString /\
    disk s' = disk s.
Proof.
  intros H1 H2 H3 H4 A k. unfold permissive_mode in *.
  eexists. split.
  - cbv [bind runSiteSQLCmd importSQLFile call].
    rewrite H1, H2, H3, H4. reflexivity.
  - rewrite !mysql_of_update. cbn [set_database set_mode sql_mode databases].
    repeat split. apply database_set.
Qed.

Lemma mode_restore_fails_after_import env s site sqlFile e :
  fault env (RunSiteSQLCmd site SELECT_SQL_MODE) = None ->
  fault env (RunSiteSQLCmd site (SET_GLOBAL_SQL_MODE permissive_mode)) = None ->
  fault env (RunSiteSQLCmd site (DROP_CREATE_DATABASE (Site.mysql_database site))) = None ->
  fault env (ImportSQLFile site sqlFile) = None ->
  fault env (RunSiteSQLCmd site
               (SET_GLOBAL_SQL_MODE (sql_mode (mysql_of s (Site.id site))))) = Some e ->
  forall {A} (k : M A),
  exists s',
    (existingSqlMode <- runSiteSQLCmd site SELECT_SQL_MODE ;;
     runSiteSQLCmd site (SET_GLOBAL_SQL_MODE "NO_AUTO_VALUE_ON_ZERO") ;;
     runSiteSQLCmd site (DROP_CREATE_DATABASE (Site.mysql_database site)) ;;
     importSQLFile site sqlFile ;;
     runSiteSQLCmd site (SET_GLOBAL_SQL_MODE existingSqlMode) ;;
     k) env s
    = (Throw e, s',
       sql_until_import site sqlFile
         ++ [RunSiteSQLCmd site
               (SET_GLOBAL_SQL_MODE (sql_mode (mysql_of s (Site.id site))))]) /\
    sql_mode (mysql_of s' (Site.id site)) = permissive_mode /\
    database (mysql_of s' (Site.id site)) (Site.mysql_database site)
      = Some (file_data (disk s) sqlFile) /\
    disk s' = disk s.
Proof.
  intros H1 H2 H3 H4 H5 A k. unfold permissive_mode in *.
  eexists. split.
  - cbv [bind runSiteSQLCmd importSQLFile call].
    rewrite H1, H2, H3, H4, H5. reflexivity.
  - rewrite !mysql_of_update. cbn [set_database set_mode sql_mode databases].
    repeat split. rewrite database_set. reflexivity.
Qed.


(** C10. Database apply is not atomic.  With the dump present and the
    first three queries going through, the database is dropped and created
    anew before the import is tried.  If the import throws, or the query
    that puts the SQL mode back does, [importDatabase] of either service
    throws that error and leaves MySQL as the step made it: the mode is the
    permissive one, and the database is the empty new one (import failed)
    or holds the dump (mode restore failed); what it held before is not put
    back. *)
Theorem database_apply_not_atomic env s tmp site rctx cctx :
  Restore.site rctx = site -> Restore.tmpDirData rctx = Some tmp ->
  Clone.destinationSite cctx = Some site -> Clone.tmpDirData cctx = Some tmp ->
  existsSync (disk s) (sqlFile_in env tmp) = true ->
  fault env (RunSiteSQLCmd site SELECT_SQL_MODE) = None ->
  fault env (RunSiteSQLCmd site (SET_GLOBAL_SQL_MODE permissive_mode)) = None ->
  fault env (RunSiteSQLCmd site (DROP_CREATE_DATABASE (Site.mysql_database site))) = None ->
  (forall e, fault env (ImportSQLFile site (sqlFile_in env tmp)) = Some e ->
     exists s',
       Restore.importDatabase rctx env s
         = (Throw e, s', sql_until_import site (sqlFile_in env tmp)) /\
       Clone.importDatabase cctx env s
         = (Throw e, s', sql_until_import site (sqlFile_in env tmp)) /\
       sql_mode (mysql_of s' (Site.id site)) = permissive_mode /\
       database (mysql_of s' (Site.id site)) (Site.mysql_database site) = Some EmptyString) /\
  (forall e, fault env (ImportSQLFile site (sqlFile_in env tmp)) = None ->
     fault env (RunSiteSQLCmd site
                  (SET_GLOBAL_SQL_MODE (sql_mode (mysql_of s (Site.id site))))) = Some e ->
     exists s',
       Restore.importDatabase rctx env s
         = (Throw e, s',
            sql_until_import site (sqlFile_in env tmp)
              ++ [RunSiteSQLCmd site
                    (SET_GLOBAL_SQL_MODE (sql_mode (mysql_of s (Site.id site))))]) /\
       Clone.importDatabase cctx env s
         = (Throw e, s',
            sql_until_import site (sqlFile_in env tmp)
              ++ [RunSiteSQLCmd site
                    (SET_GLOBAL_SQL_MODE (sql_mode (mysql_of s (Site.id site))))]) /\
       sql_mode (mysql_of s' (Site.id site)) = permissive_mode /\
       database (mysql_of s' (Site.id site)) (Site.mysql_database site)
         = Some (file_data (disk s) (sqlFile_in env tmp))).
Proof.
  intros Hsite Htmp Hdest Htmp' Hex H1 H2 H3.
  assert (Hr : Restore.importDatabase rctx env s =
    (existingSqlMode <- runSiteSQLCmd site SELECT_SQL_MODE ;;
     runSiteSQLCmd site (SET_GLOBAL_SQL_MODE "NO_AUTO_VALUE_ON_ZERO") ;;
     runSiteSQLCmd site (DROP_CREATE_DATABASE (Site.mysql_database site)) ;;
     importSQLFile site (sqlFile_in env tmp) ;;
     runSiteSQLCmd site (SET_GLOBAL_SQL_MODE existingSqlMode) ;;
     ret Restore.undefined) env s).
  { unfold Restore.importDatabase. rewrite Htmp, Hsite.
    unfold sqlFile_in in *. rewrite bind_ask, bind_gets, Hex. reflexivity. }
  assert (Hc : Clone.importDatabase cctx env s =
    (existingSqlMode <- runSiteSQLCmd site SELECT_SQL_MODE ;;
     runSiteSQLCmd site (SET_GLOBAL_SQL_MODE "NO_AUTO_VALUE_ON_ZERO") ;;
     runSiteSQLCmd site (DROP_CREATE_DATABASE (Site.mysql_database site)) ;;
     importSQLFile site (sqlFile_in env tmp) ;;
     runSiteSQLCmd site (SET_GLOBAL_SQL_MODE existingSqlMode) ;;
     ret Clone.undefined) env s).
  { unfold Clone.importDatabase. rewrite Htmp', Hdest.
    unfold sqlFile_in in *. rewrite bind_ask, bind_gets, Hex. reflexivity. }
  split.
  - intros e H4.
    destruct (import_fails_after_drop env s site _ e H1 H2 H3 H4 (ret Restore.undefined))
      as (s1 & E1 & Hm & Hd & _).
    destruct (import_fails_after_drop env s site _ e H1 H2 H3 H4 (ret Clone.undefined))
      as (s2 & E2 & _).
    exists s1. rewrite Hr, Hc.
    split; [exact E1|]. split; [|split; assumption].
    rewrite E2. f_equal. f_equal.
    cbv [bind runSiteSQLCmd importSQLFile call] in E1, E2.
    unfold permissive_mode in *. rewrite H1, H2, H3, H4 in E1, E2.
    injection E1 as <-. injection E2 as <-. reflexivity.
  - intros e H4 H5.
    destruct (mode_restore_fails_after_import env s site _ e H1 H2 H3 H4 H5
                (ret Restore.undefined)) as (s1 & E1 & Hm & Hd & _).
    destruct (mode_restore_fails_after_import env s site _ e H1 H2 H3 H4 H5
                (ret Clone.undefined)) as (s2 & E2 & _).
    exists s1. rewrite Hr, Hc.
    split; [exact E1|]. split; [|split; assumption].
    rewrite E2. f_equal. f_equal.
    cbv [bind runSiteSQLCmd importSQLFile call] in E1, E2.
    unfold permissive_mode in *. rewrite H1, H2, H3, H4, H5 in E1, E2.
    injection E1 as <-. injection E2 as <-. reflexivity.
Qed.

(** Every removal of [l] is attempted, in order, whatever fails. *)
Lemma Promise_all_remove_trace env l s :
  trace_of (Promise_all (map fs_remove l) env s) = map FsRemove l.
Proof.
  revert s. induction l as [|p l IH]; intros s; [reflexivity|].
  cbn [map Promise_all]. rewrite bind_unfold.
  unfold attempt at 1, fs_remove at 1, call.
  destruct (fault env (FsRemove p)); cbn [trace_of snd].
  - rewrite bind_unfold. unfold attempt at 1.
    specialize (IH s). unfold trace_of in IH.
    destruct (Promise_all (map fs_remove l) env s) as [[r s2] t2].
    cbn in *. rewrite IH, app_nil_r. reflexivity.
  - rewrite bind_unfold. unfold attempt at 1.
    specialize (IH (set_disk (remove p (disk s)) s)). unfold trace_of in IH.
    destruct (Promise_all (map fs_remove l) env _) as [[r s2] t2].
    cbn in *. destruct r; cbn; rewrite IH, app_nil_r; reflexivity.
Qed.

(** The order inside the restore's filesystem step: the log line, one
    removal for each listed path, and only then, if at all, the copy. *)
Lemma restore_removes_then_copies env s ctx :
  let sitePath := formatHomePath env (Site.path (Restore.site ctx)) in
  exists log rest,
    trace_of (Restore.moveSiteFromTmpDir ctx env s)
      = Logger "info" log :: map FsRemove (filteredSiteFiles (disk s) sitePath) ++ rest /\
    (rest = [] \/
     exists tmp log', Restore.tmpDirData ctx = Some tmp /\
       (rest = [FsCopySync (dir_name tmp) sitePath] \/
        rest = [FsCopySync (dir_name tmp) sitePath; Logger "info" log'])).
Proof.
  intros sitePath. unfold Restore.moveSiteFromTmpDir.
  rewrite bind_ask. unfold getFilteredSiteFiles.
  rewrite bind_unfold, bind_ask, bind_gets. cbn [ret].
  fold sitePath. set (items := filteredSiteFiles (disk s) sitePath).
  rewrite bind_unfold. unfold logger_info at 1, emit at 1.
  rewrite bind_unfold.
  pose proof (Promise_all_remove_trace env items s) as Ht. unfold trace_of in Ht.
  destruct (Promise_all (map fs_remove items) env s) as [[r s2] t2].
  cbn in Ht. subst t2.
  eexists. destruct r as [[]|e].
  - destruct (Restore.tmpDirData ctx) as [tmp|] eqn:Htmp.
    + rewrite bind_unfold. unfold fs_copySync at 1, call.
      destruct (fault env (FsCopySync (dir_name tmp) sitePath)).
      * eexists. cbn. split; [reflexivity|]. right. exists tmp, EmptyString. split; auto.
      * eexists. cbn. split; [reflexivity|]. right. eexists tmp, _. split; auto.
    + exists []. cbn. rewrite app_nil_r. split; [reflexivity | left; reflexivity].
  - exists []. cbn. rewrite app_nil_r. split; [reflexivity | left; reflexivity].
Qed.


(** ** Recovery of a failed restore *)

Lemma restore_recovered_step env site0 status0 n svc s t svc' s' t' :
  restore_step env svc s svc' s' t' ->
  restore_recovered site0 status0 (S n) svc s t ->
  restore_recovered site0 status0 n svc' s' (t ++ t').
Proof.
  intros Hstep (Hwf & Hsite & Hinit & Hhd & Hfail).
  pose proof (restore_wf_step env n svc s t svc' s' t' Hstep Hwf) as Hwf'.
  split; [exact Hwf'|].
  assert (Hhd' : hd_error (t ++ t') = Some (GetSiteStatus site0)).
  { destruct t; [discriminate Hhd | exact Hhd]. }
  inversion Hstep as [Hidle | e s1 t1 Hst HX Hsrc | d s1 t1 Hst HX HN Hsrc
                      | d s1 t1 r s2 t2 Hst HX HN Hsrc Hrm]; subst; clear Hstep.
  - rewrite app_nil_r. auto.
  - cbn [restore_failed context value]. repeat split; try assumption.
    intros _. unfold restore_wf in Hwf. rewrite Hst in Hwf.
    destruct Hwf as (_ & _ & _ & Hset & _).
    destruct (sat_run _ _ _ _ _ _ _ _ (restore_src_slot env _ _) Hsrc) as [_ Hq1].
    exists (t ++ t1 ++ [Logger "error" e]),
           (transition_trace env "failed" ++ stop_trace).
    split.
    + unfold restore_failure_trace, restore_recovery. cbn [Restore.with_error
        Restore.site Restore.initialSiteStatus].
      rewrite <- !app_assoc. reflexivity.
    + rewrite settled_app_none by exact Hset.
      rewrite settled_app_none by (apply settled_none_iff; exact Hq1).
      reflexivity.
  - cbn [restore_moved context value].
    destruct (restore_assign_site (value svc) d (context svc)) as [-> ->].
    repeat split; try assumption.
    intros Hv. rewrite Hv in HN. discriminate HN.
  - cbn [restore_moved context value].
    destruct (restore_assign_site (value svc) d (context svc)) as [-> ->].
    repeat split; try assumption.
    intros Hv. rewrite Hv in HN. discriminate HN.
Qed.

(** C9. Restore-in-place failure recovery.  The entry point reads the
    site's status first, before it starts the machine.  In every restore
    run that ends in [failed], whichever step threw, the trace holds, next
    to each other and before the promise is resolved: the status update
    that sets the site back to that captured status, the error banner bound
    to the site, and the restart of the site's services. *)
Theorem restore_failure_recovery env s opts :
  inProgressStateMachine s = None ->
  let site := Restore.opts_site opts in
  exists svc s' t,
    Restore.restore opts env s = (Ok (Some svc), s', t) /\
    status svc = Stopped /\
    hd_error t = Some (GetSiteStatus site) /\
    Restore.initialSiteStatus (context svc) = site_status env site /\
    (value svc = Restore.failed ->
     exists t1 t2,
       t = t1 ++ [ SendIPCEvent (updateSiteStatus (Site.id site) (site_status env site));
                   SendIPCEvent (showSiteBanner
                     {| siteID := Site.id site;
                        banner_id := "site-errored-backup";
                        variant := "error";
                        icon := "warning";
                        title := "Backup errored!";
                        message := "There was an error while restoring your backup." |});
                   RestartSite site ] ++ t2 /\
       settled t1 = None /\ settled t2 = Some JNull).
Proof.
  intros H0 site.
  destruct (restore_invariant env s opts
              (restore_recovered site (site_status env site)) H0)
    as (svc & s1 & t & E & Hwf & Hsite & Hinit & Hhd & Hfail).
  - intros; eapply restore_recovered_step; eassumption.
  - intros svc t E.
    destruct (restore_accepted env s opts H0)
      as (svc' & t' & E' & Hwf & Hs & Hi & _ & Hv & Ht).
    rewrite E in E'. injection E' as <- <-.
    repeat split; try assumption.
    + rewrite Ht. reflexivity.
    + intros Hf. rewrite Hv in Hf. discriminate Hf.
  - exists svc, s1, t. split; [exact E|].
    pose proof (restore_wf_0 _ _ _ Hwf) as Hst.
    repeat split; try assumption.
    intros Hv. destruct (Hfail Hv) as (t1 & t2 & Ht & Hset).
    exists t1, t2. unfold restore_recovery in Ht. rewrite Hsite, Hinit in Ht.
    split; [exact Ht|]. split; [exact Hset|].
    unfold restore_wf in Hwf. rewrite Hst in Hwf. destruct Hwf as (_ & Hs & _).
    rewrite Ht in Hs. rewrite settled_app_none in Hs by exact Hset.
    exact Hs.
Qed.

(** ** The staging directory *)

Lemma has_children_remove p d : has_children p (remove p d) = false.
Proof.
  unfold has_children, remove. induction d as [|e d IH]; cbn; [reflexivity|].
  destruct (is_prefix p (fst e)) eqn:E; cbn; [exact IH|].
  rewrite IH. unfold is_below. rewrite E. reflexivity.
Qed.

Lemma restore_createTmpDir_spec env s d s1 t1 :
  Restore.createTmpDir env s = (Ok d, s1, t1) ->
  d = Restore.tmpDir {| dir_name := tmp_name env |} /\
  existsSync (disk s1) (tmp_name env) = true.
Proof.
  unfold Restore.createTmpDir, dirSync. rewrite bind_unfold, bind_ask.
  unfold call. destruct (fault env TmpDirSync); [discriminate|].
  cbv [ret]. intros E. injection E as <- <- _. split; [reflexivity|].
  cbn [disk set_disk]. rewrite existsSync_mkdir, path_eqb_refl. reflexivity.
Qed.

Lemma clone_createTmpDir_spec env s d s1 t1 :
  Clone.createTmpDir env s = (Ok d, s1, t1) ->
  d = Clone.tmpDir {| dir_name := tmp_name env |} /\
  existsSync (disk s1) (tmp_name env) = true.
Proof.
  unfold Clone.createTmpDir, dirSync. rewrite bind_unfold, bind_ask.
  unfold call. destruct (fault env TmpDirSync); [discriminate|].
  cbv [ret]. intros E. injection E as <- <- _. split; [reflexivity|].
  cbn [disk set_disk]. rewrite existsSync_mkdir, path_eqb_refl. reflexivity.
Qed.

(** Emptying the directory and calling [removeCallback] removes it. *)
Lemma release_spec env s p :
  exists s2 t2,
    (fs_emptyDirSync p ;; removeCallback p) env s = (Ok tt, s2, t2) /\
    existsSync (disk s2) p = false /\ has_children p (disk s2) = false /\
    t2 = [FsEmptyDirSync p; RemoveCallback p].
Proof.
  eexists _, _. split.
  - unfold fs_emptyDirSync, removeCallback, emit, modify.
    cbv [bind gets]. cbn [disk set_disk].
    rewrite has_children_emptyDir. reflexivity.
  - cbn [disk set_disk]. split; [apply existsSync_remove_self|].
    split; [apply has_children_remove | reflexivity].
Qed.

Lemma restore_removeTmpDir_spec env s ctx p r s2 t2 :
  Restore.tmpDirData ctx = Some {| dir_name := p |} ->
  Restore.removeTmpDir ctx env s = (r, s2, t2) ->
  existsSync (disk s2) p = false /\ has_children p (disk s2) = false.
Proof.
  intros Htmp. unfold Restore.removeTmpDir. rewrite Htmp. cbn [dir_name].
  destruct (release_spec env s p) as (s3 & t3 & E & H1 & H2 & _).
  rewrite E. intros E'. injection E' as _ <- _. auto.
Qed.

Lemma clone_removeTmpDir_spec env s ctx p r s2 t2 :
  Clone.tmpDirData ctx = Some {| dir_name := p |} ->
  Clone.removeTmpDir ctx env s = (r, s2, t2) ->
  existsSync (disk s2) p = false /\ has_children p (disk s2) = false.
Proof.
  intros Htmp. unfold Clone.removeTmpDir. rewrite Htmp. cbn [dir_name].
  destruct (release_spec env s p) as (s3 & t3 & E & H1 & H2 & _).
  rewrite E. intros E'. injection E' as _ <- _. auto.
Qed.

(** The removals of the restore leave alone what is outside the site. *)
Lemma removals_keep env p (items : list Path) :
  (forall q, In q items -> is_prefix q p = false) ->
  sat env (keeps p) any_call (Promise_all (map fs_remove items)).
Proof.
  intros Hitems. apply sat_Promise_all; [typeclasses eauto|].
  apply Forall_forall. intros m Hm. apply in_map_iff in Hm.
  destruct Hm as [q [<- Hq]]. unfold fs_remove.
  apply sat_call; [typeclasses eauto | exact I |].
  intros s H. cbn [snd disk set_disk]. rewrite existsSync_remove, H, (Hitems q Hq). reflexivity.
Qed.

Lemma restore_src_keeps env X ctx p :
  is_prefix (formatHomePath env (Site.path (Restore.site ctx))) p = false ->
  sat env (keeps p) any_call (restore_src X ctx).
Proof.
  intros Hout.
  destruct X; unfold restore_src; cbn [states Restore.restoreMachine].
  - unfold Restore.getCredentials; unfold_collaborators; sat_go;
      first [exact I | intros H; exact H].
  - unfold Restore.createTmpDir; unfold_collaborators; sat_go; [exact I|].
    intros H. cbn [snd disk set_disk]. rewrite existsSync_mkdir, H. apply orb_true_r.
  - unfold Restore.restoreBackup; unfold_collaborators; sat_go; [exact I|].
    intros H. cbn [snd disk set_disk]. apply existsSync_unpack. exact H.
  - intros s. unfold Restore.moveSiteFromTmpDir.
    rewrite bind_ask. unfold getFilteredSiteFiles.
    rewrite bind_unfold, bind_ask, bind_gets. cbn [ret].
    set (sitePath := formatHomePath env (Site.path (Restore.site ctx))) in *.
    set (items := filteredSiteFiles (disk s) sitePath).
    match goal with
    | |- context [match ?k env s with _ => _ end] =>
        assert (Hk : sat env (keeps p) any_call k)
    end.
    { unfold_collaborators. sat_go; try exact I.
      - apply removals_keep. intros q Hq.
        destruct (is_prefix q p) eqn:E; [|reflexivity].
        rewrite (filteredSiteFiles_child _ _ _ _ Hq E) in Hout. discriminate Hout.
      - intros H. cbn [snd disk set_disk]. apply existsSync_copy. exact H. }
    specialize (Hk s). unfold sys_of, trace_of in *.
    match goal with
    | |- context [match ?k env s with _ => _ end] => destruct (k env s) as [[r s2] t2]
    end.
    cbn in *. exact Hk.
  - unfold Restore.importDatabase; unfold_collaborators; sat_go;
      try exact I; try (intros H; exact H).
  - sat_go.
  - sat_go.
Qed.

Lemma clone_src_keeps env X ctx p :
  sat env (keeps p) any_call (clone_src X ctx).
Proof.
  destruct X; unfold clone_src; cbn [states Clone.cloneMachine];
    unfold_clone; unfold_collaborators; sat_go;
    try exact I; try (intros H; exact H);
    try (destruct q; intros H; exact H).
  - intros H. cbn [snd disk set_disk]. rewrite existsSync_mkdir, H. apply orb_true_r.
  - intros H. cbn [snd disk set_disk]. apply existsSync_unpack. exact H.
  - intros H. cbn [snd disk set_disk]. apply existsSync_copy. exact H.
Qed.

Lemma restore_staged_step env site0 n svc s t svc' s' t' :
  is_prefix (formatHomePath env (Site.path site0)) (tmp_name env) = false ->
  restore_step env svc s svc' s' t' ->
  restore_staged env site0 (S n) svc s t ->
  restore_staged env site0 n svc' s' (t ++ t').
Proof.
  intros Hout Hstep (Hwf & Hsite & Hrun & Hfin & Hfail).
  pose proof (restore_wf_step env n svc s t svc' s' t' Hstep Hwf) as Hwf'.
  split; [exact Hwf'|].
  inversion Hstep as [Hidle | e s1 t1 Hst HX Hsrc | d s1 t1 Hst HX HN Hsrc
                      | d s1 t1 r s2 t2 Hst HX HN Hsrc Hrm]; subst; clear Hstep.
  - auto.
  - assert (Hkeep := sat_run _ _ _ _ _ _ _ _
                       (restore_src_keeps env (value svc) (context svc) (tmp_name env) Hout)
                       Hsrc).
    destruct Hkeep as [Hkeep _].
    cbn [restore_failed context value status visited].
    split; [reflexivity|]. split; [discriminate|]. split; [discriminate|].
    intros _ _ Hin. cbn [set_slot disk]. apply Hkeep.
    apply Hrun; [exact Hst|].
    unfold restore_wf in Hwf. rewrite Hst in Hwf.
    destruct Hwf as (_ & _ & _ & _ & Hvis & _).
    apply in_app_iff in Hin. destruct Hin as [Hin|[Hin|[]]]; [|discriminate Hin].
    rewrite Hvis in Hin.
    destruct (value svc); cbn in Hin |- *; try lia;
      repeat (destruct Hin as [Hin|Hin]; try discriminate Hin); contradiction.
  - assert (Hkeep := sat_run _ _ _ _ _ _ _ _
                       (restore_src_keeps env (value svc) (context svc) (tmp_name env) Hout)
                       Hsrc).
    destruct Hkeep as [Hkeep _].
    cbn [restore_moved context value status visited].
    split; [rewrite (proj1 (restore_assign_site _ _ _)); reflexivity|].
    split; [|split; discriminate].
    intros _ Hidx.
    destruct (value svc) eqn:HV; try discriminate HX; try discriminate HN;
      cbn in Hidx; try lia.
    + unfold restore_src in Hsrc. cbn [states Restore.restoreMachine] in Hsrc.
      apply restore_createTmpDir_spec in Hsrc. destruct Hsrc as [-> Hex].
      split; [reflexivity | exact Hex].
    + destruct (Hrun Hst) as [Htmp Hex]; [cbn; lia|].
      split; [exact Htmp | apply Hkeep; exact Hex].
    + destruct (Hrun Hst) as [Htmp Hex]; [cbn; lia|].
      split; [exact Htmp | apply Hkeep; exact Hex].
  - cbn [restore_moved context value status visited].
    split; [rewrite (proj1 (restore_assign_site _ _ _)); reflexivity|].
    split; [discriminate|]. split; [|intros _ Hv; rewrite HN in Hv; discriminate Hv].
    intros _ _.
    destruct (value svc) eqn:HV; try discriminate HX; try discriminate HN.
    destruct (Hrun Hst) as [Htmp Hex]; [cbn; lia|].
    cbn [set_slot disk].
    eapply restore_removeTmpDir_spec; [|exact Hrm]. exact Htmp.
Qed.

Lemma clone_assign_tmp X d ctx :
  X <> Clone.creatingTmpDir ->
  Clone.tmpDirData (clone_assign X d ctx) = Clone.tmpDirData ctx.
Proof. intros HX. destruct X, d; try reflexivity; congruence. Qed.

Lemma clone_staged_step env n svc s t svc' s' t' :
  clone_step env svc s svc' s' t' ->
  clone_staged env (S n) svc s t ->
  clone_staged env n svc' s' (t ++ t').
Proof.
  intros Hstep (Hwf & Hrun & Hfin & Hfail).
  pose proof (clone_wf_step env n svc s t svc' s' t' Hstep Hwf) as Hwf'.
  split; [exact Hwf'|].
  inversion Hstep as [Hidle | e s1 t1 Hst HX Hsrc | d s1 t1 Hst HX HN Hsrc
                      | d s1 t1 r s2 t2 Hst HX HN Hsrc Hrm]; subst; clear Hstep.
  - auto.
  - assert (Hkeep := sat_run _ _ _ _ _ _ _ _
                       (clone_src_keeps env (value svc) (context svc) (tmp_name env))
                       Hsrc).
    destruct Hkeep as [Hkeep _].
    cbn [clone_failed context value status visited].
    split; [discriminate|]. split; [discriminate|].
    intros _ _ Hin. cbn [set_slot disk]. apply Hkeep.
    apply Hrun; [exact Hst|].
    unfold clone_wf in Hwf. rewrite Hst in Hwf.
    destruct Hwf as (_ & _ & _ & _ & Hvis & _).
    apply in_app_iff in Hin. destruct Hin as [Hin|[Hin|[]]]; [|discriminate Hin].
    rewrite Hvis in Hin.
    destruct (value svc); cbn in Hin |- *; try lia;
      repeat (destruct Hin as [Hin|Hin]; try discriminate Hin); contradiction.
  - assert (Hkeep := sat_run _ _ _ _ _ _ _ _
                       (clone_src_keeps env (value svc) (context svc) (tmp_name env))
                       Hsrc).
    destruct Hkeep as [Hkeep _].
    cbn [clone_moved context value status visited].
    split; [|split; discriminate].
    intros _ Hidx.
    destruct (Nat.eq_dec (clone_index (value svc)) 2) as [H2|H2].
    + destruct (value svc) eqn:HV; try discriminate H2.
      unfold clone_src in Hsrc. cbn [states Clone.cloneMachine] in Hsrc.
      apply clone_createTmpDir_spec in Hsrc. destruct Hsrc as [-> Hex].
      split; [reflexivity | exact Hex].
    + rewrite (clone_next_index _ HX (or_introl HN)) in Hidx.
      destruct (Hrun Hst) as [Htmp Hex]; [lia|].
      split; [|apply Hkeep; exact Hex].
      rewrite clone_assign_tmp; [exact Htmp|].
      intros Hv. rewrite Hv in H2. apply H2. reflexivity.
  - cbn [clone_moved context value status visited].
    split; [discriminate|]. split; [|intros _ Hv; rewrite HN in Hv; discriminate Hv].
    intros _ _.
    destruct (value svc) eqn:HV; try discriminate HX; try discriminate HN.
    destruct (Hrun Hst) as [Htmp Hex]; [cbn; lia|].
    cbn [set_slot disk].
    eapply clone_removeTmpDir_spec; [|exact Hrm]. exact Htmp.
Qed.


(** ** Destination setup and rollback of the clone *)

Lemma find_app_last {A} (f : A -> bool) l x :
  f x = true -> exists y, find f (l ++ [x]) = Some y /\ f y = true.
Proof.
  intros Hx. induction l as [|a l IH]; cbn.
  - rewrite Hx. exists x; auto.
  - destruct (f a) eqn:Ha; [exists a; auto | exact IH].
Qed.

(** A taken name: the step shows the error box and throws, having touched
    nothing. *)
Lemma setupDestinationSite_duplicate env s ctx :
  checkForDuplicateSiteName env (sites s) (Clone.newSiteName ctx)
    (formatSiteNicename env (Clone.newSiteName ctx)) = true ->
  Clone.setupDestinationSite ctx env s
    = (Throw Clone.siteDomainTakenError, s, [duplicate_name_box (Clone.newSiteName ctx)]).
Proof.
  intros Hdup. unfold Clone.setupDestinationSite.
  rewrite bind_ask, bind_ask, bind_gets, Hdup. reflexivity.
Qed.

Lemma setupDestinationSite_spec env s ctx r s1 t1 :
  Clone.setupDestinationSite ctx env s = (r, s1, t1) ->
  disk s1 = disk s /\
  match r with
  | Throw e =>
      e = Clone.siteDomainTakenError /\
      checkForDuplicateSiteName env (sites s) (Clone.newSiteName ctx)
        (formatSiteNicename env (Clone.newSiteName ctx)) = true /\
      sites s1 = sites s /\ Forall no_destination_call t1
  | Ok d =>
      checkForDuplicateSiteName env (sites s) (Clone.newSiteName ctx)
        (formatSiteNicename env (Clone.newSiteName ctx)) = false /\
      exists dest, d = Clone.destination dest /\
        forall x, In x (sites s1) -> In x (sites s) \/ Site.id x = Site.id dest
  end.
Proof.
  destruct (checkForDuplicateSiteName env (sites s) (Clone.newSiteName ctx)
              (formatSiteNicename env (Clone.newSiteName ctx))) eqn:Hdup.
  - rewrite (setupDestinationSite_duplicate env s ctx Hdup).
    intros E. injection E as <- <- <-.
    repeat split. repeat constructor.
  - unfold Clone.setupDestinationSite.
    rewrite bind_ask, bind_ask, bind_gets, Hdup, bind_ask.
    unfold siteData_addSite, getSiteDataFromDisk, send, emit, modify.
    cbv [bind gets]. cbn [sites set_sites Site.id].
    set (dupSite := Site.mk (shortid_generate env) _ _ _ _ _).
    destruct (find_app_last (fun x => (Site.id x =? shortid_generate env)%string)
                (sites s) dupSite (String.eqb_refl _)) as (dest & Hfind & Hid).
    unfold find_site. rewrite Hfind. cbv [ret].
    intros E. injection E as <- <- <-. split; [reflexivity|].
    split; [reflexivity|]. exists dest. split; [reflexivity|].
    intros x Hx. cbn [sites set_sites] in Hx. apply in_app_iff in Hx.
    destruct Hx as [Hx|[<-|[]]]; [left; exact Hx | right].
    apply String.eqb_eq in Hid. rewrite Hid. reflexivity.
Qed.

Lemma clone_getCredentials_footprint env ctx :
  sat env no_footprint no_destination_call (Clone.getCredentials ctx).
Proof.
  unfold Clone.getCredentials; unfold_collaborators; sat_go;
    first [reflexivity | split; reflexivity].
Qed.

(** After the destination is set up no step touches the registry. *)
Lemma clone_src_sites env X ctx :
  2 <= clone_index X ->
  sat env same_sites any_call (clone_src X ctx).
Proof.
  intros HX.
  destruct X; cbn in HX; try lia; unfold clone_src; cbn [states Clone.cloneMachine];
    unfold_clone; unfold_collaborators; sat_go;
    try exact I; try reflexivity; try (destruct q; reflexivity).
Qed.

Lemma clone_assign_newSiteName X d ctx :
  Clone.newSiteName (clone_assign X d ctx) = Clone.newSiteName ctx.
Proof. destruct X, d; reflexivity. Qed.

Lemma clone_assign_destinationSite X d ctx :
  X <> Clone.setupDestinationSite_ ->
  Clone.destinationSite (clone_assign X d ctx) = Clone.destinationSite ctx.
Proof. intros HX. destruct X, d; try reflexivity; congruence. Qed.


Lemma clone_early_visited (svc : Clone.Service) :
  visited svc = firstn (S (clone_index (value svc))) clone_order ->
  is_final Clone.cloneMachine (value svc) = false ->
  (In Clone.creatingTmpDir (visited svc) <-> 2 <= clone_index (value svc)) /\
  (In Clone.setupDestinationSite_ (visited svc) <-> 1 <= clone_index (value svc)).
Proof.
  intros Hvis HX. rewrite Hvis.
  destruct (value svc); try discriminate HX; cbn; split; split; intros H;
    first [ lia
          | solve [auto 12]
          | repeat (destruct H as [H|H]; try discriminate H); contradiction ].
Qed.

Lemma clone_rolled_step env sites0 disk0 name0 n svc s t svc' s' t' :
  clone_step env svc s svc' s' t' ->
  clone_rolled env sites0 disk0 name0 (S n) svc s t ->
  clone_rolled env sites0 disk0 name0 n svc' s' (t ++ t').
Proof.
  intros Hstep HI.
  pose proof (clone_wf_step env n svc s t svc' s' t' Hstep (proj1 HI)) as Hwf'.
  unfold clone_rolled. split; [exact Hwf'|]. clear Hwf'.
  inversion Hstep as [Hidle | e s1 t1 Hst HX Hsrc | d s1 t1 Hst HX HN Hsrc
                      | d s1 t1 r s2 t2 Hst HX HN Hsrc Hrm]; subst; clear Hstep;
    destruct HI as (Hwf & Hname & Hnodup & Hearly & Hlate & Hfailed).
  - rewrite app_nil_r. auto.
  - (* the step throws *)
    unfold clone_wf in Hwf. rewrite Hst in Hwf.
    destruct Hwf as (_ & _ & _ & Hset & Hvis & _).
    destruct (clone_early_visited svc Hvis HX) as [Htmp Hsetup].
    destruct (sat_run _ _ _ _ _ _ _ _ (clone_src_slot env _ _) Hsrc) as [_ Hq1].
    cbn [clone_failed context value status visited Clone.with_error
         Clone.newSiteName Clone.destinationSite Clone.error].
    split; [exact Hname|].
    split.
    { intros Hin. apply in_app_iff in Hin.
      destruct Hin as [Hin|[Hin|[]]]; [auto | discriminate Hin]. }
    split; [discriminate|]. split; [discriminate|].
    intros _ _. split.
    + intros Hnot.
      assert (Hidx : clone_index (value svc) <= 1).
      { destruct (le_lt_dec (clone_index (value svc)) 1) as [Hle|Hgt]; [exact Hle|].
        exfalso. apply Hnot. apply in_app_iff. left. apply Htmp. lia. }
      destruct (Hearly Hst Hidx) as (Hs & Hd & Hart & Hdest).
      destruct (value svc) eqn:HV; cbn in Hidx; try lia; try discriminate HX.
      * (* credentials *)
        unfold clone_src in Hsrc. cbn [states Clone.cloneMachine] in Hsrc.
        destruct (sat_run _ _ _ _ _ _ _ _ (clone_getCredentials_footprint env _) Hsrc)
          as [[Hs1 Hd1] Ha1].
        cbn [set_slot sites disk].
        split; [congruence|]. split; [congruence|].
        split.
        { apply Forall_app; split; [exact Hart|].
          apply Forall_app; split; [exact Ha1 | repeat constructor]. }
        split; [exact Hdest|].
        intros Hin. apply in_app_iff in Hin. rewrite Hvis in Hin. cbn in Hin.
        repeat (destruct Hin as [Hin|Hin]; try discriminate Hin); contradiction.
      * (* destination setup *)
        unfold clone_src in Hsrc. cbn [states Clone.cloneMachine] in Hsrc.
        apply setupDestinationSite_spec in Hsrc.
        destruct Hsrc as (Hd1 & -> & Hdup & Hs1 & Ha1).
        cbn [set_slot sites disk].
        split; [congruence|]. split; [congruence|].
        split.
        { apply Forall_app; split; [exact Hart|].
          apply Forall_app; split; [exact Ha1 | repeat constructor]. }
        split; [exact Hdest|].
        intros _. split; [|reflexivity].
        rewrite <- Hs, <- Hname. exact Hdup.
    + intros Hin. apply in_app_iff in Hin.
      destruct Hin as [Hin|[Hin|[]]]; [|discriminate Hin].
      apply Htmp in Hin.
      destruct (Hlate Hst Hin) as (dest & Hdest & Hsites).
      destruct (sat_run _ _ _ _ _ _ _ _ (clone_src_sites env _ (context svc) Hin) Hsrc)
        as [Hs1 _].
      exists dest, (t ++ t1 ++ [Logger "error" e]).
      eexists. split; [exact Hdest|]. split.
      { cbn [set_slot sites]. rewrite Hs1. exact Hsites. }
      split.
      * unfold clone_failure_trace.
        destruct (value svc); cbn in Hin; try lia;
          cbn [clone_recovery]; unfold clone_rollback; rewrite Hdest;
          rewrite <- !app_assoc; cbn [app]; reflexivity.
      * rewrite settled_app_none by exact Hset.
        rewrite settled_app_none by (apply settled_none_iff; exact Hq1).
        reflexivity.
  - (* the step succeeds and the service moves on *)
    unfold clone_wf in Hwf. rewrite Hst in Hwf.
    destruct Hwf as (_ & _ & _ & Hset & Hvis & _).
    destruct (clone_early_visited svc Hvis HX) as [Htmp Hsetup].
    cbn [clone_moved context value status visited].
    rewrite clone_assign_newSiteName.
    rewrite (clone_next_index _ HX (or_introl HN)).
    split; [exact Hname|].
    split.
    { intros Hin. apply in_app_iff in Hin.
      destruct Hin as [Hin|[Hin|[]]]; [auto|].
      destruct (value svc) eqn:HV; try discriminate HX; try discriminate Hin.
      unfold clone_src in Hsrc. cbn [states Clone.cloneMachine] in Hsrc.
      apply setupDestinationSite_spec in Hsrc.
      destruct Hsrc as (_ & Hdup & _).
      destruct (Hearly Hst) as (Hs & _); [cbn; lia|].
      rewrite <- Hs, <- Hname. exact Hdup. }
    split.
    { intros _ Hidx.
      destruct (Hearly Hst) as (Hs & Hd & Hart & Hdest); [lia|].
      destruct (value svc) eqn:HV; cbn in Hidx; try lia; try discriminate HX.
      unfold clone_src in Hsrc. cbn [states Clone.cloneMachine] in Hsrc.
      destruct (sat_run _ _ _ _ _ _ _ _ (clone_getCredentials_footprint env _) Hsrc)
        as [[Hs1 Hd1] Ha1].
      split; [congruence|]. split; [congruence|].
      split.
      { apply Forall_app; split; [exact Hart|].
        apply Forall_app; split; [exact Ha1 | repeat constructor]. }
      rewrite clone_assign_destinationSite by discriminate. exact Hdest. }
    split; [|split; discriminate].
    intros _ Hidx.
    destruct (Nat.eq_dec (clone_index (value svc)) 1) as [H1|H1].
    + destruct (value svc) eqn:HV; try discriminate H1.
      unfold clone_src in Hsrc. cbn [states Clone.cloneMachine] in Hsrc.
      apply setupDestinationSite_spec in Hsrc.
      destruct Hsrc as (_ & _ & dest & -> & Hsites).
      destruct (Hearly Hst) as (Hs & _); [cbn; lia|].
      exists dest. split; [reflexivity|]. rewrite <- Hs. exact Hsites.
    + assert (H2 : 2 <= clone_index (value svc)) by lia.
      destruct (Hlate Hst H2) as (dest & Hdest & Hsites).
      destruct (sat_run _ _ _ _ _ _ _ _ (clone_src_sites env _ (context svc) H2) Hsrc)
        as [Hs1 _].
      exists dest. split.
      * rewrite clone_assign_destinationSite; [exact Hdest|].
        intros Hv. rewrite Hv in H1. apply H1. reflexivity.
      * rewrite Hs1. exact Hsites.
  - (* the last step succeeds *)
    cbn [clone_moved context value status visited].
    rewrite clone_assign_newSiteName.
    split; [exact Hname|].
    split.
    { intros Hin. apply in_app_iff in Hin.
      destruct Hin as [Hin|[Hin|[]]]; [auto|].
      rewrite HN in Hin. discriminate Hin. }
    split; [discriminate|]. split; [discriminate|].
    intros _ Hv. rewrite HN in Hv. discriminate Hv.
Qed.

Lemma clone_rolled_start env s opts svc t :
  inProgressStateMachine s = None ->
  Clone.cloneFromBackup opts env s
    = (Ok (Some svc), set_slot (Some "cloneFromBackup"%string) s, t) ->
  clone_rolled env (sites s) (disk s) (Clone.opts_newSiteName opts) 8 svc
    (set_slot (Some "cloneFromBackup"%string) s) t.
Proof.
  intros H0 E.
  destruct (clone_accepted env s opts H0)
    as (svc' & t' & E' & Hwf & Hart & _ & Hname & Hdest & _ & Hv).
  rewrite E in E'. injection E' as <- <-.
  pose proof Hwf as Hwf2. unfold clone_wf in Hwf2.
  destruct (status svc) eqn:Hst; try tauto.
  2:{ destruct Hwf2 as (Hslot & _). cbn in Hslot. discriminate Hslot. }
  destruct Hwf2 as (_ & _ & _ & _ & Hvis & _). rewrite Hv in Hvis. cbn in Hvis.
  unfold clone_rolled. split; [exact Hwf|]. split; [exact Hname|].
  split.
  { rewrite Hvis. cbn. intros [Hc|[]]. discriminate Hc. }
  split; [intros _ _; repeat split; assumption|].
  split; [intros _ Hidx; rewrite Hv in Hidx; cbn in Hidx; lia|].
  intros Hc. rewrite Hst in Hc. discriminate Hc.
Qed.



(** The model of the duplicate check says yes when the name matches that
    of a registered site without regard to case, or in its formatted
    form. *)
Lemma checkForDuplicateSiteName_model_collides nicename registered site newName :
  In site registered ->
  toLowerCase (Site.name site) = toLowerCase newName \/
  nicename (Site.name site) = nicename newName ->
  checkForDuplicateSiteName_model nicename registered newName (nicename newName) = true.
Proof.
  intros Hin Hsame. unfold checkForDuplicateSiteName_model.
  apply existsb_exists. exists site. split; [exact Hin|].
  apply orb_true_iff. destruct Hsame as [H|H]; [left | right];
    apply String.eqb_eq; exact H.
Qed.

(** C5. Name-collision short-circuit.  Let the duplicate check, asked about
    the new name and its formatted form in the registry as it is, say that
    the name is taken.  Then [setupDestinationSite] shows the error box and
    throws the duplicate-name error with the state untouched, and the whole
    clone run ends in [failed] without ever entering [creatingTmpDir]: the
    registry and the disk are the ones it started from, no site was added,
    no staging directory made, nothing copied, and when the setup state was
    reached the recorded error is the duplicate-name error. *)
Theorem name_collision_short_circuit env s opts :
  inProgressStateMachine s = None ->
  checkForDuplicateSiteName env (sites s) (Clone.opts_newSiteName opts)
    (formatSiteNicename env (Clone.opts_newSiteName opts)) = true ->
  (forall ctx s0,
     Clone.newSiteName ctx = Clone.opts_newSiteName opts -> sites s0 = sites s ->
     Clone.setupDestinationSite ctx env s0
       = (Throw Clone.siteDomainTakenError, s0,
          [duplicate_name_box (Clone.opts_newSiteName opts)])) /\
  exists svc s' t,
    Clone.clone opts env s = (Ok (Some svc), s', t) /\
    value svc = Clone.failed /\
    ~ In Clone.creatingTmpDir (visited svc) /\
    sites s' = sites s /\ disk s' = disk s /\ Forall no_destination_call t /\
    Clone.destinationSite (context svc) = None /\
    (In Clone.setupDestinationSite_ (visited svc) ->
     Clone.error (context svc) = Some Clone.siteDomainTakenError).
Proof.
  intros H0 Hdup. split.
  - intros ctx s0 Hname Hs.
    rewrite <- Hname. apply setupDestinationSite_duplicate.
    rewrite Hname, Hs. exact Hdup.
  - destruct (clone_invariant env s opts
                (clone_rolled env (sites s) (disk s) (Clone.opts_newSiteName opts)) H0)
      as (svc & s1 & t & E & Hwf & Hname & Hnodup & Hearly & Hlate & Hfailed).
    + intros; eapply clone_rolled_step; eassumption.
    + intros svc t E. apply clone_rolled_start; assumption.
    + exists svc, s1, t. split; [exact E|].
      pose proof (clone_wf_0 _ _ _ Hwf) as Hst.
      assert (Hnot : ~ In Clone.creatingTmpDir (visited svc)).
      { intros Hin. apply Hnodup in Hin. congruence. }
      unfold clone_wf in Hwf. rewrite Hst in Hwf.
      destruct Hwf as (_ & _ & _ & [(_ & Hvis & _)|(Hv & _)]).
      { exfalso. apply Hnot. rewrite Hvis. cbn. auto. }
      destruct (Hfailed Hst Hv) as [Hbefore _].
      destruct (Hbefore Hnot) as (Hs & Hd & Hart & Hdest & Herr).
      repeat split; try assumption.
      intros Hin. apply (Herr Hin).
Qed.

(** * Further verification *)

(** ** The disk, path by path *)

Lemma path_eqb_app_head a p q : path_eqb (a ++ p) (a ++ q) = path_eqb p q.
Proof.
  induction a as [|x a IH]; cbn; [reflexivity|].
  rewrite String.eqb_refl. exact IH.
Qed.

Lemma path_eqb_prefix p q : path_eqb p q = true -> is_prefix p q = true.
Proof. intros H. apply path_eqb_eq in H. subst. apply is_prefix_refl. Qed.

Lemma is_prefix_app p r : is_prefix p (p ++ r) = true.
Proof. apply is_prefix_spec. exists r. reflexivity. Qed.

Lemma is_prefix_trans p q r :
  is_prefix p q = true -> is_prefix q r = true -> is_prefix p r = true.
Proof.
  intros H1 H2. apply is_prefix_spec in H1, H2.
  destruct H1 as [a ->], H2 as [b ->]. rewrite <- app_assoc. apply is_prefix_app.
Qed.

Lemma node_at_cons e d p :
  node_at (e :: d) p = if path_eqb (fst e) p then Some (snd e) else node_at d p.
Proof.
  unfold node_at. cbn [find]. destruct e as [q n]; cbn [fst snd].
  destruct (path_eqb q p); reflexivity.
Qed.

Lemma node_at_filter (g : Path -> bool) d p :
  node_at (filter (fun e => g (fst e)) d) p = if g p then node_at d p else None.
Proof.
  induction d as [|e d IH]; [cbn; destruct (g p); reflexivity|].
  cbn [filter]. destruct (g (fst e)) eqn:Hg.
  - rewrite !node_at_cons, IH.
    destruct (path_eqb (fst e) p) eqn:Hp; [|reflexivity].
    apply path_eqb_eq in Hp. rewrite <- Hp, Hg. reflexivity.
  - rewrite IH, node_at_cons.
    destruct (path_eqb (fst e) p) eqn:Hp; [|reflexivity].
    apply path_eqb_eq in Hp. rewrite <- Hp, Hg. reflexivity.
Qed.

Lemma node_at_exists d p : existsSync d p = true <-> node_at d p <> None.
Proof.
  unfold existsSync, node_at. induction d as [|e d IH]; cbn.
  - split; [discriminate | congruence].
  - destruct (path_eqb (fst e) p); cbn; [|exact IH].
    destruct e; split; [discriminate | reflexivity].
Qed.

Lemma node_at_none d p : existsSync d p = false <-> node_at d p = None.
Proof.
  pose proof (node_at_exists d p) as H.
  destruct (existsSync d p), (node_at d p); split; intros E; try reflexivity;
    try discriminate; exfalso.
  - assert (T : true = true) by reflexivity. apply H in T. congruence.
  - assert (T : Some n <> None) by discriminate. apply H in T. discriminate.
Qed.

Lemma node_at_read_file d p : 
  read_file d p = match node_at d p with Some (File x) => Some x | _ => None end.
Proof.
  unfold read_file, node_at.
  destruct (find (fun e => path_eqb (fst e) p) d) as [[q n]|]; reflexivity.
Qed.

Lemma node_at_remove q d p :
  node_at (remove q d) p = if is_prefix q p then None else node_at d p.
Proof.
  unfold remove. rewrite (node_at_filter (fun x => negb (is_prefix q x))).
  destruct (is_prefix q p); reflexivity.
Qed.

Lemma node_at_write e d p :
  node_at (write e d) p = if path_eqb (fst e) p then Some (snd e) else node_at d p.
Proof.
  unfold write. rewrite node_at_cons.
  destruct (path_eqb (fst e) p) eqn:E; [reflexivity|].
  rewrite (node_at_filter (fun x => negb (path_eqb x (fst e)))).
  rewrite path_eqb_sym, E. reflexivity.
Qed.

Lemma node_at_mkdir_other q d p :
  path_eqb q p = false -> node_at (mkdir q d) p = node_at d p.
Proof.
  intros H. unfold mkdir. destruct (existsSync d q); [reflexivity|].
  rewrite node_at_cons. cbn [fst]. rewrite H. reflexivity.
Qed.

Lemma node_at_mkdir_self q d :
  node_at (mkdir q d) q = match node_at d q with Some n => Some n | None => Some Dir end.
Proof.
  unfold mkdir. destruct (existsSync d q) eqn:E.
  - apply node_at_exists in E. destruct (node_at d q); [reflexivity | congruence].
  - rewrite node_at_cons. cbn [fst snd]. rewrite path_eqb_refl.
    apply node_at_none in E. rewrite E. reflexivity.
Qed.

Lemma node_at_emptyDir_out p d q :
  is_prefix p q = false -> node_at (emptyDir p d) q = node_at d q.
Proof.
  intros H. unfold emptyDir. rewrite node_at_mkdir_other.
  - rewrite (node_at_filter (fun x => negb (is_below p x))).
    unfold is_below. rewrite H. reflexivity.
  - destruct (path_eqb p q) eqn:E; [|reflexivity].
    apply path_eqb_prefix in E. congruence.
Qed.

Lemma node_at_fold_write l d p :
  node_at (fold_right write d l) p =
  match node_at l p with Some n => Some n | None => node_at d p end.
Proof.
  induction l as [|e l IH]; cbn [fold_right]; [reflexivity|].
  rewrite node_at_write, node_at_cons.
  destruct (path_eqb (fst e) p); [reflexivity | exact IH].
Qed.

Lemma node_at_rebased dir (files : Disk) r :
  node_at (map (fun e => (join dir (fst e), snd e)) files) (dir ++ r) = node_at files r.
Proof.
  induction files as [|e files IH]; [reflexivity|].
  cbn [map]. rewrite !node_at_cons. cbn [fst snd].
  change (join dir (fst e)) with (dir ++ fst e). rewrite path_eqb_app_head.
  destruct (path_eqb (fst e) r); [reflexivity | exact IH].
Qed.

Lemma node_at_rebased_out dir (files : Disk) q :
  is_prefix dir q = false ->
  node_at (map (fun e => (join dir (fst e), snd e)) files) q = None.
Proof.
  intros H. induction files as [|e files IH]; [reflexivity|].
  cbn [map]. rewrite node_at_cons. cbn [fst snd].
  change (join dir (fst e)) with (dir ++ fst e).
  destruct (path_eqb (dir ++ fst e) q) eqn:E; [|exact IH].
  apply path_eqb_eq in E. subst q. rewrite is_prefix_app in H. discriminate.
Qed.

(** restic's unpacking: the snapshot's entries land below the restore
    directory, over what was there; nothing else changes. *)
Lemma node_at_unpack_in dir files d r :
  node_at (unpack dir files d) (dir ++ r) =
  match node_at files r with Some n => Some n | None => node_at d (dir ++ r) end.
Proof. unfold unpack. rewrite node_at_fold_write, node_at_rebased. reflexivity. Qed.

Lemma node_at_unpack_out dir files d q :
  is_prefix dir q = false -> node_at (unpack dir files d) q = node_at d q.
Proof.
  intros H. unfold unpack. rewrite node_at_fold_write, node_at_rebased_out by exact H.
  reflexivity.
Qed.

Lemma relative_app p r : relative p (p ++ r) = Some r.
Proof. apply relative_spec. reflexivity. Qed.

Lemma node_at_relocate src dst d r :
  r <> [] -> node_at (relocate src dst d) (dst ++ r) = node_at d (src ++ r).
Proof.
  intros Hr. unfold relocate. induction d as [|e d IH]; [reflexivity|].
  cbn [flat_map]. rewrite (node_at_cons e d).
  destruct (relative src (fst e)) as [[|a rest]|] eqn:E.
  - apply relative_spec in E. rewrite app_nil_r in E.
    cbn [app]. rewrite IH.
    destruct (path_eqb (fst e) (src ++ r)) eqn:Hp; [|reflexivity].
    apply path_eqb_eq in Hp. rewrite E in Hp.
    rewrite <- (app_nil_r src) in Hp at 1. apply app_inv_head in Hp. congruence.
  - apply relative_spec in E. cbn [app]. rewrite node_at_cons. cbn [fst snd].
    rewrite E, !path_eqb_app_head.
    destruct (path_eqb (a :: rest) r); [reflexivity | exact IH].
  - cbn [app]. rewrite IH.
    destruct (path_eqb (fst e) (src ++ r)) eqn:Hp; [|reflexivity].
    apply path_eqb_eq in Hp. rewrite Hp, relative_app in E. discriminate.
Qed.

Lemma node_at_relocate_out src dst d q :
  is_below dst q = false -> node_at (relocate src dst d) q = None.
Proof.
  intros H. unfold relocate. induction d as [|e d IH]; [reflexivity|].
  cbn [flat_map].
  destruct (relative src (fst e)) as [[|a rest]|] eqn:E; cbn [app]; try exact IH.
  rewrite node_at_cons. cbn [fst snd].
  destruct (path_eqb (dst ++ a :: rest) q) eqn:Hp; [|exact IH].
  apply path_eqb_eq in Hp. subst q. unfold is_below in H.
  rewrite is_prefix_app in H. cbn in H.
  rewrite <- (app_nil_r dst) in H at 1. rewrite path_eqb_app_head in H. discriminate.
Qed.

(** [fs.copySync] of a directory: what is below the source lands below the
    destination, over what was there; the rest of the destination and
    everything outside it stay. *)
Lemma node_at_copy_in src dst d r :
  r <> [] ->
  node_at (copy src dst d) (dst ++ r) =
  match node_at d (src ++ r) with Some n => Some n | None => node_at d (dst ++ r) end.
Proof.
  intros Hr. unfold copy. rewrite node_at_fold_write, node_at_relocate by exact Hr.
  rewrite node_at_mkdir_other; [reflexivity|].
  rewrite <- (app_nil_r dst) at 1. rewrite path_eqb_app_head.
  destruct r; [congruence | reflexivity].
Qed.

Lemma node_at_copy_out src dst d q :
  is_prefix dst q = false -> node_at (copy src dst d) q = node_at d q.
Proof.
  intros H. unfold copy. rewrite node_at_fold_write, node_at_relocate_out.
  - apply node_at_mkdir_other.
    destruct (path_eqb dst q) eqn:E; [|reflexivity].
    apply path_eqb_prefix in E. congruence.
  - unfold is_below. rewrite H. reflexivity.
Qed.

Lemma node_at_removals items d q :
  node_at (removals items d) q =
  if existsb (fun p => is_prefix p q) items then None else node_at d q.
Proof.
  unfold removals. revert d. induction items as [|p items IH]; intros d; [reflexivity|].
  cbn [fold_left existsb]. rewrite IH, node_at_remove.
  destruct (is_prefix p q); cbn; [|reflexivity].
  destruct (existsb _ items); reflexivity.
Qed.

(** ** The filesystem step of the restore *)

Lemma set_disk_set_disk d d' s : set_disk d (set_disk d' s) = set_disk d s.
Proof. reflexivity. Qed.

Lemma Promise_all_removals env l s :
  (forall p, In p l -> fault env (FsRemove p) = None) ->
  Promise_all (map fs_remove l) env s
    = (Ok tt, set_disk (removals l (disk s)) s, map FsRemove l).
Proof.
  revert s. induction l as [|p l IH]; intros s Hf.
  - destruct s; reflexivity.
  - cbn [map Promise_all]. rewrite bind_unfold.
    unfold attempt at 1, fs_remove at 1, call.
    rewrite (Hf p (or_introl eq_refl)).
    rewrite bind_unfold. unfold attempt at 1.
    rewrite IH by (intros q Hq; apply Hf; right; exact Hq).
    cbn [ret disk set_disk app]. rewrite app_nil_r. reflexivity.
Qed.


Lemma diverging_paths a b r :
  is_prefix a b = false -> is_prefix b a = false -> is_prefix a (b ++ r) = false.
Proof.
  revert b. induction a as [|x a IH]; intros b Hab Hba; [discriminate Hab|].
  destruct b as [|y b]; [discriminate Hba|].
  cbn in *. destruct (x =? y)%string eqn:E; [|reflexivity].
  apply String.eqb_eq in E. subst y. rewrite String.eqb_refl in Hba.
  cbn in *. apply IH; assumption.
Qed.

Lemma child_prefix_inv dir n q :
  is_prefix (dir ++ [n]) (dir ++ q) = true -> exists r, q = n :: r.
Proof.
  intros H. apply is_prefix_spec in H. destruct H as [r H].
  rewrite <- app_assoc in H. apply app_inv_head in H. exists r. exact H.
Qed.

(** Which paths the removals of the restore take away: the listed
    children of the site path and what is below them. *)
Lemma listed_removed d sitePath q :
  existsb (fun p => is_prefix p q) (filteredSiteFiles d sitePath) = true <->
  exists n r, q = sitePath ++ n :: r /\ n <> "conf"%string /\ on_disk d (sitePath ++ [n]).
Proof.
  rewrite existsb_exists. split.
  - intros [p [Hin Hpre]]. apply filteredSiteFiles_spec in Hin.
    destruct Hin as [Hd [n [-> Hn]]].
    apply is_prefix_spec in Hpre. destruct Hpre as [r ->].
    exists n, r. rewrite <- app_assoc. auto.
  - intros (n & r & -> & Hn & Hd). exists (sitePath ++ [n]). split.
    + apply filteredSiteFiles_spec. split; [exact Hd|]. exists n. auto.
    + apply is_prefix_spec. exists r. rewrite <- app_assoc. reflexivity.
Qed.

Lemma listed_outside d sitePath q :
  is_prefix sitePath q = false ->
  existsb (fun p => is_prefix p q) (filteredSiteFiles d sitePath) = false.
Proof.
  intros H. destruct (existsb _ _) eqn:E; [|reflexivity].
  apply listed_removed in E. destruct E as (n & r & -> & _).
  rewrite is_prefix_app in H. discriminate.
Qed.

Lemma listed_conf d sitePath r :
  existsb (fun p => is_prefix p (sitePath ++ "conf" :: r))
    (filteredSiteFiles d sitePath) = false.
Proof.
  destruct (existsb _ _) eqn:E; [|reflexivity].
  apply listed_removed in E. destruct E as (n & r' & Hq & Hn & _).
  apply app_inv_head in Hq. injection Hq as <- _. congruence.
Qed.

(** The step as one equation, when the removals go through. *)
Lemma restore_moveSiteFromTmpDir_eq env s ctx tmp :
  let sitePath := formatHomePath env (Site.path (Restore.site ctx)) in
  let items := filteredSiteFiles (disk s) sitePath in
  Restore.tmpDirData ctx = Some tmp ->
  (forall p, In p items -> fault env (FsRemove p) = None) ->
  Restore.moveSiteFromTmpDir ctx env s =
  match fault env (FsCopySync (dir_name tmp) sitePath) with
  | Some e =>
      (Throw e, set_disk (removals items (disk s)) s,
       Logger "info" (move_log items) :: map FsRemove items
         ++ [FsCopySync (dir_name tmp) sitePath])
  | None =>
      (Ok Restore.undefined,
       set_disk (copy (dir_name tmp) sitePath (removals items (disk s))) s,
       Logger "info" (move_log items) :: map FsRemove items
         ++ [FsCopySync (dir_name tmp) sitePath;
             Logger "info" (moved_log (dir_name tmp) sitePath)])
  end.
Proof.
  intros sitePath items Htmp Hf. unfold Restore.moveSiteFromTmpDir.
  rewrite bind_ask. unfold getFilteredSiteFiles.
  rewrite bind_unfold, bind_ask, bind_gets. cbn [ret].
  fold sitePath. fold items.
  rewrite bind_unfold. unfold logger_info at 1, emit at 1.
  rewrite bind_unfold, (Promise_all_removals env items s Hf), Htmp.
  rewrite bind_unfold. unfold fs_copySync at 1, call.
  destruct (fault env (FsCopySync (dir_name tmp) sitePath)).
  - cbn [app]. reflexivity.
  - cbn [disk set_disk]. rewrite bind_unfold.
    unfold logger_info, emit, ret. cbn [app].
    rewrite ?app_nil_r. reflexivity.
Qed.

(** The site directory once the listed entries are removed and the staging
    directory is copied over it. *)
Lemma applied_spec d tmp sitePath :
  is_prefix sitePath tmp = false ->
  is_prefix tmp sitePath = false ->
  let d' := copy tmp sitePath (removals (filteredSiteFiles d sitePath) d) in
  (forall r n, r <> [] -> node_at d (tmp ++ r) = Some n ->
     node_at d' (sitePath ++ r) = Some n) /\
  (forall r, node_at d (tmp ++ "conf" :: r) = None ->
     node_at d' (sitePath ++ "conf" :: r) = node_at d (sitePath ++ "conf" :: r)) /\
  (forall n r, n <> "conf" -> on_disk d (sitePath ++ [n]) ->
     node_at d (tmp ++ n :: r) = None ->
     node_at d' (sitePath ++ n :: r) = None) /\
  (forall q, is_prefix sitePath q = false -> node_at d' q = node_at d q).
Proof.
  intros Hout Hout' d'. subst d'.
  assert (Hstaged : forall r,
    node_at (removals (filteredSiteFiles d sitePath) d) (tmp ++ r) = node_at d (tmp ++ r)).
  { intros r. rewrite node_at_removals, listed_outside; [reflexivity|].
    apply diverging_paths; assumption. }
  repeat split.
  - intros r n Hr Hn. rewrite node_at_copy_in by exact Hr.
    rewrite Hstaged, Hn. reflexivity.
  - intros r Hn. rewrite node_at_copy_in by discriminate.
    rewrite Hstaged, Hn, node_at_removals, listed_conf. reflexivity.
  - intros n r Hn Hd Hs. rewrite node_at_copy_in by discriminate.
    rewrite Hstaged, Hs, node_at_removals.
    assert (E : existsb (fun p => is_prefix p (sitePath ++ n :: r))
                  (filteredSiteFiles d sitePath) = true).
    { apply listed_removed. exists n, r. auto. }
    rewrite E. reflexivity.
  - intros q Hq. rewrite node_at_copy_out by exact Hq.
    rewrite node_at_removals, listed_outside by exact Hq. reflexivity.
Qed.



Lemma Promise_all_remove_outcome env l s :
  exists r s',
    Promise_all (map fs_remove l) env s = (r, s', map FsRemove l) /\
    (forall q, node_at (disk s') q = None \/ node_at (disk s') q = node_at (disk s) q) /\
    match r with
    | Ok _ => forall p, In p l -> fault env (FsRemove p) = None
    | Throw e => exists p, In p l /\ fault env (FsRemove p) = Some e
    end.
Proof.
  revert s. induction l as [|p l IH]; intros s.
  - exists (Ok tt), s. split; [reflexivity|]. split; [auto | intros p []].
  - cbn [map Promise_all]. rewrite bind_unfold.
    unfold attempt at 1, fs_remove at 1, call.
    destruct (fault env (FsRemove p)) as [e|] eqn:Hp.
    + destruct (IH s) as (r & s' & E & Hd & Hr).
      rewrite bind_unfold. unfold attempt at 1. rewrite E.
      exists (Throw e), s'. split; [cbn; rewrite app_nil_r; reflexivity|].
      split; [exact Hd|]. exists p. split; [left; reflexivity | exact Hp].
    + destruct (IH (set_disk (remove p (disk s)) s)) as (r & s' & E & Hd & Hr).
      rewrite bind_unfold. unfold attempt at 1. rewrite E.
      exists r, s'. split; [destruct r as [[]|?]; cbn; rewrite app_nil_r; reflexivity|].
      split.
      * intros q. destruct (Hd q) as [H|H]; [left; exact H|].
        rewrite H. cbn [disk set_disk]. rewrite node_at_remove.
        destruct (is_prefix p q); auto.
      * destruct r as [u|e].
        -- intros p' [<-|Hin]; [exact Hp | apply Hr, Hin].
        -- destruct Hr as (p' & Hin & Hf). exists p'. split; [right; exact Hin | exact Hf].
Qed.


(** ** The database step *)

Lemma find_filter_keeps {A} (g h : A -> bool) l :
  (forall x, g x = true -> h x = true) -> find g (filter h l) = find g l.
Proof.
  intros Hgh. induction l as [|a l IH]; [reflexivity|].
  cbn [filter find]. destruct (h a) eqn:Hh.
  - cbn [find]. destruct (g a); [reflexivity | exact IH].
  - destruct (g a) eqn:Hg; [|exact IH].
    apply Hgh in Hg. congruence.
Qed.

Lemma mysql_of_update_other id id' f s :
  id' <> id -> mysql_of (update_mysql id f s) id' = mysql_of s id'.
Proof.
  intros Hne. unfold update_mysql, mysql_of. cbn [mysql set_mysql find fst].
  assert (E : (id =? id')%string = false) by (apply String.eqb_neq; congruence).
  rewrite E.
  rewrite (find_filter_keeps (fun e : string * MySQL => (fst e =? id')%string)
             (fun e => negb (fst e =? id)%string)); [reflexivity|].
  intros x Hx. apply String.eqb_eq in Hx. apply negb_true_iff, String.eqb_neq. congruence.
Qed.

Lemma database_set_other db db' data m :
  db' <> db -> database (set_database db data m) db' = database m db'.
Proof.
  intros Hne. unfold database, set_database. cbn [databases find fst].
  assert (E : (db =? db')%string = false) by (apply String.eqb_neq; congruence).
  rewrite E.
  rewrite (find_filter_keeps (fun e : string * string => (fst e =? db')%string)
             (fun e => negb (fst e =? db)%string)); [reflexivity|].
  intros x Hx. apply String.eqb_eq in Hx. apply negb_true_iff, String.eqb_neq. congruence.
Qed.

Lemma database_set_mode mode m db : database (set_mode mode m) db = database m db.
Proof. reflexivity. Qed.

(** The SQL sequence of [importDatabase] when every call goes through. *)
Lemma import_goes_through env s site sqlFile :
  (forall q, fault env (RunSiteSQLCmd site q) = None) ->
  fault env (ImportSQLFile site sqlFile) = None ->
  forall {A} (a : A),
  exists s',
    (existingSqlMode <- runSiteSQLCmd site SELECT_SQL_MODE ;;
     runSiteSQLCmd site (SET_GLOBAL_SQL_MODE "NO_AUTO_VALUE_ON_ZERO") ;;
     runSiteSQLCmd site (DROP_CREATE_DATABASE (Site.mysql_database site)) ;;
     importSQLFile site sqlFile ;;
     runSiteSQLCmd site (SET_GLOBAL_SQL_MODE existingSqlMode) ;;
     ret a) env s
    = (Ok a, s', sql_after_import site sqlFile (sql_mode (mysql_of s (Site.id site)))) /\
    s' = update_mysql (Site.id site) (set_mode (sql_mode (mysql_of s (Site.id site))))
           (update_mysql (Site.id site)
              (set_database (Site.mysql_database site) (file_data (disk s) sqlFile))
              (update_mysql (Site.id site)
                 (set_database (Site.mysql_database site) EmptyString)
                 (update_mysql (Site.id site) (set_mode permissive_mode) s))).
Proof.
  intros Hq Hi A a. eexists. split; [|reflexivity].
  cbv [bind runSiteSQLCmd importSQLFile call ret].
  rewrite !Hq, Hi. reflexivity.
Qed.

Lemma import_state s site sqlFile s' :
  s' = update_mysql (Site.id site) (set_mode (sql_mode (mysql_of s (Site.id site))))
         (update_mysql (Site.id site)
            (set_database (Site.mysql_database site) (file_data (disk s) sqlFile))
            (update_mysql (Site.id site)
               (set_database (Site.mysql_database site) EmptyString)
               (update_mysql (Site.id site) (set_mode permissive_mode) s))) ->
  sql_mode (mysql_of s' (Site.id site)) = sql_mode (mysql_of s (Site.id site)) /\
  database (mysql_of s' (Site.id site)) (Site.mysql_database site)
    = Some (file_data (disk s) sqlFile) /\
  (forall db, db <> Site.mysql_database site ->
     database (mysql_of s' (Site.id site)) db = database (mysql_of s (Site.id site)) db) /\
  (forall id, id <> Site.id site -> mysql_of s' id = mysql_of s id) /\
  disk s' = disk s /\ sites s' = sites s /\
  inProgressStateMachine s' = inProgressStateMachine s.
Proof.
  intros ->. rewrite !mysql_of_update.
  split; [reflexivity|]. split; [rewrite database_set_mode; apply database_set|].
  split; [|split; [|repeat split]].
  - intros db Hdb. rewrite database_set_mode.
    rewrite !database_set_other by exact Hdb. apply database_set_mode.
  - intros id Hid. rewrite !mysql_of_update_other by exact Hid. reflexivity.
Qed.

(** X3. The database step when every call goes through.  With the dump
    present, [importDatabase] of either service returns after the five calls
    (read the mode, set the permissive mode, drop and create, import, put
    the mode back), and then: the SQL mode is the one the step found, the
    site's database holds the dump, the site's other databases and the MySQL
    of every other site are as before, and disk, registry and the
    single-flight slot are untouched. *)
Theorem database_apply_round_trip env s tmp site rctx cctx :
  Restore.site rctx = site -> Restore.tmpDirData rctx = Some tmp ->
  Clone.destinationSite cctx = Some site -> Clone.tmpDirData cctx = Some tmp ->
  existsSync (disk s) (sqlFile_in env tmp) = true ->
  (forall q, fault env (RunSiteSQLCmd site q) = None) ->
  fault env (ImportSQLFile site (sqlFile_in env tmp)) = None ->
  exists s',
    Restore.importDatabase rctx env s
      = (Ok Restore.undefined, s',
         sql_after_import site (sqlFile_in env tmp) (sql_mode (mysql_of s (Site.id site)))) /\
    Clone.importDatabase cctx env s
      = (Ok Clone.undefined, s',
         sql_after_import site (sqlFile_in env tmp) (sql_mode (mysql_of s (Site.id site)))) /\
    sql_mode (mysql_of s' (Site.id site)) = sql_mode (mysql_of s (Site.id site)) /\
    database (mysql_of s' (Site.id site)) (Site.mysql_database site)
      = Some (file_data (disk s) (sqlFile_in env tmp)) /\
    (forall db, db <> Site.mysql_database site ->
       database (mysql_of s' (Site.id site)) db = database (mysql_of s (Site.id site)) db) /\
    (forall id, id <> Site.id site -> mysql_of s' id = mysql_of s id) /\
    disk s' = disk s /\ sites s' = sites s /\
    inProgressStateMachine s' = inProgressStateMachine s.
Proof.
  intros Hsite Htmp Hdest Htmp' Hex Hq Hi.
  destruct (import_goes_through env s site _ Hq Hi Restore.undefined) as (s1 & E1 & Hs1).
  destruct (import_goes_through env s site _ Hq Hi Clone.undefined) as (s2 & E2 & Hs2).
  exists s1. split; [|split].
  - unfold Restore.importDatabase. rewrite Htmp, Hsite.
    unfold sqlFile_in in *. rewrite bind_ask, bind_gets, Hex. exact E1.
  - unfold Clone.importDatabase. rewrite Htmp', Hdest.
    unfold sqlFile_in in *. rewrite bind_ask, bind_gets, Hex.
    rewrite Hs1, <- Hs2. exact E2.
  - apply (import_state s site (sqlFile_in env tmp) s1 Hs1).
Qed.

(** ** What a run reports *)

#[local] Instance any_state_preorder : PreOrder any_state.
Proof. split; [intros s | intros a b c _ _]; exact I. Qed.

Lemma filter_none {A} (f : A -> bool) l :
  Forall (fun c => f c = false) l -> filter f l = [].
Proof.
  induction 1 as [|c l Hc Hl IH]; cbn; [reflexivity|]. rewrite Hc. exact IH.
Qed.

Lemma quiet_filters t :
  Forall quiet t ->
  filter is_started t = [] /\ filter is_completed t = [] /\
  filter is_error_log t = [] /\ filter is_banner t = [] /\
  filter is_deleteSite t = [] /\ settled t = None.
Proof.
  intros H. repeat split;
    try (apply filter_none; eapply Forall_impl; [|exact H]; cbv beta;
         intros c Hc; apply Hc).
  apply settled_none_iff. eapply Forall_impl; [|exact H].
  intros c Hc. apply Hc.
Qed.

Ltac quiet_call := first [exact I | repeat split; reflexivity].

Lemma restore_src_quiet env X ctx :
  sat env any_state quiet (restore_src X ctx).
Proof.
  destruct X; unfold restore_src; cbn [states Restore.restoreMachine];
    unfold Restore.getCredentials, Restore.createTmpDir, Restore.restoreBackup,
      Restore.moveSiteFromTmpDir, Restore.importDatabase;
    unfold_collaborators; sat_go; try quiet_call.
  apply sat_Promise_all; [typeclasses eauto|]. apply Forall_forall. intros m Hm.
  apply in_map_iff in Hm. destruct Hm as [p [<- _]].
  unfold fs_remove; sat_go; quiet_call.
Qed.

Lemma restore_removeTmpDir_quiet env ctx :
  sat env any_state quiet (Restore.removeTmpDir ctx).
Proof.
  unfold Restore.removeTmpDir; unfold_collaborators; sat_go; quiet_call.
Qed.

Lemma clone_src_quiet env X ctx :
  sat env any_state quiet (clone_src X ctx).
Proof.
  destruct X; unfold clone_src; cbn [states Clone.cloneMachine];
    unfold_clone; unfold_collaborators; sat_go; quiet_call.
Qed.

Lemma clone_removeTmpDir_quiet env ctx :
  sat env any_state quiet (Clone.removeTmpDir ctx).
Proof.
  unfold Clone.removeTmpDir; unfold_collaborators; sat_go; quiet_call.
Qed.

Lemma restore_reported_step env n svc s t svc' s' t' :
  restore_step env svc s svc' s' t' ->
  restore_reported (S n) svc s t ->
  restore_reported n svc' s' (t ++ t').
Proof.
  intros Hstep (Hwf & Hcount & Hrep).
  split; [eapply restore_wf_step; eassumption|].
  inversion Hstep as [Hidle | e s1 t1 Hst HX Hsrc | d s1 t1 Hst HX HN Hsrc
                      | d s1 t1 r s2 t2 Hst HX HN Hsrc Hrm]; subst; clear Hstep.
  - rewrite app_nil_r. split; assumption.
  - rewrite Hst in Hrep. destruct Hrep as (Hc & He & Hb).
    unfold restore_wf in Hwf. rewrite Hst in Hwf.
    destruct Hwf as (_ & _ & _ & Hset & _ & _).
    destruct (sat_run _ _ _ _ _ _ _ _ (restore_src_quiet env _ _) Hsrc) as [_ Hq1].
    apply quiet_filters in Hq1. destruct Hq1 as (Q1 & Q2 & Q3 & Q4 & Q5 & Q6).
    cbn [status restore_failed value context visited Restore.error Restore.with_error].
    unfold restore_failure_trace, restore_recovery, transition_trace, stop_trace.
    split; [|split; [|split; [reflexivity|split]]].
    + rewrite !filter_app, Q1, !length_app, Hcount. reflexivity.
    + eexists (t ++ t1 ++ [_; _; _; _; _; _]). split; [|split].
      * cbn [app]. rewrite <- !app_assoc. reflexivity.
      * rewrite !filter_app, Hc, Q2. reflexivity.
      * rewrite settled_app_none by exact Hset.
        rewrite settled_app_none by exact Q6. reflexivity.
    + rewrite !filter_app, He, Q3. reflexivity.
    + eexists. rewrite !filter_app, Hb, Q4. reflexivity.
  - rewrite Hst in Hrep. destruct Hrep as (Hc & He & Hb).
    destruct (sat_run _ _ _ _ _ _ _ _ (restore_src_quiet env _ _) Hsrc) as [_ Hq1].
    apply quiet_filters in Hq1. destruct Hq1 as (Q1 & Q2 & Q3 & Q4 & Q5 & Q6).
    cbn [status restore_moved value context visited]. unfold transition_trace.
    split; [|split; [|split]].
    + rewrite !filter_app, Q1, !length_app, Hcount. reflexivity.
    + rewrite !filter_app, Hc, Q2. reflexivity.
    + rewrite !filter_app, He, Q3. reflexivity.
    + rewrite !filter_app, Hb, Q4. reflexivity.
  - rewrite Hst in Hrep. destruct Hrep as (Hc & He & Hb).
    unfold restore_wf in Hwf. rewrite Hst in Hwf.
    destruct Hwf as (_ & _ & _ & Hset & _ & Herr).
    destruct (sat_run _ _ _ _ _ _ _ _ (restore_src_quiet env _ _) Hsrc) as [_ Hq1].
    destruct (sat_run _ _ _ _ _ _ _ _ (restore_removeTmpDir_quiet env _) Hrm) as [_ Hq2].
    apply quiet_filters in Hq1. destruct Hq1 as (Q1 & Q2 & Q3 & Q4 & Q5 & Q6).
    apply quiet_filters in Hq2. destruct Hq2 as (R1 & R2 & R3 & R4 & R5 & R6).
    cbn [status restore_moved value context visited].
    rewrite restore_assign_error, Herr.
    unfold transition_trace, stop_trace.
    split; [|split; [|split; [exact HN|split]]].
    + rewrite !filter_app, Q1, R1, !length_app, Hcount. reflexivity.
    + eexists (t ++ t1 ++ t2 ++ [_; _]). split; [|split].
      * cbn [app]. rewrite <- !app_assoc. reflexivity.
      * rewrite !filter_app, Hc, Q2, R2. reflexivity.
      * rewrite settled_app_none by exact Hset.
        rewrite settled_app_none by exact Q6.
        rewrite settled_app_none by exact R6. reflexivity.
    + rewrite !filter_app, He, Q3, R3. reflexivity.
    + rewrite !filter_app, Hb, Q4, R4. reflexivity.
Qed.

Lemma clone_recovery_filters X ctx :
  filter is_started (clone_recovery X ctx) = [] /\
  filter is_completed (clone_recovery X ctx) = [] /\
  filter is_error_log (clone_recovery X ctx) = [] /\
  (exists b, filter is_banner (clone_recovery X ctx) = [SendIPCEvent (showSiteBanner b)]) /\
  settled (clone_recovery X ctx) = None.
Proof.
  destruct X; cbn; repeat split; eexists; reflexivity.
Qed.

Lemma clone_reported_step env n svc s t svc' s' t' :
  clone_step env svc s svc' s' t' ->
  clone_reported (S n) svc s t ->
  clone_reported n svc' s' (t ++ t').
Proof.
  intros Hstep (Hwf & Hcount & Hrep).
  split; [eapply clone_wf_step; eassumption|].
  inversion Hstep as [Hidle | e s1 t1 Hst HX Hsrc | d s1 t1 Hst HX HN Hsrc
                      | d s1 t1 r s2 t2 Hst HX HN Hsrc Hrm]; subst; clear Hstep.
  - rewrite app_nil_r. split; assumption.
  - rewrite Hst in Hrep. destruct Hrep as (Hc & He & Hb & Hd).
    unfold clone_wf in Hwf. rewrite Hst in Hwf.
    destruct Hwf as (_ & _ & _ & Hset & _ & _).
    destruct (sat_run _ _ _ _ _ _ _ _ (clone_src_quiet env _ _) Hsrc) as [_ Hq1].
    apply quiet_filters in Hq1. destruct Hq1 as (Q1 & Q2 & Q3 & Q4 & Q5 & Q6).
    destruct (clone_recovery_filters (value svc) (context svc))
      as (C1 & C2 & C3 & (b & C4) & C6).
    cbn [status clone_failed value context visited Clone.error Clone.with_error].
    unfold clone_failure_trace, transition_trace, stop_trace.
    split; [|split; [|split; [reflexivity|split]]].
    + change (Logger "error" e :: ?l) with ([Logger "error" e] ++ l).
      rewrite !filter_app, Q1, C1, !length_app, Hcount. reflexivity.
    + exists (t ++ t1 ++ [Logger "error" e] ++ clone_recovery (value svc) (context svc)
                ++ [SendIPCEvent BACKUP_STARTED;
                    Logger "info" (camelCaseToSentence env "failed")]).
      split; [|split].
      * rewrite <- !app_assoc. cbn [app]. rewrite <- ?app_assoc. reflexivity.
      * rewrite !filter_app, Hc, Q2, C2. reflexivity.
      * rewrite settled_app_none by exact Hset.
        rewrite settled_app_none by exact Q6.
        rewrite settled_app_none by reflexivity.
        rewrite settled_app_none by exact C6. reflexivity.
    + change (Logger "error" e :: ?l) with ([Logger "error" e] ++ l).
      rewrite !filter_app, He, Q3, C3. reflexivity.
    + exists b. change (Logger "error" e :: ?l) with ([Logger "error" e] ++ l).
      rewrite !filter_app, Hb, Q4, C4. reflexivity.
  - rewrite Hst in Hrep. destruct Hrep as (Hc & He & Hb & Hd).
    destruct (sat_run _ _ _ _ _ _ _ _ (clone_src_quiet env _ _) Hsrc) as [_ Hq1].
    apply quiet_filters in Hq1. destruct Hq1 as (Q1 & Q2 & Q3 & Q4 & Q5 & Q6).
    cbn [status clone_moved value context visited]. unfold transition_trace.
    split; [|split; [|split; [|split]]].
    + rewrite !filter_app, Q1, !length_app, Hcount. reflexivity.
    + rewrite !filter_app, Hc, Q2. reflexivity.
    + rewrite !filter_app, He, Q3. reflexivity.
    + rewrite !filter_app, Hb, Q4. reflexivity.
    + rewrite !filter_app, Hd, Q5. reflexivity.
  - rewrite Hst in Hrep. destruct Hrep as (Hc & He & Hb & Hd).
    unfold clone_wf in Hwf. rewrite Hst in Hwf.
    destruct Hwf as (_ & _ & _ & Hset & _ & Herr).
    destruct (sat_run _ _ _ _ _ _ _ _ (clone_src_quiet env _ _) Hsrc) as [_ Hq1].
    destruct (sat_run _ _ _ _ _ _ _ _ (clone_removeTmpDir_quiet env _) Hrm) as [_ Hq2].
    apply quiet_filters in Hq1. destruct Hq1 as (Q1 & Q2 & Q3 & Q4 & Q5 & Q6).
    apply quiet_filters in Hq2. destruct Hq2 as (R1 & R2 & R3 & R4 & R5 & R6).
    cbn [status clone_moved value context visited].
    rewrite clone_assign_error, Herr.
    unfold transition_trace, stop_trace.
    split; [|split; [|split; [exact HN|split; [|split]]]].
    + rewrite !filter_app, Q1, R1, !length_app, Hcount. reflexivity.
    + eexists (t ++ t1 ++ t2 ++ [_; _]). split; [|split].
      * cbn [app]. rewrite <- !app_assoc. reflexivity.
      * rewrite !filter_app, Hc, Q2, R2. reflexivity.
      * rewrite settled_app_none by exact Hset.
        rewrite settled_app_none by exact Q6.
        rewrite settled_app_none by exact R6. reflexivity.
    + rewrite !filter_app, He, Q3, R3. reflexivity.
    + rewrite !filter_app, Hb, Q4, R4. reflexivity.
    + rewrite !filter_app, Hd, Q5, R5. reflexivity.
Qed.

Lemma restore_reported_start env s opts svc t :
  inProgressStateMachine s = None ->
  Restore.restoreFromBackup opts env s
    = (Ok (Some svc), set_slot (Some "restoreBackup") s, t) ->
  restore_reported 5 svc (set_slot (Some "restoreBackup") s) t.
Proof.
  intros Hslot E. unfold Restore.restoreFromBackup in E.
  rewrite bind_unfold in E. unfold gets at 1 in E. rewrite Hslot in E.
  cbn in E. injection E as <- <-.
  split; [|split]; cbn; repeat split; reflexivity.
Qed.

Lemma clone_reported_start env s opts svc t :
  inProgressStateMachine s = None ->
  Clone.cloneFromBackup opts env s
    = (Ok (Some svc), set_slot (Some "cloneFromBackup") s, t) ->
  clone_reported 8 svc (set_slot (Some "cloneFromBackup") s) t.
Proof.
  intros Hslot E. unfold Clone.cloneFromBackup in E.
  rewrite bind_unfold in E. unfold gets at 1 in E. rewrite Hslot in E.
  cbn in E. injection E as <- <-.
  split; [|split]; cbn; repeat split; reflexivity.
Qed.

Lemma restore_reported_run env s opts :
  inProgressStateMachine s = None ->
  exists svc s' t,
    Restore.restore opts env s = (Ok (Some svc), s', t) /\ restore_reported 0 svc s' t.
Proof.
  intros Hslot.
  apply (restore_invariant env s opts restore_reported Hslot).
  - intros n svc s0 t svc' s' t'. apply restore_reported_step.
  - intros svc t. apply restore_reported_start. exact Hslot.
Qed.

Lemma clone_reported_run env s opts :
  inProgressStateMachine s = None ->
  exists svc s' t,
    Clone.clone opts env s = (Ok (Some svc), s', t) /\ clone_reported 0 svc s' t.
Proof.
  intros Hslot.
  apply (clone_invariant env s opts clone_reported Hslot).
  - intros n svc s0 t svc' s' t'. apply clone_reported_step.
  - intros svc t. apply clone_reported_start. exact Hslot.
Qed.

(** X4. What the renderer is told of a run.  In every run of either
    service that got past the guard, [BACKUP_STARTED] is sent once for each
    state the machine enters, and [BACKUP_COMPLETED] exactly once: it is the
    last message before the promise is resolved, which ends the trace, and
    nothing before it completes or resolves. *)
Theorem completion_reported_once env s ropts copts :
  inProgressStateMachine s = None ->
  (exists svc s' t,
     Restore.restore ropts env s = (Ok (Some svc), s', t) /\
     List.length (filter is_started t) = List.length (visited svc) /\
     exists t0, t = t0 ++ [SendIPCEvent BACKUP_COMPLETED; Resolve JNull] /\
       filter is_completed t0 = [] /\ settled t0 = None) /\
  (exists svc s' t,
     Clone.clone copts env s = (Ok (Some svc), s', t) /\
     List.length (filter is_started t) = List.length (visited svc) /\
     exists t0, t = t0 ++ [SendIPCEvent BACKUP_COMPLETED; Resolve JNull] /\
       filter is_completed t0 = [] /\ settled t0 = None).
Proof.
  intros Hslot. split.
  - destruct (restore_reported_run env s ropts Hslot) as (svc & s' & t & E & Hwf & Hn & Hrep).
    exists svc, s', t. split; [exact E|]. split; [exact Hn|].
    rewrite (restore_wf_0 _ _ _ Hwf) in Hrep. apply Hrep.
  - destruct (clone_reported_run env s copts Hslot) as (svc & s' & t & E & Hwf & Hn & Hrep).
    exists svc, s', t. split; [exact E|]. split; [exact Hn|].
    rewrite (clone_wf_0 _ _ _ Hwf) in Hrep. apply Hrep.
Qed.

(** X5. Failure and its reports go together.  At the end of every run of
    either service that got past the guard: either the context holds no
    error, the machine is in [finished], and no error line was logged, no
    banner shown and (clone) no [deleteSite] sent; or the context holds the
    error [e], the machine is in [failed], [e] is the one line logged at
    level error, and exactly one banner was shown. *)
Theorem failure_reported_iff_failed env s ropts copts :
  inProgressStateMachine s = None ->
  (exists svc s' t,
     Restore.restore ropts env s = (Ok (Some svc), s', t) /\
     match Restore.error (context svc) with
     | None =>
         value svc = Restore.finished /\
         filter is_error_log t = [] /\ filter is_banner t = []
     | Some e =>
         value svc = Restore.failed /\
         filter is_error_log t = [Logger "error" e] /\
         exists b, filter is_banner t = [SendIPCEvent (showSiteBanner b)]
     end) /\
  (exists svc s' t,
     Clone.clone copts env s = (Ok (Some svc), s', t) /\
     match Clone.error (context svc) with
     | None =>
         value svc = Clone.finished /\
         filter is_error_log t = [] /\ filter is_banner t = [] /\
         filter is_deleteSite t = []
     | Some e =>
         value svc = Clone.failed /\
         filter is_error_log t = [Logger "error" e] /\
         exists b, filter is_banner t = [SendIPCEvent (showSiteBanner b)]
     end).
Proof.
  intros Hslot. split.
  - destruct (restore_reported_run env s ropts Hslot) as (svc & s' & t & E & Hwf & Hn & Hrep).
    exists svc, s', t. split; [exact E|].
    rewrite (restore_wf_0 _ _ _ Hwf) in Hrep. apply Hrep.
  - destruct (clone_reported_run env s copts Hslot) as (svc & s' & t & E & Hwf & Hn & Hrep).
    exists svc, s', t. split; [exact E|].
    rewrite (clone_wf_0 _ _ _ Hwf) in Hrep. apply Hrep.
Qed.

(** X6. The guard reopens.  When a run of either service has ended, in
    [finished] or in [failed], the single-flight slot is free: the next call
    of either entry point is let past the guard and starts a service. *)
Theorem guard_reopens env s ropts copts :
  inProgressStateMachine s = None ->
  (exists svc s' t,
     Restore.restore ropts env s = (Ok (Some svc), s', t) /\
     forall env' ropts' copts',
       (exists svc' s'' t', Restore.restoreFromBackup ropts' env' s' = (Ok (Some svc'), s'', t')) /\
       (exists svc' s'' t', Clone.cloneFromBackup copts' env' s' = (Ok (Some svc'), s'', t'))) /\
  (exists svc s' t,
     Clone.clone copts env s = (Ok (Some svc), s', t) /\
     forall env' ropts' copts',
       (exists svc' s'' t', Restore.restoreFromBackup ropts' env' s' = (Ok (Some svc'), s'', t')) /\
       (exists svc' s'' t', Clone.cloneFromBackup copts' env' s' = (Ok (Some svc'), s'', t'))).
Proof.
  intros Hslot. split.
  - destruct (restore_reported_run env s ropts Hslot) as (svc & s' & t & E & Hwf & _).
    exists svc, s', t. split; [exact E|].
    pose proof (restore_wf_0 _ _ _ Hwf) as Hst.
    unfold restore_wf in Hwf. rewrite Hst in Hwf. destruct Hwf as (Hfree & _).
    intros env' ropts' copts'. split.
    + destruct (restore_accepted env' s' ropts' Hfree) as (svc' & t' & E' & _). eauto.
    + destruct (clone_accepted env' s' copts' Hfree) as (svc' & t' & E' & _). eauto.
  - destruct (clone_reported_run env s copts Hslot) as (svc & s' & t & E & Hwf & _).
    exists svc, s', t. split; [exact E|].
    pose proof (clone_wf_0 _ _ _ Hwf) as Hst.
    unfold clone_wf in Hwf. rewrite Hst in Hwf. destruct Hwf as (Hfree & _).
    intros env' ropts' copts'. split.
    + destruct (restore_accepted env' s' ropts' Hfree) as (svc' & t' & E' & _). eauto.
    + destruct (clone_accepted env' s' copts' Hfree) as (svc' & t' & E' & _). eauto.
Qed.

(** ** What a restore leaves alone *)

#[local] Instance within_preorder sitePath tmp id FS DB :
  PreOrder (within sitePath tmp id FS DB).
Proof.
  split.
  - intros s. repeat split; reflexivity.
  - intros a b c (H1 & H2 & H3 & H4) (K1 & K2 & K3 & K4). repeat split.
    + congruence.
    + intros p Hp Hq. rewrite K2, H2 by assumption. reflexivity.
    + intros id' Hid. rewrite K3, H3 by assumption. reflexivity.
    + intros HD. rewrite K4, H4 by assumption. reflexivity.
Qed.

Lemma within_weaken sitePath tmp id (FS DB FS' DB' : Prop) s s' :
  (FS -> FS') -> (DB -> DB') ->
  within sitePath tmp id FS DB s s' -> within sitePath tmp id FS' DB' s s'.
Proof.
  intros HF HD (H1 & H2 & H3 & H4). repeat split.
  - exact H1.
  - intros p Hp [Hq|Hq]; apply H2; auto.
  - exact H3.
  - intros N. apply H4. auto.
Qed.

Lemma within_trans sitePath tmp id (FS DB : Prop) a b c :
  within sitePath tmp id FS DB a b -> within sitePath tmp id FS DB b c ->
  within sitePath tmp id FS DB a c.
Proof. intros H K. etransitivity; eassumption. Qed.

Lemma within_set_slot sitePath tmp id FS DB v s :
  within sitePath tmp id FS DB s (set_slot v s).
Proof. repeat split; reflexivity. Qed.

Lemma within_set_disk sitePath tmp id (FS DB : Prop) d s :
  (forall p, is_prefix tmp p = false -> (is_prefix sitePath p = false \/ ~ FS) ->
     node_at d p = node_at (disk s) p) ->
  within sitePath tmp id FS DB s (set_disk d s).
Proof. intros H. repeat split; try reflexivity. exact H. Qed.

Lemma within_update_mysql sitePath tmp id FS (DB : Prop) f s :
  DB -> within sitePath tmp id FS DB s (update_mysql id f s).
Proof.
  intros HD. repeat split; try reflexivity.
  - intros id' Hid. apply mysql_of_update_other. exact Hid.
  - intros N. contradiction.
Qed.

Lemma is_prefix_false_neq p q : is_prefix p q = false -> path_eqb p q = false.
Proof.
  intros H. destruct (path_eqb p q) eqn:E; [|reflexivity].
  apply path_eqb_prefix in E. congruence.
Qed.

(** A value read from the environment is the environment's. *)
Lemma sat_bind_ask {A B} env P Q (f : Env -> A) (k : A -> M B) :
  sat env P Q (k (f env)) -> sat env P Q (bind (ask f) k).
Proof. intros H s. rewrite bind_ask. apply H. Qed.

Lemma removals_within env sitePath tmp id DB (items : list Path) :
  (forall q, In q items -> is_prefix sitePath q = true) ->
  sat env (within sitePath tmp id True DB) any_call (Promise_all (map fs_remove items)).
Proof.
  intros Hitems. apply sat_Promise_all; [typeclasses eauto|].
  apply Forall_forall. intros m Hm. apply in_map_iff in Hm.
  destruct Hm as [q [<- Hq]]. unfold fs_remove.
  apply sat_call; [typeclasses eauto | exact I |].
  intros s. cbn [snd]. apply within_set_disk.
  intros p Hp [Hs|Hs]; [|tauto].
  rewrite node_at_remove.
  destruct (is_prefix q p) eqn:E; [|reflexivity].
  rewrite (is_prefix_trans _ _ _ (Hitems q Hq) E) in Hs. discriminate.
Qed.

Lemma restore_src_within env X ctx :
  (forall tmp, Restore.tmpDirData ctx = Some tmp -> dir_name tmp = tmp_name env) ->
  sat env (within (formatHomePath env (Site.path (Restore.site ctx))) (tmp_name env)
             (Site.id (Restore.site ctx))
             (X = Restore.movingSiteFromTmpDir) (X = Restore.restoringDatabase))
    any_call (restore_src X ctx).
Proof.
  intros Htmp.
  destruct X; unfold restore_src; cbn [states Restore.restoreMachine].
  - unfold Restore.getCredentials; unfold_collaborators; sat_go;
      first [exact I | reflexivity].
  - unfold Restore.createTmpDir, dirSync.
    apply sat_bind; [typeclasses eauto | | intro; apply sat_ret; typeclasses eauto].
    apply sat_bind_ask. apply sat_call; [typeclasses eauto | exact I |].
    intros s. cbn [snd]. apply within_set_disk. intros p Hp _.
    apply node_at_mkdir_other, is_prefix_false_neq, Hp.
  - unfold Restore.restoreBackup.
    destruct (Restore.tmpDirData ctx) as [tmp|] eqn:E; [|sat_go].
    rewrite (Htmp tmp eq_refl).
    unfold_collaborators; sat_go; [exact I|].
    cbn [snd]. apply within_set_disk. intros p Hp _.
    apply node_at_unpack_out, Hp.
  - intros s. unfold Restore.moveSiteFromTmpDir.
    rewrite bind_ask. unfold getFilteredSiteFiles.
    rewrite bind_unfold, bind_ask, bind_gets. cbn [ret].
    set (sitePath := formatHomePath env (Site.path (Restore.site ctx))) in *.
    set (items := filteredSiteFiles (disk s) sitePath).
    match goal with
    | |- context [match ?k env s with _ => _ end] =>
        assert (Hk : sat env (within sitePath (tmp_name env) (Site.id (Restore.site ctx))
                               (Restore.movingSiteFromTmpDir = Restore.movingSiteFromTmpDir)
                               (Restore.movingSiteFromTmpDir = Restore.restoringDatabase))
                       any_call k)
    end.
    { unfold_collaborators. sat_go; try exact I.
      - eapply sat_Promise_all; [typeclasses eauto|].
        apply Forall_forall. intros m Hm. apply in_map_iff in Hm.
        destruct Hm as [q [<- Hq]]. unfold fs_remove.
        apply sat_call; [typeclasses eauto | exact I |].
        intros s1. cbn [snd]. apply within_set_disk.
        intros p Hp [Hs|Hs]; [|exfalso; apply Hs; reflexivity].
        rewrite node_at_remove.
        destruct (is_prefix q p) eqn:E; [|reflexivity].
        apply filteredSiteFiles_spec in Hq. destruct Hq as [_ [n [-> _]]].
        apply is_prefix_shorter in E. congruence.
      - cbn [snd]. apply within_set_disk.
        intros p Hp [Hs|Hs]; [|exfalso; apply Hs; reflexivity].
        apply node_at_copy_out, Hs. }
    specialize (Hk s). unfold sys_of, trace_of in *.
    match goal with
    | |- context [match ?k env s with _ => _ end] => destruct (k env s) as [[r s2] t2]
    end.
    cbn in *. exact Hk.
  - unfold Restore.importDatabase; unfold_collaborators; sat_go; try exact I;
      try reflexivity.
    all: cbn [snd]; apply within_update_mysql; reflexivity.
  - sat_go.
  - sat_go.
Qed.

Lemma restore_removeTmpDir_within env ctx sitePath id FS DB :
  (forall tmp, Restore.tmpDirData ctx = Some tmp -> dir_name tmp = tmp_name env) ->
  sat env (within sitePath (tmp_name env) id FS DB) any_call (Restore.removeTmpDir ctx).
Proof.
  intros Htmp. unfold Restore.removeTmpDir.
  destruct (Restore.tmpDirData ctx) as [tmp|] eqn:E; [|sat_go].
  rewrite (Htmp tmp eq_refl).
  unfold_collaborators; sat_go; try exact I.
  - apply within_set_disk. intros p Hp _. apply node_at_emptyDir_out, Hp.
  - apply within_set_disk. intros p Hp _. rewrite node_at_remove, Hp. reflexivity.
Qed.

Lemma restore_assign_tmp env X ctx d s s1 t1 :
  restore_src X ctx env s = (Ok d, s1, t1) ->
  (forall tmp, Restore.tmpDirData ctx = Some tmp -> dir_name tmp = tmp_name env) ->
  forall tmp, Restore.tmpDirData (restore_assign X d ctx) = Some tmp ->
    dir_name tmp = tmp_name env.
Proof.
  intros Hsrc Hctx tmp.
  destruct X; try (destruct d; cbn; apply Hctx).
  unfold restore_src in Hsrc. cbn [states Restore.restoreMachine] in Hsrc.
  apply restore_createTmpDir_spec in Hsrc. destruct Hsrc as [-> _].
  cbn. intros E. injection E as <-. reflexivity.
Qed.

Lemma restore_invoked_after_throw (svc : Restore.Service) e X :
  visited svc = firstn (S (restore_index (value svc))) restore_order ->
  is_final Restore.restoreMachine (value svc) = false ->
  restore_index X < restore_index (value svc) \/ value svc = X ->
  restore_invoked (restore_failed svc e) X.
Proof.
  unfold restore_invoked. cbn [status restore_failed visited].
  intros -> HX H.
  destruct (value svc), X; cbn in *; try discriminate HX;
    destruct H as [H|H]; try lia; try discriminate H; auto 10.
Qed.

Lemma restore_invoked_after_move (svc : Restore.Service) d X :
  is_final Restore.restoreMachine (value svc) = false ->
  restore_index X < restore_index (value svc) \/ value svc = X ->
  restore_invoked (restore_moved svc d Running) X.
Proof.
  unfold restore_invoked. cbn [status restore_moved visited value].
  intros HX H.
  destruct (value svc), X; cbn in *; try discriminate HX;
    destruct H as [H|H]; try lia; try discriminate H.
Qed.

Lemma restore_invoked_after_finish (svc : Restore.Service) d X :
  visited svc = firstn (S (restore_index (value svc))) restore_order ->
  is_final Restore.restoreMachine (value svc) = false ->
  restore_next (value svc) = Restore.finished ->
  restore_index X < restore_index (value svc) \/ value svc = X ->
  restore_invoked (restore_moved svc d Stopped) X.
Proof.
  unfold restore_invoked. cbn [status restore_moved visited value].
  intros -> HX HN H.
  destruct (value svc), X; cbn in *; try discriminate HX; try discriminate HN;
    destruct H as [H|H]; try lia; try discriminate H; auto 10.
Qed.

Lemma restore_framed_step env site0 s0 n svc s t svc' s' t' :
  restore_step env svc s svc' s' t' ->
  restore_framed env site0 s0 (S n) svc s t ->
  restore_framed env site0 s0 n svc' s' (t ++ t').
Proof.
  intros Hstep (Hwf & Hsite & Htmp & Hin).
  split; [eapply restore_wf_step; eassumption|].
  inversion Hstep as [Hidle | e s1 t1 Hst HX Hsrc | d s1 t1 Hst HX HN Hsrc
                      | d s1 t1 r s2 t2 Hst HX HN Hsrc Hrm]; subst; clear Hstep.
  - auto.
  - unfold restore_wf in Hwf. rewrite Hst in Hwf.
    destruct Hwf as (_ & _ & _ & _ & Hvis & _).
    unfold restore_invoked in Hin. rewrite Hst in Hin.
    destruct (sat_run _ _ _ _ _ _ _ _ (restore_src_within env _ _ Htmp) Hsrc) as [Hs1 _].
    split; [reflexivity|]. split; [exact Htmp|].
    eapply within_trans; [|eapply within_trans; [|apply within_set_slot]].
    + eapply within_weaken; [| |exact Hin]; intros H;
        apply restore_invoked_after_throw; auto.
    + eapply within_weaken; [| |exact Hs1]; intros H;
        apply restore_invoked_after_throw; auto.
  - unfold restore_invoked in Hin. rewrite Hst in Hin.
    destruct (sat_run _ _ _ _ _ _ _ _ (restore_src_within env _ _ Htmp) Hsrc) as [Hs1 _].
    cbn [restore_moved context].
    split; [apply restore_assign_site|].
    split; [eapply restore_assign_tmp; eassumption|].
    eapply within_trans.
    + eapply within_weaken; [| |exact Hin]; intros H;
        apply restore_invoked_after_move; auto.
    + eapply within_weaken; [| |exact Hs1]; intros H;
        apply restore_invoked_after_move; auto.
  - unfold restore_wf in Hwf. rewrite Hst in Hwf.
    destruct Hwf as (_ & _ & _ & _ & Hvis & _).
    unfold restore_invoked in Hin. rewrite Hst in Hin.
    destruct (sat_run _ _ _ _ _ _ _ _ (restore_src_within env _ _ Htmp) Hsrc) as [Hs1 _].
    pose proof (restore_assign_tmp env _ _ _ _ _ _ Hsrc Htmp) as Htmp'.
    destruct (sat_run _ _ _ _ _ _ _ _
                (restore_removeTmpDir_within env _
                   (formatHomePath env (Site.path (Restore.site (context svc))))
                   (Site.id (Restore.site (context svc)))
                   (restore_invoked (restore_moved svc d Stopped) Restore.movingSiteFromTmpDir)
                   (restore_invoked (restore_moved svc d Stopped) Restore.restoringDatabase)
                   Htmp') Hrm) as [Hs2 _].
    cbn [restore_moved context].
    split; [apply restore_assign_site|].
    split; [exact Htmp'|].
    eapply within_trans; [|eapply within_trans; [|eapply within_trans;
      [exact Hs2 | apply within_set_slot]]].
    + eapply within_weaken; [| |exact Hin]; intros H;
        apply restore_invoked_after_finish; auto.
    + eapply within_weaken; [| |exact Hs1]; intros H;
        apply restore_invoked_after_finish; auto.
Qed.

Lemma restore_framed_run env s opts :
  inProgressStateMachine s = None ->
  exists svc s' t,
    Restore.restore opts env s = (Ok (Some svc), s', t) /\
    restore_framed env (Restore.opts_site opts) s 0 svc s' t.
Proof.
  intros Hslot.
  apply (restore_invariant env s opts (restore_framed env (Restore.opts_site opts) s) Hslot).
  - intros n svc s0 t svc' s' t'. apply restore_framed_step.
  - intros svc t E.
    destruct (restore_accepted env s opts Hslot)
      as (svc0 & t0 & E0 & Hwf & Hsite & _ & Htmp & _).
    rewrite E0 in E. injection E as <- <-.
    split; [exact Hwf|]. split; [exact Hsite|].
    split; [intros tmp H; congruence | apply within_set_slot].
Qed.


(** X8. A restore touches the site only from the step that applies the
    files, and MySQL only from the step that applies the database.  In every
    run that got past the guard: if the machine never entered
    [movingSiteFromTmpDir] (it failed while getting the credentials,
    creating the staging directory or fetching the snapshot), every path
    outside the staging directory is as it was; if it never entered
    [restoringDatabase], MySQL is as it was. *)
Theorem restore_untouched_until_applied env s opts :
  inProgressStateMachine s = None ->
  exists svc s' t,
    Restore.restore opts env s = (Ok (Some svc), s', t) /\
    (~ In Restore.movingSiteFromTmpDir (visited svc) ->
     forall p, is_prefix (tmp_name env) p = false ->
       node_at (disk s') p = node_at (disk s) p) /\
    (~ In Restore.restoringDatabase (visited svc) -> mysql s' = mysql s).
Proof.
  intros Hslot.
  destruct (restore_framed_run env s opts Hslot)
    as (svc & s' & t & E & Hwf & _ & _ & Hs & Hd & _ & Hm).
  exists svc, s', t. split; [exact E|].
  unfold restore_invoked in Hd, Hm. rewrite (restore_wf_0 _ _ _ Hwf) in Hd, Hm.
  split; [|exact Hm].
  intros Hnot p Hp. apply Hd; auto.
Qed.

(** ** What a clone leaves alone *)

#[local] Instance apart_preorder sitePath tmp id FS DB :
  PreOrder (apart sitePath tmp id FS DB).
Proof.
  split.
  - intros s. repeat split; reflexivity.
  - intros a b c (H2 & H3 & H4) (K2 & K3 & K4). repeat split.
    + intros p Hp Hq. rewrite K2, H2 by assumption. reflexivity.
    + intros id' Hid. rewrite K3, H3 by assumption. reflexivity.
    + intros HD. rewrite K4, H4 by assumption. reflexivity.
Qed.

Lemma apart_weaken sitePath tmp id (FS DB FS' DB' : Prop) s s' :
  (FS -> FS') -> (DB -> DB') ->
  apart sitePath tmp id FS DB s s' -> apart sitePath tmp id FS' DB' s s'.
Proof.
  intros HF HD (H2 & H3 & H4). repeat split.
  - intros p Hp [Hq|Hq]; apply H2; auto.
  - exact H3.
  - intros N. apply H4. auto.
Qed.

Lemma apart_trans sitePath tmp id (FS DB : Prop) a b c :
  apart sitePath tmp id FS DB a b -> apart sitePath tmp id FS DB b c ->
  apart sitePath tmp id FS DB a c.
Proof. intros H K. etransitivity; eassumption. Qed.

Lemma apart_set_slot sitePath tmp id FS DB v s :
  apart sitePath tmp id FS DB s (set_slot v s).
Proof. repeat split; reflexivity. Qed.

Lemma apart_set_sites sitePath tmp id FS DB l s :
  apart sitePath tmp id FS DB s (set_sites l s).
Proof. repeat split; reflexivity. Qed.

Lemma apart_set_disk sitePath tmp id (FS DB : Prop) d s :
  (forall p, is_prefix tmp p = false -> (is_prefix sitePath p = false \/ ~ FS) ->
     node_at d p = node_at (disk s) p) ->
  apart sitePath tmp id FS DB s (set_disk d s).
Proof. intros H. repeat split; try reflexivity. exact H. Qed.

Lemma apart_update_mysql sitePath tmp id FS (DB : Prop) f s :
  DB -> apart sitePath tmp id FS DB s (update_mysql id f s).
Proof.
  intros HD. repeat split; try reflexivity.
  - intros id' Hid. apply mysql_of_update_other. exact Hid.
  - intros N. contradiction.
Qed.

Lemma find_app_none {A} (f : A -> bool) l x :
  find f l = None -> find f (l ++ [x]) = if f x then Some x else None.
Proof.
  induction l as [|a l IH]; cbn; [reflexivity|].
  destruct (f a); [discriminate | exact IH].
Qed.

(** The destination is set up: the record is registered last in the
    registry and read back. *)
Lemma setupDestinationSite_ok env s ctx :
  let dup := clone_destination env (Clone.baseSite ctx) (Clone.newSiteName ctx) in
  checkForDuplicateSiteName env (sites s) (Clone.newSiteName ctx)
    (formatSiteNicename env (Clone.newSiteName ctx)) = false ->
  find_site (sites s) (shortid_generate env) = None ->
  Clone.setupDestinationSite ctx env s
    = (Ok (Clone.destination dup), set_sites (sites s ++ [dup]) s, setup_trace dup).
Proof.
  intros dup Hdup Hfresh. unfold Clone.setupDestinationSite.
  rewrite bind_ask, bind_ask, bind_gets, Hdup, bind_ask.
  unfold siteData_addSite, getSiteDataFromDisk, send, emit, modify.
  cbv [bind gets]. cbn [sites set_sites Site.id].
  set (d1 := Site.mk (shortid_generate env) _ _ _ _ _).
  unfold find_site in *.
  rewrite (find_app_none _ _ d1 Hfresh).
  change (Site.id d1) with (shortid_generate env).
  rewrite String.eqb_refl. reflexivity.
Qed.

Lemma clone_src_apart env X ctx destPath destId :
  (forall tmp, Clone.tmpDirData ctx = Some tmp -> dir_name tmp = tmp_name env) ->
  (forall d, Clone.destinationSite ctx = Some d ->
     formatHomePath env (Site.path d) = destPath /\ Site.id d = destId) ->
  sat env (apart destPath (tmp_name env) destId
             (X = Clone.movingSiteFromTmpDir) (X = Clone.restoringDatabase))
    any_call (clone_src X ctx).
Proof.
  intros Htmp Hdest.
  destruct X; unfold clone_src; cbn [states Clone.cloneMachine].
  - unfold Clone.getCredentials; unfold_collaborators; sat_go;
      first [exact I | reflexivity].
  - unfold Clone.setupDestinationSite; unfold_collaborators; sat_go;
      first [exact I | reflexivity | apply apart_set_sites].
  - unfold Clone.createTmpDir, dirSync.
    apply sat_bind; [typeclasses eauto | | intro; apply sat_ret; typeclasses eauto].
    apply sat_bind_ask. apply sat_call; [typeclasses eauto | exact I |].
    intros s. cbn [snd]. apply apart_set_disk. intros p Hp _.
    apply node_at_mkdir_other, is_prefix_false_neq, Hp.
  - unfold Clone.cloneBackup.
    destruct (Clone.tmpDirData ctx) as [tmp|] eqn:E; [|sat_go].
    rewrite (Htmp tmp eq_refl).
    unfold_collaborators; sat_go; [exact I|].
    cbn [snd]. apply apart_set_disk. intros p Hp _.
    apply node_at_unpack_out, Hp.
  - unfold Clone.moveSiteFromTmpDir.
    destruct (Clone.destinationSite ctx) as [d|] eqn:Ed; [|sat_go].
    destruct (Clone.tmpDirData ctx) as [tmp|] eqn:E; [|sat_go].
    destruct (Hdest d eq_refl) as [Hpath _].
    apply sat_bind_ask. rewrite Hpath.
    unfold_collaborators; sat_go; try exact I.
    cbn [snd]. apply apart_set_disk.
    intros p Hp [Hs|Hs]; [|exfalso; apply Hs; reflexivity].
    apply node_at_copy_out, Hs.
  - unfold Clone.provisionSite; unfold_collaborators; sat_go;
      first [exact I | reflexivity].
  - unfold Clone.importDatabase.
    destruct (Clone.tmpDirData ctx) as [tmp|] eqn:E; [|sat_go].
    destruct (Clone.destinationSite ctx) as [d|] eqn:Ed; [|sat_go].
    destruct (Hdest d eq_refl) as [_ Hid]. 
    unfold_collaborators; sat_go; try exact I; try reflexivity.
    all: cbn [snd]; rewrite Hid; apply apart_update_mysql; reflexivity.
  - unfold Clone.searchReplace; unfold_collaborators; sat_go;
      first [exact I | reflexivity].
  - sat_go.
  - sat_go.
Qed.

Lemma clone_removeTmpDir_apart env ctx sitePath id FS DB :
  (forall tmp, Clone.tmpDirData ctx = Some tmp -> dir_name tmp = tmp_name env) ->
  sat env (apart sitePath (tmp_name env) id FS DB) any_call (Clone.removeTmpDir ctx).
Proof.
  intros Htmp. unfold Clone.removeTmpDir.
  destruct (Clone.tmpDirData ctx) as [tmp|] eqn:E; [|sat_go].
  rewrite (Htmp tmp eq_refl).
  unfold_collaborators; sat_go; try exact I.
  - apply apart_set_disk. intros p Hp _. apply node_at_emptyDir_out, Hp.
  - apply apart_set_disk. intros p Hp _. rewrite node_at_remove, Hp. reflexivity.
Qed.

Lemma clone_state_eq_dec (X Y : Clone.State) : {X = Y} + {X <> Y}.
Proof. decide equality. Qed.

Lemma clone_src_sites_same env X ctx s r s1 t1 :
  clone_src X ctx env s = (r, s1, t1) ->
  X <> Clone.setupDestinationSite_ \/ (exists e, r = Throw e) ->
  sites s1 = sites s.
Proof.
  intros Hsrc H.
  destruct (clone_state_eq_dec X Clone.setupDestinationSite_) as [->|HX].
  - destruct H as [H|[e ->]]; [congruence|].
    unfold clone_src in Hsrc. cbn [states Clone.cloneMachine] in Hsrc.
    apply setupDestinationSite_spec in Hsrc. apply Hsrc.
  - destruct (le_lt_dec 2 (clone_index X)) as [Hle|Hlt].
    + apply (sat_run _ _ _ _ _ _ _ _ (clone_src_sites env X ctx Hle) Hsrc).
    + destruct X; cbn in Hlt; try lia; try congruence.
      unfold clone_src in Hsrc. cbn [states Clone.cloneMachine] in Hsrc.
      apply (sat_run _ _ _ _ _ _ _ _ (clone_getCredentials_footprint env ctx) Hsrc).
Qed.

Lemma clone_setup_registers env ctx s d s1 t1 :
  clone_src Clone.setupDestinationSite_ ctx env s = (Ok d, s1, t1) ->
  find_site (sites s) (shortid_generate env) = None ->
  d = Clone.destination (clone_destination env (Clone.baseSite ctx) (Clone.newSiteName ctx)) /\
  sites s1 = sites s
               ++ [clone_destination env (Clone.baseSite ctx) (Clone.newSiteName ctx)].
Proof.
  intros Hsrc Hfresh.
  unfold clone_src in Hsrc. cbn [states Clone.cloneMachine] in Hsrc.
  pose proof (setupDestinationSite_spec env s ctx _ _ _ Hsrc) as [_ [Hdup _]].
  rewrite (setupDestinationSite_ok env s ctx Hdup Hfresh) in Hsrc.
  injection Hsrc as <- <- _. split; reflexivity.
Qed.

Lemma clone_removeTmpDir_sites env ctx :
  sat env same_sites any_call (Clone.removeTmpDir ctx).
Proof.
  unfold Clone.removeTmpDir; unfold_collaborators; sat_go; first [exact I | reflexivity].
Qed.

Lemma clone_assign_baseSite X d ctx :
  Clone.baseSite (clone_assign X d ctx) = Clone.baseSite ctx.
Proof. destruct X, d; reflexivity. Qed.

Lemma clone_assign_tmp_ok env X ctx d s s1 t1 :
  clone_src X ctx env s = (Ok d, s1, t1) ->
  (forall tmp, Clone.tmpDirData ctx = Some tmp -> dir_name tmp = tmp_name env) ->
  forall tmp, Clone.tmpDirData (clone_assign X d ctx) = Some tmp ->
    dir_name tmp = tmp_name env.
Proof.
  intros Hsrc Hctx tmp.
  destruct (clone_state_eq_dec X Clone.creatingTmpDir) as [->|HX].
  - unfold clone_src in Hsrc. cbn [states Clone.cloneMachine] in Hsrc.
    apply clone_createTmpDir_spec in Hsrc. destruct Hsrc as [-> _].
    cbn. intros E. injection E as <-. reflexivity.
  - rewrite clone_assign_tmp by exact HX. apply Hctx.
Qed.

Lemma clone_invoked_after_throw (svc : Clone.Service) e X :
  visited svc = firstn (S (clone_index (value svc))) clone_order ->
  is_final Clone.cloneMachine (value svc) = false ->
  clone_index X < clone_index (value svc) \/ value svc = X ->
  clone_invoked (clone_failed svc e) X.
Proof.
  unfold clone_invoked. cbn [status clone_failed visited].
  intros -> HX H.
  destruct (value svc), X; cbn in *; try discriminate HX;
    destruct H as [H|H]; try lia; try discriminate H; auto 12.
Qed.

Lemma clone_invoked_after_move (svc : Clone.Service) d X :
  is_final Clone.cloneMachine (value svc) = false ->
  clone_index X < clone_index (value svc) \/ value svc = X ->
  clone_invoked (clone_moved svc d Running) X.
Proof.
  unfold clone_invoked. cbn [status clone_moved visited value].
  intros HX H.
  destruct (value svc), X; cbn in *; try discriminate HX;
    destruct H as [H|H]; try lia; try discriminate H.
Qed.

Lemma clone_invoked_after_finish (svc : Clone.Service) d X :
  visited svc = firstn (S (clone_index (value svc))) clone_order ->
  is_final Clone.cloneMachine (value svc) = false ->
  clone_next (value svc) = Clone.finished ->
  clone_index X < clone_index (value svc) \/ value svc = X ->
  clone_invoked (clone_moved svc d Stopped) X.
Proof.
  unfold clone_invoked. cbn [status clone_moved visited value].
  intros -> HX HN H.
  destruct (value svc), X; cbn in *; try discriminate HX; try discriminate HN;
    destruct H as [H|H]; try lia; try discriminate H; auto 12.
Qed.

Lemma clone_entered_tmp (svc : Clone.Service) Y :
  visited svc = firstn (S (clone_index (value svc))) clone_order ->
  is_final Clone.cloneMachine (value svc) = false ->
  (Y = Clone.failed \/
   (Y = clone_next (value svc) /\ value svc <> Clone.setupDestinationSite_)) ->
  (In Clone.creatingTmpDir (visited svc ++ [Y]) <-> In Clone.creatingTmpDir (visited svc)).
Proof.
  intros Hvis HX HY. rewrite in_app_iff. split; [|auto].
  intros [H|[H|[]]]; [exact H|]. exfalso.
  destruct HY as [->|[-> Hne]]; [discriminate H|].
  destruct (value svc); cbn in H; try discriminate H; try discriminate HX; congruence.
Qed.

Lemma clone_at_setup (svc : Clone.Service) :
  visited svc = firstn (S (clone_index (value svc))) clone_order ->
  value svc = Clone.setupDestinationSite_ ->
  ~ In Clone.creatingTmpDir (visited svc).
Proof.
  intros -> ->. cbn. intros [H|[H|[]]]; discriminate H.
Qed.

Lemma clone_framed_step env base name s0 n svc s t svc' s' t' :
  find_site (sites s0) (shortid_generate env) = None ->
  clone_step env svc s svc' s' t' ->
  clone_framed env base name s0 (S n) svc s t ->
  clone_framed env base name s0 n svc' s' (t ++ t').
Proof.
  intros Hfresh Hstep (Hwf & Hbase & Hname & Htmp & Hdest & Hent & Hnent & Hap).
  unfold clone_framed. split; [eapply clone_wf_step; eassumption|].
  set (dup := clone_destination env base name) in *.
  assert (Hdest' : forall d, Clone.destinationSite (context svc) = Some d ->
            formatHomePath env (Site.path d) = formatHomePath env (Site.path dup) /\
            Site.id d = Site.id dup).
  { intros d Hd. rewrite (Hdest d Hd). split; reflexivity. }
  inversion Hstep as [Hidle | e s1 t1 Hst HX Hsrc | d s1 t1 Hst HX HN Hsrc
                      | d s1 t1 r s2 t2 Hst HX HN Hsrc Hrm]; subst; clear Hstep.
  - rewrite ?app_nil_r. auto 10.
  - (* the step throws *)
    unfold clone_wf in Hwf. rewrite Hst in Hwf.
    destruct Hwf as (_ & _ & _ & _ & Hvis & _).
    unfold clone_invoked in Hap. rewrite Hst in Hap.
    destruct (sat_run _ _ _ _ _ _ _ _ (clone_src_apart env _ _ _ _ Htmp Hdest') Hsrc)
      as [Hs1 _].
    assert (Hsites : sites s1 = sites s).
    { eapply clone_src_sites_same; [exact Hsrc | right; eauto]. }
    pose proof (clone_entered_tmp svc Clone.failed Hvis HX (or_introl eq_refl)) as Hin.
    cbn [clone_failed context visited Clone.with_error Clone.baseSite Clone.newSiteName
         Clone.tmpDirData Clone.destinationSite set_slot sites].
    split; [reflexivity|]. split; [reflexivity|]. split; [exact Htmp|].
    split; [exact Hdest|].
    split; [intros H; apply Hin in H; rewrite Hsites; apply Hent; exact H|].
    split; [intros H; rewrite Hsites; apply Hnent; intros H'; apply H, Hin, H'|].
    eapply apart_trans; [|eapply apart_trans; [|apply apart_set_slot]].
    + eapply apart_weaken; [| |exact Hap]; intros H;
        apply clone_invoked_after_throw; auto.
    + eapply apart_weaken; [| |exact Hs1]; intros H;
        apply clone_invoked_after_throw; auto.
  - (* the step moves on *)
    unfold clone_wf in Hwf. rewrite Hst in Hwf.
    destruct Hwf as (_ & _ & _ & _ & Hvis & _).
    unfold clone_invoked in Hap. rewrite Hst in Hap.
    destruct (sat_run _ _ _ _ _ _ _ _ (clone_src_apart env _ _ _ _ Htmp Hdest') Hsrc)
      as [Hs1 _].
    cbn [clone_moved context visited].
    split; [apply clone_assign_baseSite|].
    split; [apply clone_assign_newSiteName|].
    split; [eapply clone_assign_tmp_ok; eassumption|].
    assert (Hreg :
      (forall d', Clone.destinationSite (clone_assign (value svc) d (context svc)) = Some d' ->
         d' = dup) /\
      (In Clone.creatingTmpDir (visited svc ++ [clone_next (value svc)]) ->
       sites s' = sites s0 ++ [dup] /\
       Clone.destinationSite (clone_assign (value svc) d (context svc)) = Some dup) /\
      (~ In Clone.creatingTmpDir (visited svc ++ [clone_next (value svc)]) ->
       sites s' = sites s0)).
    { destruct (clone_state_eq_dec (value svc) Clone.setupDestinationSite_) as [HV|HV].
      - pose proof (clone_at_setup svc Hvis HV) as Hnot.
        rewrite HV in *.
        rewrite <- (Hnent Hnot) in Hfresh.
        destruct (clone_setup_registers env _ _ _ _ _ Hsrc Hfresh) as [-> Hs].
        cbn. rewrite Hs, (Hnent Hnot).
        split; [intros d' E; injection E as <-; reflexivity|].
        split; [intros _; split; reflexivity|].
        intros H. exfalso. apply H. apply in_app_iff. right. left. reflexivity.
      - assert (Hsites : sites s' = sites s).
        { eapply clone_src_sites_same; [exact Hsrc | left; exact HV]. }
        pose proof (clone_entered_tmp svc _ Hvis HX (or_intror (conj eq_refl HV))) as Hin.
        rewrite clone_assign_destinationSite by exact HV.
        split; [exact Hdest|].
        split; [intros H; apply Hin in H; rewrite Hsites; apply Hent; exact H|].
        intros H. rewrite Hsites. apply Hnent. intros H'. apply H, Hin, H'. }
    destruct Hreg as (R1 & R2 & R3).
    split; [exact R1|]. split; [exact R2|]. split; [exact R3|].
    eapply apart_trans.
    + eapply apart_weaken; [| |exact Hap]; intros H;
        apply clone_invoked_after_move; auto.
    + eapply apart_weaken; [| |exact Hs1]; intros H;
        apply clone_invoked_after_move; auto.
  - (* the last step *)
    unfold clone_wf in Hwf. rewrite Hst in Hwf.
    destruct Hwf as (_ & _ & _ & _ & Hvis & _).
    unfold clone_invoked in Hap. rewrite Hst in Hap.
    destruct (sat_run _ _ _ _ _ _ _ _ (clone_src_apart env _ _ _ _ Htmp Hdest') Hsrc)
      as [Hs1 _].
    pose proof (clone_assign_tmp_ok env _ _ _ _ _ _ Hsrc Htmp) as Htmp'.
    destruct (sat_run _ _ _ _ _ _ _ _
                (clone_removeTmpDir_apart env _
                   (formatHomePath env (Site.path dup)) (Site.id dup)
                   (clone_invoked (clone_moved svc d Stopped) Clone.movingSiteFromTmpDir)
                   (clone_invoked (clone_moved svc d Stopped) Clone.restoringDatabase)
                   Htmp') Hrm) as [Hs2 _].
    destruct (sat_run _ _ _ _ _ _ _ _ (clone_removeTmpDir_sites env _) Hrm) as [Hsites2 _].
    assert (HV : value svc <> Clone.setupDestinationSite_).
    { intros HV. rewrite HV in HN. discriminate HN. }
    assert (Hsites : sites s1 = sites s).
    { eapply clone_src_sites_same; [exact Hsrc | left; exact HV]. }
    pose proof (clone_entered_tmp svc _ Hvis HX (or_intror (conj eq_refl HV))) as Hin.
    cbn [clone_moved context visited set_slot sites].
    unfold same_sites in Hsites2.
    split; [apply clone_assign_baseSite|].
    split; [apply clone_assign_newSiteName|].
    split; [exact Htmp'|].
    rewrite clone_assign_destinationSite by exact HV.
    split; [exact Hdest|].
    split; [intros H; apply Hin in H; rewrite Hsites2, Hsites; apply Hent; exact H|].
    split; [intros H; rewrite Hsites2, Hsites; apply Hnent; intros H'; apply H, Hin, H'|].
    eapply apart_trans; [|eapply apart_trans; [|eapply apart_trans;
      [exact Hs2 | apply apart_set_slot]]].
    + eapply apart_weaken; [| |exact Hap]; intros H;
        apply clone_invoked_after_finish; auto.
    + eapply apart_weaken; [| |exact Hs1]; intros H;
        apply clone_invoked_after_finish; auto.
Qed.

Lemma clone_framed_start env s opts svc t :
  inProgressStateMachine s = None ->
  Clone.cloneFromBackup opts env s
    = (Ok (Some svc), set_slot (Some "cloneFromBackup") s, t) ->
  clone_framed env (Clone.opts_baseSite opts) (Clone.opts_newSiteName opts) s
    8 svc (set_slot (Some "cloneFromBackup") s) t.
Proof.
  intros Hslot E. unfold Clone.cloneFromBackup in E.
  rewrite bind_unfold in E. unfold gets at 1 in E. rewrite Hslot in E.
  cbn in E. injection E as <- <-.
  unfold clone_framed. cbn [context value visited status Clone.baseSite Clone.newSiteName
    Clone.tmpDirData Clone.destinationSite].
  split; [cbn; repeat split; reflexivity|].
  split; [reflexivity|]. split; [reflexivity|].
  split; [discriminate|]. split; [discriminate|].
  split; [intros [H|[]]; discriminate H|].
  split; [reflexivity | apply apart_set_slot].
Qed.

Lemma clone_framed_run env s opts :
  inProgressStateMachine s = None ->
  find_site (sites s) (shortid_generate env) = None ->
  exists svc s' t,
    Clone.clone opts env s = (Ok (Some svc), s', t) /\
    clone_framed env (Clone.opts_baseSite opts) (Clone.opts_newSiteName opts) s 0 svc s' t.
Proof.
  intros Hslot Hfresh.
  apply (clone_invariant env s opts
           (clone_framed env (Clone.opts_baseSite opts) (Clone.opts_newSiteName opts) s) Hslot).
  - intros n svc s0 t svc' s' t'. apply clone_framed_step. exact Hfresh.
  - intros svc t. apply clone_framed_start. exact Hslot.
Qed.



(** ** A restore in which nothing fails *)

Lemma release_eq env s p :
  (fs_emptyDirSync p ;; removeCallback p) env s
    = (Ok tt, set_disk (released_disk p (disk s)) s, [FsEmptyDirSync p; RemoveCallback p]).
Proof.
  unfold fs_emptyDirSync, removeCallback, emit, modify.
  cbv [bind gets]. cbn [disk set_disk].
  rewrite has_children_emptyDir. reflexivity.
Qed.

Lemma restore_importDatabase_eq env s ctx tmp :
  Restore.tmpDirData ctx = Some tmp ->
  (forall q, fault env (RunSiteSQLCmd (Restore.site ctx) q) = None) ->
  fault env (ImportSQLFile (Restore.site ctx) (sqlFile_in env tmp)) = None ->
  Restore.importDatabase ctx env s =
  if existsSync (disk s) (sqlFile_in env tmp)
  then (Ok Restore.undefined, imported (Restore.site ctx) (sqlFile_in env tmp) s,
        sql_after_import (Restore.site ctx) (sqlFile_in env tmp)
          (sql_mode (mysql_of s (Site.id (Restore.site ctx)))))
  else (Ok Restore.undefined, s, [Logger "warn" no_sql_file_warning]).
Proof.
  intros Htmp Hq Hi. unfold Restore.importDatabase. rewrite Htmp.
  unfold sqlFile_in in *. rewrite bind_ask, bind_gets.
  destruct (existsSync (disk s) _) eqn:Hex; cbn [negb]; [|reflexivity].
  destruct (import_goes_through env s (Restore.site ctx) _ Hq Hi Restore.undefined)
    as (s1 & E1 & Hs1).
  rewrite E1, Hs1. reflexivity.
Qed.

Lemma restore_getCredentials_eq env s ctx onDisk :
  find_site (sites s) (Site.id (Restore.site ctx)) = Some onDisk ->
  fault env (GetBackupSite (Site.localBackupRepoID onDisk)) = None ->
  Restore.getCredentials ctx env s =
  (Ok (Restore.credentials
         (BackupSite.password (hub_backup_site env (Site.localBackupRepoID onDisk)))
         (BackupSite.uuid (hub_backup_site env (Site.localBackupRepoID onDisk)))
         (BackupSite.id (hub_backup_site env (Site.localBackupRepoID onDisk)))),
   s, [GetBackupSite (Site.localBackupRepoID onDisk)]).
Proof.
  intros Hfind Hf. unfold Restore.getCredentials, getSiteDataFromDisk, getBackupSite.
  cbv [bind gets ask call ret]. rewrite Hfind, Hf. reflexivity.
Qed.

Lemma restore_createTmpDir_eq env s :
  fault env TmpDirSync = None ->
  Restore.createTmpDir env s =
  (Ok (Restore.tmpDir {| dir_name := tmp_name env |}),
   set_disk (mkdir (tmp_name env) (disk s)) s, [TmpDirSync]).
Proof.
  intros Hf. unfold Restore.createTmpDir, dirSync.
  cbv [bind ask call ret]. rewrite Hf. reflexivity.
Qed.

Lemma restore_restoreBackup_eq env s ctx tmp :
  Restore.tmpDirData ctx = Some tmp ->
  fault env (RestoreResticBackup (Restore.site ctx) (Restore.provider ctx)
               (Restore.encryptionPassword ctx) (Restore.snapshotID ctx) (dir_name tmp))
    = None ->
  Restore.restoreBackup ctx env s =
  (Ok Restore.undefined,
   set_disk (unpack (dir_name tmp) (snapshot env (Restore.snapshotID ctx)) (disk s)) s,
   [RestoreResticBackup (Restore.site ctx) (Restore.provider ctx)
      (Restore.encryptionPassword ctx) (Restore.snapshotID ctx) (dir_name tmp)]).
Proof.
  intros Htmp Hf. unfold Restore.restoreBackup. rewrite Htmp.
  unfold restoreResticBackup. cbv [bind ask call ret]. rewrite Hf. reflexivity.
Qed.

Ltac restore_src_at Hsrc :=
  unfold restore_src in Hsrc;
  cbn [states Restore.restoreMachine value context restore_service nth restore_order]
    in Hsrc.

Lemma restore_on_course_step env opts onDisk s0 n svc s t svc' s' t' :
  (forall c, fault env c = None) ->
  find_site (sites s0) (Site.id (Restore.opts_site opts)) = Some onDisk ->
  restore_step env svc s svc' s' t' ->
  restore_on_course env opts onDisk s0 (S n) svc s t ->
  restore_on_course env opts onDisk s0 n svc' s' (t ++ t').
Proof.
  intros Hf Hfind Hstep (Hn & -> & -> & ->).
  split; [lia|].
  assert (Hcase : n = 4 \/ n = 3 \/ n = 2 \/ n = 1 \/ n = 0) by lia.
  destruct Hcase as [->|[->|[->|[->| ->]]]]; cbn [Nat.sub] in *;
    inversion Hstep as [Hidle | e s1 t1 Hst HX Hsrc | d s1 t1 Hst HX HN Hsrc
                        | d s1 t1 r s2 t2 Hst HX HN Hsrc Hrm]; subst; clear Hstep;
    try (destruct Hidle as [H|H]; [exfalso; apply H; reflexivity | discriminate H]);
    try discriminate HN;
    restore_src_at Hsrc.
  - (* credentials *)
    rewrite (restore_getCredentials_eq env (restore_sys env opts s0 0)
               (restore_context env opts onDisk 0) onDisk Hfind (Hf _)) in Hsrc.
    discriminate Hsrc.
  - rewrite (restore_getCredentials_eq env (restore_sys env opts s0 0)
               (restore_context env opts onDisk 0) onDisk Hfind (Hf _)) in Hsrc.
    injection Hsrc as <- <- <-. repeat split.
  - (* staging directory *)
    rewrite (restore_createTmpDir_eq env _ (Hf _)) in Hsrc. discriminate Hsrc.
  - rewrite (restore_createTmpDir_eq env _ (Hf _)) in Hsrc.
    injection Hsrc as <- <- <-. repeat split.
  - (* restic *)
    rewrite (restore_restoreBackup_eq env (restore_sys env opts s0 2)
               (restore_context env opts onDisk 2) {| dir_name := tmp_name env |} eq_refl (Hf _))
      in Hsrc.
    discriminate Hsrc.
  - rewrite (restore_restoreBackup_eq env (restore_sys env opts s0 2)
               (restore_context env opts onDisk 2) {| dir_name := tmp_name env |} eq_refl (Hf _))
      in Hsrc.
    injection Hsrc as <- <- <-. repeat split.
  - (* files *)
    rewrite (restore_moveSiteFromTmpDir_eq env (restore_sys env opts s0 3)
               (restore_context env opts onDisk 3) {| dir_name := tmp_name env |} eq_refl)
      in Hsrc by (intros; apply Hf).
    rewrite Hf in Hsrc. discriminate Hsrc.
  - rewrite (restore_moveSiteFromTmpDir_eq env (restore_sys env opts s0 3)
               (restore_context env opts onDisk 3) {| dir_name := tmp_name env |} eq_refl)
      in Hsrc by (intros; apply Hf).
    rewrite Hf in Hsrc. injection Hsrc as <- <- <-.
    repeat split.
  - (* database *)
    rewrite (restore_importDatabase_eq env (restore_sys env opts s0 4)
               (restore_context env opts onDisk 4) {| dir_name := tmp_name env |} eq_refl)
      in Hsrc by (intros; apply Hf).
    destruct (existsSync _ _); discriminate Hsrc.
  - (* database, and the release of the staging directory *)
    rewrite (restore_importDatabase_eq env (restore_sys env opts s0 4)
               (restore_context env opts onDisk 4) {| dir_name := tmp_name env |} eq_refl)
      in Hsrc by (intros; apply Hf).
    assert (Hrm' : Restore.removeTmpDir
                     (restore_assign Restore.restoringDatabase d
                        (restore_context env opts onDisk 4)) env s1 = (r, s2, t2))
      by exact Hrm.
    clear Hrm.
    replace (Restore.removeTmpDir _ env s1)
      with ((fs_emptyDirSync (tmp_name env) ;; removeCallback (tmp_name env)) env s1)
      in Hrm' by (destruct d; reflexivity).
    rewrite release_eq in Hrm'. injection Hrm' as <- <- <-.
    cbn [restore_sys restore_chunk restore_trace restore_service Nat.leb].
    cbn [restore_sys restore_context Restore.site] in Hsrc.
    set (applied := set_disk _ (set_slot (Some "restoreBackup") s0)) in *.
    destruct (existsSync (disk applied) _) eqn:Hex;
      injection Hsrc as <- <- <-; repeat split.
Qed.

Lemma restore_on_course_run env s opts onDisk :
  inProgressStateMachine s = None ->
  (forall c, fault env c = None) ->
  find_site (sites s) (Site.id (Restore.opts_site opts)) = Some onDisk ->
  Restore.restore opts env s
    = (Ok (Some (restore_service env opts onDisk 5)), restore_sys env opts s 5,
       restore_trace env opts onDisk s 5).
Proof.
  intros Hslot Hf Hfind.
  destruct (restore_invariant env s opts (restore_on_course env opts onDisk s) Hslot)
    as (svc & s' & t & E & _ & -> & -> & ->).
  - intros n svc s1 t svc' s' t'. apply restore_on_course_step; assumption.
  - intros svc t E. unfold Restore.restoreFromBackup in E.
    rewrite bind_unfold in E. unfold gets at 1 in E. rewrite Hslot in E.
    cbn in E. injection E as <- <-.
    split; [lia|]. repeat split.
  - exact E.
Qed.

Lemma released_out tmp d q :
  is_prefix tmp q = false -> node_at (released_disk tmp d) q = node_at d q.
Proof.
  intros H. unfold released_disk. rewrite node_at_remove, H.
  apply node_at_emptyDir_out, H.
Qed.

Lemma released_in tmp d q :
  is_prefix tmp q = true -> node_at (released_disk tmp d) q = None.
Proof. intros H. unfold released_disk. rewrite node_at_remove, H. reflexivity. Qed.

Lemma staged_out env id d q :
  is_prefix (tmp_name env) q = false -> node_at (staged_disk env id d) q = node_at d q.
Proof.
  intros H. unfold staged_disk. rewrite node_at_unpack_out by exact H.
  apply node_at_mkdir_other, is_prefix_false_neq, H.
Qed.

Lemma staged_in env id d r :
  r <> [] ->
  (forall p, is_prefix (tmp_name env) p = true -> node_at d p = None) ->
  node_at (staged_disk env id d) (tmp_name env ++ r) = node_at (snapshot env id) r.
Proof.
  intros Hr Hfresh. unfold staged_disk. rewrite node_at_unpack_in.
  destruct (node_at (snapshot env id) r); [reflexivity|].
  rewrite node_at_mkdir_other.
  - apply Hfresh, is_prefix_app.
  - rewrite <- (app_nil_r (tmp_name env)) at 1. rewrite path_eqb_app_head.
    destruct r; [congruence | reflexivity].
Qed.

Lemma staged_on_disk env id d p :
  on_disk d p -> on_disk (staged_disk env id d) p.
Proof.
  intros H. apply existsSync_on_disk. unfold staged_disk.
  apply existsSync_unpack. rewrite existsSync_mkdir.
  apply existsSync_on_disk in H. rewrite H. apply orb_true_r.
Qed.

Lemma mysql_of_same s s' id : mysql s' = mysql s -> mysql_of s' id = mysql_of s id.
Proof. intros H. unfold mysql_of. rewrite H. reflexivity. Qed.



(** ** A clone in which nothing fails *)

Lemma clone_getCredentials_eq env s ctx onDisk :
  find_site (sites s) (Site.id (Clone.baseSite ctx)) = Some onDisk ->
  fault env (GetBackupSite (Site.localBackupRepoID onDisk)) = None ->
  Clone.getCredentials ctx env s =
  (Ok (Clone.credentials
         (BackupSite.password (hub_backup_site env (Site.localBackupRepoID onDisk)))
         (BackupSite.uuid (hub_backup_site env (Site.localBackupRepoID onDisk)))
         (BackupSite.id (hub_backup_site env (Site.localBackupRepoID onDisk)))),
   s, [GetBackupSite (Site.localBackupRepoID onDisk)]).
Proof.
  intros Hfind Hf. unfold Clone.getCredentials, getSiteDataFromDisk, getBackupSite.
  cbv [bind gets ask call ret]. rewrite Hfind, Hf. reflexivity.
Qed.

Lemma clone_createTmpDir_eq env s :
  fault env TmpDirSync = None ->
  Clone.createTmpDir env s =
  (Ok (Clone.tmpDir {| dir_name := tmp_name env |}),
   set_disk (mkdir (tmp_name env) (disk s)) s, [TmpDirSync]).
Proof.
  intros Hf. unfold Clone.createTmpDir, dirSync.
  cbv [bind ask call ret]. rewrite Hf. reflexivity.
Qed.

Lemma clone_cloneBackup_eq env s ctx tmp :
  Clone.tmpDirData ctx = Some tmp ->
  fault env (RestoreResticBackup (Clone.baseSite ctx) (Clone.provider ctx)
               (Clone.encryptionPassword ctx) (Clone.snapshotHash ctx) (dir_name tmp))
    = None ->
  Clone.cloneBackup ctx env s =
  (Ok Clone.undefined,
   set_disk (unpack (dir_name tmp) (snapshot env (Clone.snapshotHash ctx)) (disk s)) s,
   [RestoreResticBackup (Clone.baseSite ctx) (Clone.provider ctx)
      (Clone.encryptionPassword ctx) (Clone.snapshotHash ctx) (dir_name tmp)]).
Proof.
  intros Htmp Hf. unfold Clone.cloneBackup. rewrite Htmp.
  unfold restoreResticBackup. cbv [bind ask call ret]. rewrite Hf. reflexivity.
Qed.

Lemma clone_moveSiteFromTmpDir_eq env s ctx tmp dest :
  Clone.destinationSite ctx = Some dest ->
  Clone.tmpDirData ctx = Some tmp ->
  fault env (FsCopySync (dir_name tmp) (formatHomePath env (Site.path dest))) = None ->
  Clone.moveSiteFromTmpDir ctx env s =
  (Ok Clone.undefined,
   set_disk (copy (dir_name tmp) (formatHomePath env (Site.path dest)) (disk s)) s,
   [FsCopySync (dir_name tmp) (formatHomePath env (Site.path dest));
    Logger "info" (moved_log (dir_name tmp) (formatHomePath env (Site.path dest)))]).
Proof.
  intros Hdest Htmp Hf. unfold Clone.moveSiteFromTmpDir. rewrite Hdest, Htmp.
  unfold fs_copySync, logger_info, emit. cbv [bind ask call ret]. rewrite Hf. reflexivity.
Qed.

Lemma clone_provisionSite_eq env s ctx dest :
  Clone.destinationSite ctx = Some dest ->
  fault env (Provision dest) = None ->
  Clone.provisionSite ctx env s = (Ok Clone.undefined, s, [Provision dest]).
Proof.
  intros Hdest Hf. unfold Clone.provisionSite. rewrite Hdest.
  unfold siteProvisioner_provision. cbv [bind call ret]. rewrite Hf. reflexivity.
Qed.

Lemma clone_importDatabase_eq env s ctx tmp dest :
  Clone.tmpDirData ctx = Some tmp ->
  Clone.destinationSite ctx = Some dest ->
  (forall q, fault env (RunSiteSQLCmd dest q) = None) ->
  fault env (ImportSQLFile dest (sqlFile_in env tmp)) = None ->
  Clone.importDatabase ctx env s =
  if existsSync (disk s) (sqlFile_in env tmp)
  then (Ok Clone.undefined, imported dest (sqlFile_in env tmp) s,
        sql_after_import dest (sqlFile_in env tmp) (sql_mode (mysql_of s (Site.id dest))))
  else (Ok Clone.undefined, s, [Logger "warn" no_sql_file_warning]).
Proof.
  intros Htmp Hdest Hq Hi. unfold Clone.importDatabase. rewrite Htmp, Hdest.
  unfold sqlFile_in in *. rewrite bind_ask, bind_gets.
  destruct (existsSync (disk s) _) eqn:Hex; cbn [negb]; [|reflexivity].
  destruct (import_goes_through env s dest _ Hq Hi Clone.undefined) as (s1 & E1 & Hs1).
  rewrite E1, Hs1. reflexivity.
Qed.

Lemma clone_searchReplace_eq env s ctx dest :
  Clone.destinationSite ctx = Some dest ->
  fault env (WaitForDB dest) = None ->
  fault env (ChangeSiteDomainToHost dest) = None ->
  fault env (RestartSite dest) = None ->
  Clone.searchReplace ctx env s =
  (Ok Clone.undefined, s,
   [ SendIPCEvent (updateSiteStatus (Site.id dest) "provisioning");
     SendIPCEvent (updateSiteMessage (Site.id dest) "Changing site domain");
     WaitForDB dest; ChangeSiteDomainToHost dest; RestartSite dest ]).
Proof.
  intros Hdest H1 H2 H3. unfold Clone.searchReplace. rewrite Hdest.
  unfold siteDatabase_waitForDB, changeSiteDomain_changeSiteDomainToHost,
    siteProcessManager_restart, send, emit.
  cbv [bind call ret]. rewrite H1, H2, H3. reflexivity.
Qed.

Ltac clone_src_at Hsrc :=
  unfold clone_src in Hsrc;
  cbn [states Clone.cloneMachine value context clone_service nth clone_order] in Hsrc.

Lemma clone_on_course_step env opts onDisk s0 n svc s t svc' s' t' :
  (forall c, fault env c = None) ->
  find_site (sites s0) (Site.id (Clone.opts_baseSite opts)) = Some onDisk ->
  checkForDuplicateSiteName env (sites s0) (Clone.opts_newSiteName opts)
    (formatSiteNicename env (Clone.opts_newSiteName opts)) = false ->
  find_site (sites s0) (shortid_generate env) = None ->
  clone_step env svc s svc' s' t' ->
  clone_on_course env opts onDisk s0 (S n) svc s t ->
  clone_on_course env opts onDisk s0 n svc' s' (t ++ t').
Proof.
  intros Hf Hfind Hdup Hfresh Hstep (Hn & -> & -> & ->).
  split; [lia|].
  set (dup := clone_destination env (Clone.opts_baseSite opts) (Clone.opts_newSiteName opts)).
  assert (Hcase : n = 7 \/ n = 6 \/ n = 5 \/ n = 4 \/ n = 3 \/ n = 2 \/ n = 1 \/ n = 0)
    by lia.
  destruct Hcase as [->|[->|[->|[->|[->|[->|[->| ->]]]]]]]; cbn [Nat.sub] in *;
    inversion Hstep as [Hidle | e s1 t1 Hst HX Hsrc | d s1 t1 Hst HX HN Hsrc
                        | d s1 t1 r s2 t2 Hst HX HN Hsrc Hrm]; subst; clear Hstep;
    try (destruct Hidle as [H|H]; [exfalso; apply H; reflexivity | discriminate H]);
    try discriminate HN;
    clone_src_at Hsrc.
  - (* credentials *)
    rewrite (clone_getCredentials_eq env (clone_sys env opts s0 0)
               (clone_context env opts onDisk 0) onDisk Hfind (Hf _)) in Hsrc.
    discriminate Hsrc.
  - rewrite (clone_getCredentials_eq env (clone_sys env opts s0 0)
               (clone_context env opts onDisk 0) onDisk Hfind (Hf _)) in Hsrc.
    injection Hsrc as <- <- <-. repeat split.
  - (* destination *)
    rewrite (setupDestinationSite_ok env (clone_sys env opts s0 1)
               (clone_context env opts onDisk 1) Hdup Hfresh) in Hsrc.
    discriminate Hsrc.
  - rewrite (setupDestinationSite_ok env (clone_sys env opts s0 1)
               (clone_context env opts onDisk 1) Hdup Hfresh) in Hsrc.
    injection Hsrc as <- <- <-. repeat split.
  - (* staging directory *)
    rewrite (clone_createTmpDir_eq env _ (Hf _)) in Hsrc. discriminate Hsrc.
  - rewrite (clone_createTmpDir_eq env _ (Hf _)) in Hsrc.
    injection Hsrc as <- <- <-. repeat split.
  - (* restic *)
    rewrite (clone_cloneBackup_eq env (clone_sys env opts s0 3)
               (clone_context env opts onDisk 3) {| dir_name := tmp_name env |}
               eq_refl (Hf _)) in Hsrc.
    discriminate Hsrc.
  - rewrite (clone_cloneBackup_eq env (clone_sys env opts s0 3)
               (clone_context env opts onDisk 3) {| dir_name := tmp_name env |}
               eq_refl (Hf _)) in Hsrc.
    injection Hsrc as <- <- <-. repeat split.
  - (* files *)
    rewrite (clone_moveSiteFromTmpDir_eq env (clone_sys env opts s0 4)
               (clone_context env opts onDisk 4) {| dir_name := tmp_name env |} dup
               eq_refl eq_refl (Hf _)) in Hsrc.
    discriminate Hsrc.
  - rewrite (clone_moveSiteFromTmpDir_eq env (clone_sys env opts s0 4)
               (clone_context env opts onDisk 4) {| dir_name := tmp_name env |} dup
               eq_refl eq_refl (Hf _)) in Hsrc.
    injection Hsrc as <- <- <-. repeat split.
  - (* provisioning *)
    rewrite (clone_provisionSite_eq env (clone_sys env opts s0 5)
               (clone_context env opts onDisk 5) dup eq_refl (Hf _)) in Hsrc.
    discriminate Hsrc.
  - rewrite (clone_provisionSite_eq env (clone_sys env opts s0 5)
               (clone_context env opts onDisk 5) dup eq_refl (Hf _)) in Hsrc.
    injection Hsrc as <- <- <-. repeat split.
  - (* database *)
    rewrite (clone_importDatabase_eq env (clone_sys env opts s0 6)
               (clone_context env opts onDisk 6) {| dir_name := tmp_name env |} dup
               eq_refl eq_refl) in Hsrc by (intros; apply Hf).
    destruct (existsSync _ _); discriminate Hsrc.
  - rewrite (clone_importDatabase_eq env (clone_sys env opts s0 6)
               (clone_context env opts onDisk 6) {| dir_name := tmp_name env |} dup
               eq_refl eq_refl) in Hsrc by (intros; apply Hf).
    cbn [clone_sys clone_chunk clone_trace clone_service Nat.leb].
    cbn [clone_sys] in Hsrc. fold dup in Hsrc |- *.
    set (copied := set_disk _ (set_sites _ (set_slot (Some "cloneFromBackup") s0))) in *.
    destruct (existsSync (disk copied) _) eqn:Hex;
      injection Hsrc as <- <- <-; repeat split.
  - (* domain *)
    rewrite (clone_searchReplace_eq env (clone_sys env opts s0 7)
               (clone_context env opts onDisk 7) dup eq_refl (Hf _) (Hf _) (Hf _)) in Hsrc.
    discriminate Hsrc.
  - (* domain, and the release of the staging directory *)
    rewrite (clone_searchReplace_eq env (clone_sys env opts s0 7)
               (clone_context env opts onDisk 7) dup eq_refl (Hf _) (Hf _) (Hf _)) in Hsrc.
    injection Hsrc as <- <- <-.
    assert (Hrm' : Clone.removeTmpDir
                     (clone_assign Clone.searchReplaceDomain Clone.undefined
                        (clone_context env opts onDisk 7)) env
                     (clone_sys env opts s0 7) = (r, s2, t2))
      by exact Hrm.
    clear Hrm.
    change (Clone.removeTmpDir _ env (clone_sys env opts s0 7))
      with ((fs_emptyDirSync (tmp_name env) ;; removeCallback (tmp_name env)) env
              (clone_sys env opts s0 7)) in Hrm'.
    rewrite release_eq in Hrm'. injection Hrm' as <- <- <-.
    repeat split.
Qed.

Lemma clone_on_course_run env s opts onDisk :
  inProgressStateMachine s = None ->
  (forall c, fault env c = None) ->
  find_site (sites s) (Site.id (Clone.opts_baseSite opts)) = Some onDisk ->
  checkForDuplicateSiteName env (sites s) (Clone.opts_newSiteName opts)
    (formatSiteNicename env (Clone.opts_newSiteName opts)) = false ->
  find_site (sites s) (shortid_generate env) = None ->
  Clone.clone opts env s
    = (Ok (Some (clone_service env opts onDisk 8)), clone_sys env opts s 8,
       clone_trace env opts onDisk s 8).
Proof.
  intros Hslot Hf Hfind Hdup Hfresh.
  destruct (clone_invariant env s opts (clone_on_course env opts onDisk s) Hslot)
    as (svc & s' & t & E & _ & -> & -> & ->).
  - intros n svc s1 t svc' s' t'. apply clone_on_course_step; assumption.
  - intros svc t E. unfold Clone.cloneFromBackup in E.
    rewrite bind_unfold in E. unfold gets at 1 in E. rewrite Hslot in E.
    cbn in E. injection E as <- <-.
    split; [lia|]. repeat split.
  - exact E.
Qed.


(** ** The ignore-files module *)

Lemma NoDup_map_filter {A B} (f : A -> B) (g : A -> bool) l :
  NoDup (map f l) -> NoDup (map f (filter g l)).
Proof.
  induction l as [|a l IH]; cbn; [constructor|].
  intros H. inversion H as [|x l' Hnot Hl]; subst.
  destruct (g a); [|apply IH; exact Hl].
  cbn. constructor; [|apply IH; exact Hl].
  intros Hin. apply Hnot. apply in_map_iff in Hin. destruct Hin as [y [Hy Hin]].
  apply filter_In in Hin. apply in_map_iff. exists y. tauto.
Qed.


Lemma with_ancestors_prefix a p : In a (with_ancestors p) -> is_prefix a p = true.
Proof.
  revert a. induction p as [|x p IH]; intros a; cbn; [tauto|].
  intros [<-|H]; [cbn; rewrite String.eqb_refl; reflexivity|].
  apply in_map_iff in H. destruct H as [b [<- Hb]].
  cbn. rewrite String.eqb_refl. apply IH. exact Hb.
Qed.

Lemma node_at_mkdirs p d q :
  is_prefix q p = false -> node_at (mkdirs p d) q = node_at d q.
Proof.
  intros Hq. unfold mkdirs.
  assert (H : forall a, In a (with_ancestors p) -> path_eqb a q = false).
  { intros a Ha. destruct (path_eqb a q) eqn:E; [|reflexivity].
    apply path_eqb_eq in E. subst a. apply with_ancestors_prefix in Ha. congruence. }
  revert d. induction (with_ancestors p) as [|a l IH]; intros d; [reflexivity|].
  cbn [fold_left]. rewrite IH by (intros b Hb; apply H; right; exact Hb).
  apply node_at_mkdir_other. apply H. left. reflexivity.
Qed.

Lemma is_prefix_dirname q p : is_prefix q (dirname p) = true -> is_prefix q p = true.
Proof.
  intros H. apply is_prefix_spec in H. destruct H as [r Hr].
  unfold dirname in Hr.
  destruct p as [|x p] using rev_ind.
  - cbn in Hr. destruct q; [reflexivity | discriminate Hr].
  - rewrite removelast_last in Hr. subst p. rewrite <- app_assoc. apply is_prefix_app.
Qed.

Lemma getIgnoreFilePath_eq env s D site :
  getIgnoreFilePath D site env s =
  if existsSync (disk s) (ignoreFilePath_of env site)
  then (Ok (ignoreFilePath_of env site), s, [])
  else
    match fs_copySync_path (defaultIgnoreFilePath D (disk s)) (ignoreFilePath_of env site)
            env s with
    | (Ok _, s1, t1) => (Ok (ignoreFilePath_of env site), s1, t1)
    | (Throw e, s1, t1) => (Throw e, s1, t1)
    end.
Proof.
  unfold getIgnoreFilePath. rewrite bind_gets, bind_ask, bind_gets.
  fold (ignoreFilePath_of env site).
  destruct (existsSync (disk s) (ignoreFilePath_of env site)); cbn [negb].
  - reflexivity.
  - rewrite bind_unfold.
    destruct (fs_copySync_path _ _ env s) as [[[u|e] s1] t1]; [|reflexivity].
    cbn. rewrite app_nil_r. reflexivity.
Qed.

Lemma fs_copySync_path_exists env s src dst u s1 t1 :
  fs_copySync_path src dst env s = (Ok u, s1, t1) -> existsSync (disk s1) dst = true.
Proof.
  unfold fs_copySync_path. rewrite bind_gets.
  destruct (node_at (disk s) src) as [[|data]|].
  - unfold fs_copySync, call. destruct (fault env _); [discriminate|].
    intros E. injection E as _ <- _. cbn [disk set_disk]. unfold copy.
    apply existsSync_fold_write. rewrite existsSync_mkdir, path_eqb_refl. reflexivity.
  - unfold call. destruct (fault env _); [discriminate|].
    intros E. injection E as _ <- _. cbn [disk set_disk].
    rewrite existsSync_write. cbn [fst]. rewrite path_eqb_refl. reflexivity.
  - cbv [bind emit throw]. discriminate.
Qed.

(** X14. The site's ignore file is installed once and then kept.  When the
    site already has [.localbackupaddonignore], [getIgnoreFilePath] returns
    its path without a call and without a change to the state, whether or
    not a default file exists.  And whenever [getIgnoreFilePath] returns,
    the file is there, and calling it again returns the same path and
    changes nothing: what the user has written into the file is never
    overwritten. *)
Theorem ignore_file_kept env s D site :
  (existsSync (disk s) (ignoreFilePath_of env site) = true ->
   getIgnoreFilePath D site env s = (Ok (ignoreFilePath_of env site), s, [])) /\
  (forall p s1 t1,
     getIgnoreFilePath D site env s = (Ok p, s1, t1) ->
     p = ignoreFilePath_of env site /\
     existsSync (disk s1) p = true /\
     forall D', getIgnoreFilePath D' site env s1 = (Ok p, s1, [])).
Proof.
  split.
  - intros H. rewrite getIgnoreFilePath_eq, H. reflexivity.
  - intros p s1 t1. rewrite getIgnoreFilePath_eq.
    destruct (existsSync (disk s) (ignoreFilePath_of env site)) eqn:Hex.
    + intros E. injection E as <- <- <-. split; [reflexivity|]. split; [exact Hex|].
      intros D'. rewrite getIgnoreFilePath_eq, Hex. reflexivity.
    + destruct (fs_copySync_path _ _ env s) as [[[u|e] s2] t2] eqn:Hcp; [|discriminate].
      intros E. injection E as <- <- <-.
      pose proof (fs_copySync_path_exists _ _ _ _ _ _ _ Hcp) as Hex'.
      split; [reflexivity|]. split; [exact Hex'|].
      intros D'. rewrite getIgnoreFilePath_eq, Hex'. reflexivity.
Qed.

(** X15. Installing the default ignore file.  The default file is looked
    for at [<module directory>/../resources/default-ignore-file] and, only
    if nothing exists there, one directory further up.  When the site has no
    ignore file, the default is a file and the copy goes through,
    [getIgnoreFilePath] makes the one copy and returns the path; afterwards
    the site's ignore file holds the default's content, and every path that
    is neither the ignore file nor a directory above it is as before.  When
    nothing exists at the default's place either, it throws, having changed
    nothing. *)
Theorem ignore_file_installed env s D site :
  let ignore := ignoreFilePath_of env site in
  let default := defaultIgnoreFilePath D (disk s) in
  existsSync (disk s) ignore = false ->
  (forall data,
     node_at (disk s) default = Some (File data) ->
     fault env (FsCopySync default ignore) = None ->
     exists s',
       getIgnoreFilePath D site env s = (Ok ignore, s', [FsCopySync default ignore]) /\
       read_file (disk s') ignore = Some data /\
       (forall q, is_prefix q ignore = false -> node_at (disk s') q = node_at (disk s) q) /\
       sites s' = sites s /\ mysql s' = mysql s /\
       inProgressStateMachine s' = inProgressStateMachine s) /\
  (node_at (disk s) default = None ->
   getIgnoreFilePath D site env s
     = (Throw "ENOENT: no such file or directory"%string, s, [FsCopySync default ignore])).
Proof.
  intros ignore default Hex. split.
  - intros data Hdata Hf. rewrite getIgnoreFilePath_eq. fold ignore default. rewrite Hex.
    unfold fs_copySync_path. rewrite bind_gets, Hdata. unfold call. rewrite Hf.
    eexists. split; [reflexivity|]. cbn [disk set_disk sites mysql inProgressStateMachine].
    split; [|split; [|repeat split]].
    + rewrite node_at_read_file, node_at_write. cbn [fst snd].
      rewrite path_eqb_refl. reflexivity.
    + intros q Hq. rewrite node_at_write. cbn [fst].
      destruct (path_eqb ignore q) eqn:E.
      * apply path_eqb_eq in E. subst q. rewrite is_prefix_refl in Hq. discriminate.
      * apply node_at_mkdirs.
        destruct (is_prefix q (dirname ignore)) eqn:E'; [|reflexivity].
        apply is_prefix_dirname in E'. congruence.
  - intros Hnone. rewrite getIgnoreFilePath_eq. fold ignore default. rewrite Hex.
    unfold fs_copySync_path. rewrite bind_gets, Hnone. reflexivity.
Qed.

(** * The renderer *)

(** ** The providers slice *)

Lemma after_snoc h a :
  ProvidersSlice.after (h ++ [a]) = ProvidersSlice.reducer (ProvidersSlice.after h) a.
Proof. unfold ProvidersSlice.after. rewrite fold_left_app. reflexivity. Qed.

Lemma last_such_snoc {A} (f : A -> bool) h a :
  last_such f (h ++ [a]) = if f a then Some a else last_such f h.
Proof. unfold last_such. rewrite rev_app_distr. reflexivity. Qed.

(** X16. The providers slice never reports loading and failure at once.
    After any history of actions, from the initial state,
    [isLoadingEnabledProviders] and [hasErrorLoadingEnabledProviders] are not
    both set. *)
Theorem providers_never_loading_and_failed history :
  ProvidersSlice.isLoadingEnabledProviders (ProvidersSlice.after history)
    && ProvidersSlice.hasErrorLoadingEnabledProviders (ProvidersSlice.after history)
  = false.
Proof.
  induction history as [|a h IH] using rev_ind; [reflexivity|].
  rewrite after_snoc. destruct a; cbn; try exact IH; reflexivity.
Qed.

(** X17. Each field of the providers slice is written by its own actions
    and holds what the last of them wrote.  After any history:
    [isLoadingEnabledProviders] is set exactly when the last action of
    [getEnabledProvidersHub] is [pending]; [hasErrorLoadingEnabledProviders]
    exactly when the last of its [pending] and [rejected] actions is
    [rejected] (a later [fulfilled] does not clear it);
    [enabledProviders] is the payload of its last [fulfilled] action, the
    empty list when there is none (a failed reload keeps the list);
    [activeProviders] is the payload of the last [fulfilled] action of
    [initActiveProvidersFromLocalStorage] or [setActiveProviderAndPersist],
    [null] when there is none. *)
Theorem providers_fields_hold_last_write history :
  let st := ProvidersSlice.after history in
  ProvidersSlice.isLoadingEnabledProviders st
    = match last_such is_load history with
      | Some ProvidersSlice.getEnabledProvidersHub_pending => true
      | _ => false
      end /\
  ProvidersSlice.hasErrorLoadingEnabledProviders st
    = match last_such is_load_start_or_failure history with
      | Some ProvidersSlice.getEnabledProvidersHub_rejected => true
      | _ => false
      end /\
  ProvidersSlice.enabledProviders st
    = match last_such is_load_result history with
      | Some (ProvidersSlice.getEnabledProvidersHub_fulfilled payload) => payload
      | _ => []
      end /\
  ProvidersSlice.activeProviders st
    = match last_such is_active_result history with
      | Some (ProvidersSlice.initActiveProvidersFromLocalStorage_fulfilled payload)
      | Some (ProvidersSlice.setActiveProviderAndPersist_fulfilled payload) => payload
      | _ => None
      end.
Proof.
  induction history as [|a h IH] using rev_ind; [repeat split|].
  cbv zeta in *. rewrite after_snoc, !last_such_snoc.
  destruct IH as (I1 & I2 & I3 & I4).
  destruct a; cbn; repeat split; assumption.
Qed.

(** ** The tools section *)

Lemma addDivider_fold {A} (divider : A) n l acc i :
  i + List.length l = n ->
  fst (fold_left
         (fun (st : list A * nat) item =>
            let (acc, i) := st in
            let acc := acc ++ [item] in
            ((if negb (i =? n - 1)%nat then acc ++ [divider] else acc), S i))
         l (acc, i))
  = acc ++ intersperse divider l.
Proof.
  revert acc i. induction l as [|a l IH]; intros acc i Hn.
  - cbn. rewrite app_nil_r. reflexivity.
  - cbn [fold_left]. cbn [List.length] in Hn.
    destruct l as [|b l].
    + cbn [List.length] in Hn.
      assert (E : (i =? n - 1)%nat = true) by (apply Nat.eqb_eq; lia).
      rewrite E. cbn. reflexivity.
    + assert (E : (i =? n - 1)%nat = false) by (apply Nat.eqb_neq; cbn [List.length] in Hn; lia).
      rewrite E. cbn [negb]. rewrite IH by (cbn [List.length] in *; lia).
      cbn [intersperse]. rewrite <- !app_assoc. reflexivity.
Qed.

Lemma addDivider_intersperse {A} (divider : A) items :
  addDivider divider items = intersperse divider items.
Proof. unfold addDivider. rewrite (addDivider_fold divider (List.length items)); reflexivity. Qed.

Lemma intersperse_length {A} (sep : A) l :
  List.length (intersperse sep l) = 2 * List.length l - 1.
Proof.
  induction l as [|a [|b l] IH]; [reflexivity | reflexivity |].
  change (intersperse sep (a :: b :: l)) with (a :: sep :: intersperse sep (b :: l)).
  cbn [List.length] in *. lia.
Qed.

Lemma intersperse_nth {A} (sep : A) l k :
  nth_error (intersperse sep l) (2 * k) = nth_error l k /\
  (S k < List.length l -> nth_error (intersperse sep l) (2 * k + 1) = Some sep).
Proof.
  revert k. induction l as [|a [|b l] IH]; intros k.
  - destruct k; cbn; split; try reflexivity; lia.
  - destruct k as [|k]; cbn [List.length]; split; try reflexivity; try lia.
    replace (2 * S k) with (S (S (2 * k))) by lia. cbn. destruct k; reflexivity.
  - change (intersperse sep (a :: b :: l)) with (a :: sep :: intersperse sep (b :: l)).
    destruct k as [|k].
    + split; reflexivity.
    + replace (2 * S k) with (S (S (2 * k))) by lia.
      replace (S (S (2 * k)) + 1) with (S (S (2 * k + 1))) by lia.
      cbn [nth_error]. destruct (IH k) as [H1 H2]. split; [exact H1|].
      intros Hlen. apply H2. cbn [List.length] in *. lia.
Qed.

(** X18. [addDivider] puts a divider between each two items and nowhere
    else.  The result has [2n - 1] elements for [n] items (none for none);
    the item [k] is at position [2k]; position [2k + 1] holds a divider
    whenever item [k] is not the last.  So the list neither starts nor ends
    with a divider. *)
Theorem addDivider_between {A} (divider : A) (items : list A) :
  List.length (addDivider divider items) = 2 * List.length items - 1 /\
  (forall k, nth_error (addDivider divider items) (2 * k) = nth_error items k) /\
  (forall k, S k < List.length items ->
     nth_error (addDivider divider items) (2 * k + 1) = Some divider).
Proof.
  rewrite addDivider_intersperse. split; [apply intersperse_length|].
  split; intros k; apply intersperse_nth.
Qed.

Lemma obj_get_set {V} (k k' : string) (v : V) o :
  obj_get (obj_set k v o) k' = if k =? k' then Some v else obj_get o k'.
Proof.
  induction o as [|[k0 v0] o IH]; cbn; [reflexivity|].
  destruct (String.eqb_spec k0 k) as [->|Hne]; cbn.
  - destruct (k =? k'); reflexivity.
  - rewrite IH. destruct (String.eqb_spec k0 k') as [->|Hne'].
    + apply String.eqb_neq in Hne. rewrite String.eqb_sym, Hne. reflexivity.
    + reflexivity.
Qed.

Lemma snapshot_fold_snoc {V} names (ls : list V) l st :
  fold_left (snapshot_step names) (ls ++ [l]) st
    = snapshot_step names (fold_left (snapshot_step names) ls st) l.
Proof. rewrite fold_left_app. reflexivity. Qed.

Lemma snapshot_fold_index {V} names (ls : list V) o i :
  snd (fold_left (snapshot_step names) ls (o, i)) = i + List.length ls.
Proof.
  revert o i. induction ls as [|l ls IH]; intros o i; cbn [fold_left List.length].
  - cbn. lia.
  - unfold snapshot_step at 2. rewrite IH. lia.
Qed.

Lemma snapshot_fold_get {V} names (ls : list V) :
  List.length ls <= List.length names ->
  (forall i p l,
     nth_error names i = Some p -> nth_error ls i = Some l ->
     (forall j, i < j -> j < List.length ls -> nth_error names j <> Some p) ->
     obj_get (fst (fold_left (snapshot_step names) ls ([], 0))) p = Some l) /\
  (forall p, ~ In p names ->
     obj_get (fst (fold_left (snapshot_step names) ls ([], 0))) p = None).
Proof.
  induction ls as [|l' ls IH] using rev_ind; intros Hlen.
  - split; [intros i p l _ H; destruct i; discriminate H | reflexivity].
  - rewrite length_app in Hlen. cbn [List.length] in Hlen.
    destruct IH as [IH1 IH2]; [lia|].
    rewrite snapshot_fold_snoc.
    pose proof (snapshot_fold_index names ls (@nil (string * V)) 0) as Hidx.
    destruct (fold_left (snapshot_step names) ls ([], 0)) as [o n] eqn:Hfold.
    cbn [snd fst] in *. subst n. cbn [Nat.add].
    unfold snapshot_step. cbn [fst].
    destruct (nth_error names (List.length ls)) as [q|] eqn:Hq.
    2:{ apply nth_error_None in Hq. lia. }
    split.
    + intros i p l Hp Hl Hlast. rewrite obj_get_set.
      destruct (Nat.eq_dec i (List.length ls)) as [->|Hne].
      * rewrite Hq in Hp. injection Hp as ->. rewrite String.eqb_refl.
        rewrite nth_error_app2, Nat.sub_diag in Hl by lia. exact Hl.
      * assert (Hi : i < List.length ls).
        { assert (i < List.length (ls ++ [l'])) by (apply nth_error_Some; congruence).
          rewrite length_app in H. cbn [List.length] in H. lia. }
        rewrite nth_error_app1 in Hl by exact Hi.
        destruct (String.eqb_spec q p) as [->|Hqp].
        -- exfalso. apply (Hlast (List.length ls)); [exact Hi | | exact Hq].
           rewrite length_app. cbn. lia.
        -- apply (IH1 i p l Hp Hl). intros j Hj Hj'. apply Hlast; [exact Hj|].
           rewrite length_app. cbn. lia.
    + intros p Hp. rewrite obj_get_set.
      destruct (String.eqb_spec q p) as [->|Hqp].
      * exfalso. apply Hp. eapply nth_error_In. exact Hq.
      * apply IH2. exact Hp.
Qed.

(** X19. Each provider's section gets the snapshots fetched for it.  The
    snapshot lists come back in the order of the providers.  The state built
    from them maps a provider id to the list that came back for the last
    provider record with that id (for the record itself when ids are not
    repeated), and has no entry for an id that no record carries, which the
    section renders as "No backups created yet". *)
Theorem snapshots_keyed_by_provider {V} providers (resolvedSnapshots : list V) :
  List.length resolvedSnapshots = List.length providers ->
  (forall i provider snapshotList,
     nth_error (map ProvidersSlice.id providers) i = Some provider ->
     nth_error resolvedSnapshots i = Some snapshotList ->
     (forall j, i < j -> nth_error (map ProvidersSlice.id providers) j <> Some provider) ->
     obj_get (snapshotState providers resolvedSnapshots) provider = Some snapshotList) /\
  (forall provider, ~ In provider (map ProvidersSlice.id providers) ->
     obj_get (snapshotState providers resolvedSnapshots) provider = None).
Proof.
  intros Hlen. unfold snapshotState.
  destruct (snapshot_fold_get (map ProvidersSlice.id providers) resolvedSnapshots)
    as [H1 H2]; [rewrite length_map; lia|].
  split; [|exact H2].
  intros i p l Hp Hl Hlast. apply (H1 i p l Hp Hl). intros j Hj _. apply Hlast, Hj.
Qed.

(** ** The add-site flow *)

(** X20. The cloud-backup stepper shows one place in the flow.  With the
    four routes of the flow pairwise different: whenever the breadcrumbs
    filter puts the cloud-backup stepper in, it has three steps of which
    exactly one is active, the steps before it are done and the active one
    and those after it are not. *)
Theorem stepper_shows_one_place LOCAL_ROUTES pathname createdFromCloudBackup steps :
  NoDup [ ADD_SITE_START LOCAL_ROUTES; ADD_SITE_BACKUP_SITE LOCAL_ROUTES;
          ADD_SITE_BACKUP_SNAPSHOT LOCAL_ROUTES; ADD_SITE_ENVIRONMENT LOCAL_ROUTES ] ->
  renderBreadcrumbs LOCAL_ROUTES pathname createdFromCloudBackup = cloudStepper steps ->
  List.length steps = 3 /\
  exists k, k < 3 /\
    forall i st, nth_error steps i = Some st ->
      active st = (i =? k)%nat /\ done st = (i <? k)%nat.
Proof.
  intros Hnd. unfold renderBreadcrumbs.
  inversion Hnd as [|a l Hn1 Hnd1]; subst. inversion Hnd1 as [|a l Hn2 Hnd2]; subst.
  inversion Hnd2 as [|a l Hn3 _]; subst. cbn in Hn1, Hn2, Hn3.
  destruct (String.eqb_spec pathname (ADD_SITE_START LOCAL_ROUTES)) as [E0|N0];
    [discriminate|].
  destruct (String.eqb_spec pathname (ADD_SITE_BACKUP_SITE LOCAL_ROUTES)) as [E1|N1].
  - cbn [orb]. intros E. injection E as <-. split; [reflexivity|]. exists 0.
    split; [lia|]. intros i st Hi. unfold cloudBackupStepper in Hi. subst pathname.
    destruct i as [|[|[|i]]]; cbn in Hi; try (destruct i; discriminate Hi);
      injection Hi as <-; cbn [active done].
    + rewrite String.eqb_refl. split; reflexivity.
    + split; [|apply String.eqb_neq; intuition congruence]. apply String.eqb_neq. intuition congruence.
    + split; [|reflexivity]. apply String.eqb_neq. intuition congruence.
  - destruct (String.eqb_spec pathname (ADD_SITE_BACKUP_SNAPSHOT LOCAL_ROUTES)) as [E2|N2].
    + cbn [orb]. intros E. injection E as <-. split; [reflexivity|]. exists 1.
      split; [lia|]. intros i st Hi. unfold cloudBackupStepper in Hi. subst pathname.
      destruct i as [|[|[|i]]]; cbn in Hi; try (destruct i; discriminate Hi);
        injection Hi as <-; cbn [active done].
      * split; [apply String.eqb_neq; exact N1|].
        apply negb_true_iff, String.eqb_neq. exact N1.
      * rewrite String.eqb_refl. split; [reflexivity|]. apply String.eqb_neq. intuition congruence.
      * split; [|reflexivity]. apply String.eqb_neq. intuition congruence.
    + cbn [orb].
      destruct createdFromCloudBackup; cbn [andb]; [|discriminate].
      destruct (String.eqb_spec pathname (ADD_SITE_ENVIRONMENT LOCAL_ROUTES)) as [E3|N3];
        [|discriminate].
      intros E. injection E as <-. split; [reflexivity|]. exists 2.
      split; [lia|]. intros i st Hi. unfold cloudBackupStepper in Hi.
      destruct i as [|[|[|i]]]; cbn in Hi; try (destruct i; discriminate Hi);
        injection Hi as <-; cbn [active done].
      * split; [apply String.eqb_neq; exact N1|].
        apply negb_true_iff, String.eqb_neq. exact N1.
      * split; [apply String.eqb_neq; exact N2|]. apply String.eqb_eq. exact E3.
      * split; [|reflexivity]. apply String.eqb_eq. exact E3.
Qed.

Lemma routes_fold {C} LOCAL_ROUTES path (routes acc : list (Route C)) :
  fold_left (routes_step LOCAL_ROUTES path) routes acc
  = acc ++ flat_map (fun route =>
             if route_path route =? path ++ "/"
             then [add_site_add LOCAL_ROUTES route; route]
             else [route]) routes.
Proof.
  revert acc. induction routes as [|r routes IH]; intros acc; cbn [fold_left flat_map].
  - rewrite app_nil_r. reflexivity.
  - rewrite IH. unfold routes_step, add_site_add.
    destruct (route_path r =? (path ++ "/")%string)%string; rewrite <- !app_assoc; reflexivity.
Qed.


(** * The theorems at the example installation *)

Lemma single_flight_guard_witness :
  inProgressStateMachine ex_busy = Some "backup"%string /\
  Restore.restoreFromBackup ex_restore_opts (ex_env ex_snapshot no_fault) ex_busy
    = (Ok None, ex_busy, [Logger "warn" Restore.busy_warning]) /\
  Clone.cloneFromBackup (ex_clone_opts "Copy") (ex_env ex_snapshot no_fault) ex_busy
    = (Ok None, ex_busy, [Logger "warn" Clone.busy_warning]).
Proof.
  split; [reflexivity|].
  destruct (single_flight_guard (ex_env ex_snapshot no_fault) ex_busy "backup"
              ex_restore_opts (ex_clone_opts "Copy") eq_refl) as (Hr & Hc & _).
  split; [exact Hr | exact Hc].
Defined.



Lemma name_collision_short_circuit_witness :
  inProgressStateMachine ex_sys = None /\
  checkForDuplicateSiteName (ex_env ex_snapshot no_fault) (sites ex_sys) "MY SITE"
    (formatSiteNicename (ex_env ex_snapshot no_fault) "MY SITE") = true /\
  exists svc s' t,
    Clone.clone (ex_clone_opts "MY SITE") (ex_env ex_snapshot no_fault) ex_sys
      = (Ok (Some svc), s', t) /\
    value svc = Clone.failed /\ sites s' = sites ex_sys /\ disk s' = disk ex_sys.
Proof.
  split; [reflexivity|]. split; [reflexivity|].
  destruct (name_collision_short_circuit (ex_env ex_snapshot no_fault) ex_sys
              (ex_clone_opts "MY SITE") eq_refl eq_refl)
    as (_ & svc & s' & t & E & Hv & _ & Hs & Hd & _).
  exists svc, s', t. repeat split; assumption.
Defined.


Lemma missing_dump_tolerance_witness :
  existsSync (disk ex_staged_files_only)
    (sqlFile_in (ex_env ex_snapshot_files_only no_fault) ex_tmp) = false /\
  Restore.tmpDirData ex_restore_ctx = Some ex_tmp /\
  Restore.importDatabase ex_restore_ctx (ex_env ex_snapshot_files_only no_fault)
    ex_staged_files_only
    = (Ok Restore.undefined, ex_staged_files_only, [Logger "warn" no_sql_file_warning]).
Proof.
  split; [reflexivity|]. split; [reflexivity|].
  exact (proj1 (missing_dump_tolerance (ex_env ex_snapshot_files_only no_fault)
                  ex_staged_files_only ex_tmp eq_refl) ex_restore_ctx eq_refl).
Defined.

Lemma restore_failure_recovery_witness :
  inProgressStateMachine ex_sys = None /\
  exists svc s' t,
    Restore.restore ex_restore_opts (ex_env ex_snapshot restic_fails) ex_sys
      = (Ok (Some svc), s', t) /\
    status svc = Stopped /\
    hd_error t = Some (GetSiteStatus ex_site).
Proof.
  split; [reflexivity|].
  destruct (restore_failure_recovery (ex_env ex_snapshot restic_fails) ex_sys
              ex_restore_opts eq_refl) as (svc & s' & t & E & Hst & Hhd & _).
  exists svc, s', t. repeat split; assumption.
Defined.

Lemma database_apply_not_atomic_witness :
  existsSync (disk ex_staged) (sqlFile_in (ex_env ex_snapshot import_fails) ex_tmp) = true /\
  fault (ex_env ex_snapshot import_fails)
    (ImportSQLFile ex_site (sqlFile_in (ex_env ex_snapshot import_fails) ex_tmp))
    = Some "mysql: syntax error"%string /\
  exists s',
    Restore.importDatabase ex_restore_ctx (ex_env ex_snapshot import_fails) ex_staged
      = (Throw "mysql: syntax error"%string, s',
         sql_until_import ex_site (sqlFile_in (ex_env ex_snapshot import_fails) ex_tmp)) /\
    sql_mode (mysql_of s' "s1") = permissive_mode /\
    database (mysql_of s' "s1") "local" = Some EmptyString.
Proof.
  split; [reflexivity|]. split; [reflexivity|].
  destruct (database_apply_not_atomic (ex_env ex_snapshot import_fails) ex_staged
              ex_tmp ex_site ex_restore_ctx ex_clone_ctx
              eq_refl eq_refl eq_refl eq_refl eq_refl eq_refl eq_refl eq_refl)
    as [Himport _].
  destruct (Himport "mysql: syntax error"%string eq_refl) as (s' & E & _ & Hm & Hd).
  exists s'. repeat split; assumption.
Defined.

(** * The further theorems at the example installation *)

Lemma ex_tmp_unused p :
  is_prefix ["tmp"; "tmp-1"] p = true -> node_at ex_disk p = None.
Proof.
  destruct p as [|a p]; [discriminate|]. cbn [is_prefix].
  intros H. apply andb_true_iff in H. destruct H as [Ha _].
  apply String.eqb_eq in Ha. subst a. reflexivity.
Qed.



Lemma database_apply_round_trip_witness :
  existsSync (disk ex_staged) (sqlFile_in (ex_env ex_snapshot no_fault) ex_tmp) = true /\
  exists s',
    Restore.importDatabase ex_restore_ctx (ex_env ex_snapshot no_fault) ex_staged
      = (Ok Restore.undefined, s',
         sql_after_import ex_site (sqlFile_in (ex_env ex_snapshot no_fault) ex_tmp)
           "STRICT_TRANS_TABLES") /\
    sql_mode (mysql_of s' "s1") = "STRICT_TRANS_TABLES" /\
    database (mysql_of s' "s1") "local" = Some "INSERT new".
Proof.
  split; [reflexivity|].
  destruct (database_apply_round_trip (ex_env ex_snapshot no_fault) ex_staged
              ex_tmp ex_site ex_restore_ctx ex_clone_ctx
              eq_refl eq_refl eq_refl eq_refl eq_refl (fun _ => eq_refl) eq_refl)
    as (s' & E & _ & Hm & Hd & _).
  exists s'. split; [exact E|]. split; [exact Hm | exact Hd].
Defined.

Lemma completion_reported_once_witness :
  inProgressStateMachine ex_sys = None /\
  exists svc s' t t0,
    Restore.restore ex_restore_opts (ex_env ex_snapshot restic_fails) ex_sys
      = (Ok (Some svc), s', t) /\
    t = t0 ++ [SendIPCEvent BACKUP_COMPLETED; Resolve JNull] /\
    filter is_completed t0 = [].
Proof.
  split; [reflexivity|].
  destruct (completion_reported_once (ex_env ex_snapshot restic_fails) ex_sys
              ex_restore_opts (ex_clone_opts "Copy") eq_refl)
    as [(svc & s' & t & E & _ & t0 & Ht & Hc & _) _].
  exists svc, s', t, t0. repeat split; assumption.
Defined.

Lemma failure_reported_iff_failed_witness :
  inProgressStateMachine ex_sys = None /\
  exists svc s' t,
    Clone.clone (ex_clone_opts "Copy") (ex_env ex_snapshot restic_fails) ex_sys
      = (Ok (Some svc), s', t) /\
    (Clone.error (context svc) = None -> value svc = Clone.finished) /\
    (forall e, Clone.error (context svc) = Some e ->
       filter is_error_log t = [Logger "error" e]).
Proof.
  split; [reflexivity|].
  destruct (failure_reported_iff_failed (ex_env ex_snapshot restic_fails) ex_sys
              ex_restore_opts (ex_clone_opts "Copy") eq_refl)
    as [_ (svc & s' & t & E & H)].
  exists svc, s', t. split; [exact E|].
  destruct (Clone.error (context svc)) as [e|].
  - split; [discriminate|]. intros e' He'. injection He' as <-. apply H.
  - split; [intros _; apply H | discriminate].
Defined.

Lemma guard_reopens_witness :
  inProgressStateMachine ex_sys = None /\
  exists svc s' t svc' s'' t',
    Restore.restore ex_restore_opts (ex_env ex_snapshot import_fails) ex_sys
      = (Ok (Some svc), s', t) /\
    Clone.cloneFromBackup (ex_clone_opts "Copy") (ex_env ex_snapshot no_fault) s'
      = (Ok (Some svc'), s'', t').
Proof.
  split; [reflexivity|].
  destruct (guard_reopens (ex_env ex_snapshot import_fails) ex_sys
              ex_restore_opts (ex_clone_opts "Copy") eq_refl)
    as [(svc & s' & t & E & Hnext) _].
  destruct (Hnext (ex_env ex_snapshot no_fault) ex_restore_opts (ex_clone_opts "Copy"))
    as [_ (svc' & s'' & t' & E')].
  exists svc, s', t, svc', s'', t'. split; assumption.
Defined.


Lemma restore_untouched_until_applied_witness :
  inProgressStateMachine ex_sys = None /\
  exists svc s' t,
    Restore.restore ex_restore_opts (ex_env ex_snapshot restic_fails) ex_sys
      = (Ok (Some svc), s', t) /\
    (~ In Restore.restoringDatabase (visited svc) -> mysql s' = mysql ex_sys).
Proof.
  split; [reflexivity|].
  destruct (restore_untouched_until_applied (ex_env ex_snapshot restic_fails) ex_sys
              ex_restore_opts eq_refl) as (svc & s' & t & E & _ & Hm).
  exists svc, s', t. split; [exact E | exact Hm].
Defined.





Lemma ex_disk_nodup : NoDup (map fst ex_disk).
Proof.
  repeat (constructor; [cbn; intuition discriminate|]). constructor.
Qed.


Lemma ignore_file_installed_witness :
  existsSync (disk ex_sys_with_default)
    (ignoreFilePath_of (ex_env ex_snapshot no_fault) ex_site) = false /\
  exists s' t,
    getIgnoreFilePath ex_dirname ex_site (ex_env ex_snapshot no_fault) ex_sys_with_default
      = (Ok ["sites"; "my-site"; ".localbackupaddonignore"], s', t) /\
    read_file (disk s') ["sites"; "my-site"; ".localbackupaddonignore"]
      = Some "node_modules".
Proof.
  split; [reflexivity|].
  destruct (ignore_file_installed (ex_env ex_snapshot no_fault) ex_sys_with_default
              ex_dirname ex_site eq_refl) as [Hinst _].
  destruct (Hinst "node_modules" eq_refl eq_refl) as (s' & E & Hr & _).
  eexists s', _. split; [exact E | exact Hr].
Defined.

Lemma snapshots_keyed_by_provider_witness :
  List.length [[1; 2]; [3]] = List.length ex_providers /\
  obj_get (snapshotState ex_providers [[1; 2]; [3]]) "dropbox" = Some [3] /\
  obj_get (snapshotState ex_providers [[1; 2]; [3]]) "s3" = None.
Proof.
  split; [reflexivity|].
  destruct (snapshots_keyed_by_provider ex_providers [[1; 2]; [3]] eq_refl) as [H1 H2].
  split.
  - apply (H1 1 "dropbox" [3] eq_refl eq_refl).
    intros [|[|[|j]]] Hj; try lia; cbn; discriminate.
  - apply H2. cbn. intuition discriminate.
Defined.

Lemma stepper_shows_one_place_witness :
  renderBreadcrumbs ex_routes "/main/add-site/select-snapshot" false
    = cloudStepper (cloudBackupStepper ex_routes "/main/add-site/select-snapshot") /\
  exists k, k < 3 /\
    forall i st,
      nth_error (cloudBackupStepper ex_routes "/main/add-site/select-snapshot") i = Some st ->
      active st = (i =? k)%nat /\ done st = (i <? k)%nat.
Proof.
  split; [reflexivity|].
  assert (Hnd : NoDup [ ADD_SITE_START ex_routes; ADD_SITE_BACKUP_SITE ex_routes;
                        ADD_SITE_BACKUP_SNAPSHOT ex_routes; ADD_SITE_ENVIRONMENT ex_routes ]).
  { repeat (constructor; [cbn; intuition discriminate|]). constructor. }
  destruct (stepper_shows_one_place ex_routes "/main/add-site/select-snapshot" false
              _ Hnd eq_refl) as [_ H].
  exact H.
Defined.


